(** * conduit-ts: binary stream reader / writer and its value decoders

    A shallow embedding of the TypeScript sources

      - [shared.ts]                         ([Endian], the [ValueReader] interface)
      - [value-readers/BitOpsValueReader]   (bit-shift decoding)
      - [value-readers/DataViewValueReader] (scratch buffer + [DataView])
      - [value-readers/PerformanceValueReader]
      - [reader.ts]                         ([StreamReader], compacting)
      - [stream.ts]                         (the earlier [StreamReader], which never compacts)
      - [writer.ts]                         ([StreamWriter])
      - [buffer.ts]                         ([uint8ArrayFromBufferSource])

    Conventions of the embedding.

      - A JavaScript [number] that holds an integer and a [bigint] are both
        [Z]; the 32-bit coercions that the bit operators apply to a [number]
        ([ToInt32], [ToUint32], shift counts taken modulo 32) are written out
        in module [JS].
      - A [Uint8Array] is a [list byte]; indexing out of range yields
        [undefined], which is [None] of [nth_error].
      - A function that can throw returns a [result].
      - An object with mutable fields is a record that is threaded through
        the calls (explicit state passing).
      - A [ReadableStream] reader is the list of chunks it has still to
        deliver; once the list is empty every further [read()] reports
        [done]. *)

From Stdlib Require Import ZArith List Lia Bool.
From Stdlib Require Import Strings.Byte.
Import ListNotations.

Local Open Scope Z_scope.

(** ** Bytes and byte arrays *)

Definition Uint8Array : Type := list byte.

Definition byte_val (b : byte) : Z := Z.of_N (Byte.to_N b).

(** Storing a number into a [Uint8Array] element keeps it modulo 256. *)
Definition ToUint8 (x : Z) : byte :=
  match Byte.of_N (Z.to_N (x mod 256)) with
  | Some b => b
  | None => x00
  end.

Definition len {A} (l : list A) : Z := Z.of_nat (length l).

(** [TypedArray.prototype.slice(start, end)]: negative indices count from the
    end, both are clamped to the array, and an empty range gives an empty
    array. *)
Definition clampIndex (n i : Z) : Z :=
  if i <? 0 then Z.max (n + i) 0 else Z.min i n.

Definition slice {A} (l : list A) (start end_ : Z) : list A :=
  let k := clampIndex (len l) start in
  let final := clampIndex (len l) end_ in
  firstn (Z.to_nat (final - k)) (skipn (Z.to_nat k) l).

(** [slice(start)], the end defaulting to the length. *)
Definition sliceFrom {A} (l : list A) (start : Z) : list A :=
  slice l start (len l).

(** ** Errors and results *)

Inductive error :=
| RangeError
| TypeError
| EndOfStream.   (* [new Error("Unexpected end of stream")] *)

Inductive result (A : Type) :=
| Ok (a : A)
| Throw (e : error).
Arguments Ok {A} a.
Arguments Throw {A} e.

(** What a value reader hands back: a number (or bigint), or [undefined]. *)
Inductive value :=
| Num (z : Z)
| Undefined.

(** ** The 32-bit integer operators of JavaScript numbers *)

Module JS.

Definition ToUint32 (x : Z) : Z := x mod 2 ^ 32.

Definition ToInt32 (x : Z) : Z :=
  let u := x mod 2 ^ 32 in
  if 2 ^ 31 <=? u then u - 2 ^ 32 else u.

Definition shiftCount (b : Z) : Z := ToUint32 b mod 32.

(** [a << b] *)
Definition shl (a b : Z) : Z := ToInt32 (Z.shiftl (ToInt32 a) (shiftCount b)).
(** [a >> b] *)
Definition sar (a b : Z) : Z := Z.shiftr (ToInt32 a) (shiftCount b).
(** [a >>> b] *)
Definition shr (a b : Z) : Z := Z.shiftr (ToUint32 a) (shiftCount b).
(** [a | b] *)
Definition bor (a b : Z) : Z := Z.lor (ToInt32 a) (ToInt32 b).
(** [a & b] *)
Definition band (a b : Z) : Z := Z.land (ToInt32 a) (ToInt32 b).

End JS.

(** ** shared.ts *)

Inductive Endian := Little | Big.

(** [endian === Endian.Little] *)
Definition isLittle (e : Endian) : bool :=
  match e with Little => true | Big => false end.

(** The [ValueReader] interface.  [S] is the type of the implementing
    object's own fields; a method returns the fields as it leaves them. *)
Class ValueReader (S : Type) := {
  readInt8   : S -> Uint8Array -> S * result value;
  readInt16  : S -> Uint8Array -> Endian -> S * result value;
  readInt32  : S -> Uint8Array -> Endian -> S * result value;
  readInt64  : S -> Uint8Array -> Endian -> S * result value;
  readUint8  : S -> Uint8Array -> S * result value;
  readUint16 : S -> Uint8Array -> Endian -> S * result value;
  readUint32 : S -> Uint8Array -> Endian -> S * result value;
  readUint64 : S -> Uint8Array -> Endian -> S * result value
}.

(** ** value-readers/BitOpsValueReader.ts *)

Module BitOpsValueReader.

(** [for (i = 0; i < buffer.length; i++) result |= buffer[i] << (i * 8)];
    the list is the part of the buffer from index [i] on. *)
Fixpoint littleLoop (rest : Uint8Array) (i result : Z) : Z :=
  match rest with
  | [] => result
  | b :: rest' =>
      littleLoop rest' (i + 1) (JS.bor result (JS.shl (byte_val b) (i * 8)))
  end.

(** [for (...) result = (result << 8) | buffer[i]] *)
Fixpoint bigLoop (rest : Uint8Array) (result : Z) : Z :=
  match rest with
  | [] => result
  | b :: rest' => bigLoop rest' (JS.bor (JS.shl result 8) (byte_val b))
  end.

Definition bufferToUnsignedNumber (buffer : Uint8Array) (endian : Endian) : Z :=
  let result :=
    match endian with
    | Little => littleLoop buffer 0 0
    | Big => bigLoop buffer 0
    end in
  JS.shr result 0.

Definition toSignedNumber (u bits : Z) : result Z :=
  if u <? 0 then Throw RangeError
  else
    let mask := JS.shl 1 bits - 1 in
    let shift := 32 - bits in
    Ok (JS.sar (JS.shl (JS.band u mask) shift) shift).

Definition CHUNK_SIZE : Z := 4.

(** The two loops of [bufferToUnsignedBigInt].  Each turn advances [i] by
    [CHUNK_SIZE]; the turn counter [fuel] is started at the buffer length,
    which the loop never uses up (a larger counter gives the same result). *)
Fixpoint bigIntLoopBig (fuel : nat) (buffer : Uint8Array) (i result : Z) : Z :=
  match fuel with
  | O => result
  | S fuel' =>
      if i <? len buffer then
        let slice := slice buffer i (i + CHUNK_SIZE) in
        let part := bufferToUnsignedNumber slice Big in
        bigIntLoopBig fuel' buffer (i + CHUNK_SIZE)
          (Z.lor (Z.shiftl result (len slice * 8)) part)
      else result
  end.

Fixpoint bigIntLoopLittle (fuel : nat) (buffer : Uint8Array) (i shift result : Z) : Z :=
  match fuel with
  | O => result
  | S fuel' =>
      if i <? len buffer then
        let slice := slice buffer i (i + CHUNK_SIZE) in
        let part := bufferToUnsignedNumber slice Little in
        bigIntLoopLittle fuel' buffer (i + CHUNK_SIZE)
          (shift + len slice * 8)
          (Z.lor result (Z.shiftl part shift))
      else result
  end.

Definition bufferToUnsignedBigInt (buffer : Uint8Array) (endian : Endian) : Z :=
  match endian with
  | Big => bigIntLoopBig (length buffer) buffer 0 0
  | Little => bigIntLoopLittle (length buffer) buffer 0 0 0
  end.

Definition liftNum (r : result Z) : result value :=
  match r with
  | Ok z => Ok (Num z)
  | Throw e => Throw e
  end.

(** [return buf[0]] *)
Definition readUint8 (buf : Uint8Array) : result value :=
  match nth_error buf 0 with
  | Some b => Ok (Num (byte_val b))
  | None => Ok Undefined
  end.

Definition readUint16 (buf : Uint8Array) (endian : Endian) : result value :=
  Ok (Num (bufferToUnsignedNumber buf endian)).

Definition readUint32 (buf : Uint8Array) (endian : Endian) : result value :=
  Ok (Num (bufferToUnsignedNumber buf endian)).

Definition readUint64 (buf : Uint8Array) (endian : Endian) : result value :=
  Ok (Num (bufferToUnsignedBigInt buf endian)).

(** [toSignedNumber(buf[0], 8)].  On an empty buffer [buf[0]] is
    [undefined]: [undefined < 0] is false and [undefined & mask] is [0],
    which is what [toSignedNumber] computes from the number [0]. *)
Definition readInt8 (buf : Uint8Array) : result value :=
  match nth_error buf 0 with
  | Some b => liftNum (toSignedNumber (byte_val b) 8)
  | None => liftNum (toSignedNumber 0 8)
  end.

Definition readInt16 (buf : Uint8Array) (endian : Endian) : result value :=
  liftNum (toSignedNumber (bufferToUnsignedNumber buf endian) 16).

(** [this.readUint32(buf, endian) | 0] *)
Definition readInt32 (buf : Uint8Array) (endian : Endian) : result value :=
  Ok (Num (JS.bor (bufferToUnsignedNumber buf endian) 0)).

Definition readInt64 (buf : Uint8Array) (endian : Endian) : result value :=
  let u := bufferToUnsignedBigInt buf endian in
  let sign := Z.shiftl 1 63 in
  let mask := Z.shiftl 1 64 - 1 in
  let ui := Z.land u mask in
  Ok (Num (if negb (Z.land ui sign =? 0) then ui - Z.shiftl 1 64 else ui)).

End BitOpsValueReader.

#[export] Instance BitOps : ValueReader unit := {|
  readInt8   := fun s buf => (s, BitOpsValueReader.readInt8 buf);
  readInt16  := fun s buf e => (s, BitOpsValueReader.readInt16 buf e);
  readInt32  := fun s buf e => (s, BitOpsValueReader.readInt32 buf e);
  readInt64  := fun s buf e => (s, BitOpsValueReader.readInt64 buf e);
  readUint8  := fun s buf => (s, BitOpsValueReader.readUint8 buf);
  readUint16 := fun s buf e => (s, BitOpsValueReader.readUint16 buf e);
  readUint32 := fun s buf e => (s, BitOpsValueReader.readUint32 buf e);
  readUint64 := fun s buf e => (s, BitOpsValueReader.readUint64 buf e)
|}.

(** ** The platform's typed-array and [DataView] accessors

    These are the ECMAScript operations the sources call: [TypedArray.set],
    [DataView.getUintN/getIntN] (GetViewValue) and [DataView.setUintN/setIntN]
    (SetViewValue).  A view that would reach outside its buffer throws a
    [RangeError]. *)

Module Platform.

(** [target.set(source, offset)] *)
Definition typedArraySet (target source : Uint8Array) (offset : Z) : result Uint8Array :=
  if (offset <? 0) || (len target <? len source + offset) then Throw RangeError
  else Ok (firstn (Z.to_nat offset) target ++ source
             ++ skipn (Z.to_nat offset + length source) target).

(** The number whose base-256 digits are [bs], least significant first. *)
Fixpoint leValue (bs : Uint8Array) : Z :=
  match bs with
  | [] => 0
  | b :: rest => byte_val b + 256 * leValue rest
  end.

(** The [size] least significant base-256 digits of [x], least
    significant first (two's complement for a negative [x]). *)
Fixpoint leBytes (size : nat) (x : Z) : Uint8Array :=
  match size with
  | O => []
  | S n => ToUint8 x :: leBytes n (x / 256)
  end.

Definition rawBytes (data : Uint8Array) (byteOffset : Z) (size : nat) : result Uint8Array :=
  if (byteOffset <? 0) || (len data <? byteOffset + Z.of_nat size) then Throw RangeError
  else Ok (firstn size (skipn (Z.to_nat byteOffset) data)).

Definition getUint (size : nat) (data : Uint8Array) (byteOffset : Z)
    (littleEndian : bool) : result Z :=
  match rawBytes data byteOffset size with
  | Ok raw => Ok (leValue (if littleEndian then raw else rev raw))
  | Throw e => Throw e
  end.

Definition asSigned (size : nat) (u : Z) : Z :=
  if 2 ^ (8 * Z.of_nat size - 1) <=? u then u - 2 ^ (8 * Z.of_nat size) else u.

Definition getInt (size : nat) (data : Uint8Array) (byteOffset : Z)
    (littleEndian : bool) : result Z :=
  match getUint size data byteOffset littleEndian with
  | Ok u => Ok (asSigned size u)
  | Throw e => Throw e
  end.

(** [setUintN], [setIntN], [setBigUint64], [setBigInt64]: the value is
    reduced modulo [2^(8*size)] and its bytes are stored in the requested
    order. *)
Definition setInt (size : nat) (data : Uint8Array) (byteOffset : Z) (v : Z)
    (littleEndian : bool) : result Uint8Array :=
  if (byteOffset <? 0) || (len data <? byteOffset + Z.of_nat size) then Throw RangeError
  else
    let raw := leBytes size v in
    Ok (firstn (Z.to_nat byteOffset) data
          ++ (if littleEndian then raw else rev raw)
          ++ skipn (Z.to_nat byteOffset + size) data).

End Platform.

(** ** value-readers/DataViewValueReader.ts *)

Module DataViewValueReader.

(** [scratchDataView] is a view of [scratchBuf]: one field stands for
    both. *)
Record t := { scratchBuf : Uint8Array }.

(** [new ArrayBuffer(8)] *)
Definition create : t := {| scratchBuf := repeat x00 8 |}.

(** [new Uint8Array(this.scratchBuf).set(buf)] *)
Definition loadBuffer (this : t) (buf : Uint8Array) : t * result unit :=
  match Platform.typedArraySet (scratchBuf this) buf 0 with
  | Ok b => ({| scratchBuf := b |}, Ok tt)
  | Throw e => (this, Throw e)
  end.

Definition liftNum (r : result Z) : result value :=
  match r with
  | Ok z => Ok (Num z)
  | Throw e => Throw e
  end.

(** [this.loadBuffer(buf); return this.scratchDataView.get...(0, ...)] *)
Definition loadThen (this : t) (buf : Uint8Array)
    (get : Uint8Array -> result Z) : t * result value :=
  match loadBuffer this buf with
  | (this', Ok _) => (this', liftNum (get (scratchBuf this')))
  | (this', Throw e) => (this', Throw e)
  end.

Definition readUint8 (this : t) (buf : Uint8Array) :=
  loadThen this buf (fun d => Platform.getUint 1 d 0 true).
Definition readInt8 (this : t) (buf : Uint8Array) :=
  loadThen this buf (fun d => Platform.getInt 1 d 0 true).
Definition readUint16 (this : t) (buf : Uint8Array) (endian : Endian) :=
  loadThen this buf (fun d => Platform.getUint 2 d 0 (isLittle endian)).
Definition readInt16 (this : t) (buf : Uint8Array) (endian : Endian) :=
  loadThen this buf (fun d => Platform.getInt 2 d 0 (isLittle endian)).
Definition readUint32 (this : t) (buf : Uint8Array) (endian : Endian) :=
  loadThen this buf (fun d => Platform.getUint 4 d 0 (isLittle endian)).
Definition readInt32 (this : t) (buf : Uint8Array) (endian : Endian) :=
  loadThen this buf (fun d => Platform.getInt 4 d 0 (isLittle endian)).
Definition readUint64 (this : t) (buf : Uint8Array) (endian : Endian) :=
  loadThen this buf (fun d => Platform.getUint 8 d 0 (isLittle endian)).
Definition readInt64 (this : t) (buf : Uint8Array) (endian : Endian) :=
  loadThen this buf (fun d => Platform.getInt 8 d 0 (isLittle endian)).

End DataViewValueReader.

#[export] Instance DataViewVR : ValueReader DataViewValueReader.t := {|
  readInt8   := DataViewValueReader.readInt8;
  readInt16  := DataViewValueReader.readInt16;
  readInt32  := DataViewValueReader.readInt32;
  readInt64  := DataViewValueReader.readInt64;
  readUint8  := DataViewValueReader.readUint8;
  readUint16 := DataViewValueReader.readUint16;
  readUint32 := DataViewValueReader.readUint32;
  readUint64 := DataViewValueReader.readUint64
|}.

(** ** value-readers/PerformanceValueReader.ts *)

Module PerformanceValueReader.

Record t := { br : unit; dv : DataViewValueReader.t }.

Definition create : t := {| br := tt; dv := DataViewValueReader.create |}.

Definition viaBr (this : t) (r : unit * result value) : t * result value :=
  ({| br := fst r; dv := dv this |}, snd r).
Definition viaDv (this : t) (r : DataViewValueReader.t * result value) : t * result value :=
  ({| br := br this; dv := fst r |}, snd r).

Definition readInt8 (this : t) (buf : Uint8Array) :=
  viaBr this (readInt8 (S := unit) (br this) buf).
Definition readInt16 (this : t) (buf : Uint8Array) (endian : Endian) :=
  viaBr this (readInt16 (S := unit) (br this) buf endian).
Definition readInt32 (this : t) (buf : Uint8Array) (endian : Endian) :=
  viaDv this (DataViewValueReader.readInt32 (dv this) buf endian).
Definition readInt64 (this : t) (buf : Uint8Array) (endian : Endian) :=
  viaDv this (DataViewValueReader.readInt64 (dv this) buf endian).
Definition readUint8 (this : t) (buf : Uint8Array) :=
  viaBr this (readUint8 (S := unit) (br this) buf).
Definition readUint16 (this : t) (buf : Uint8Array) (endian : Endian) :=
  viaBr this (readUint16 (S := unit) (br this) buf endian).
Definition readUint32 (this : t) (buf : Uint8Array) (endian : Endian) :=
  viaDv this (DataViewValueReader.readUint32 (dv this) buf endian).
Definition readUint64 (this : t) (buf : Uint8Array) (endian : Endian) :=
  viaDv this (DataViewValueReader.readUint64 (dv this) buf endian).

End PerformanceValueReader.

#[export] Instance PerformanceVR : ValueReader PerformanceValueReader.t := {|
  readInt8   := PerformanceValueReader.readInt8;
  readInt16  := PerformanceValueReader.readInt16;
  readInt32  := PerformanceValueReader.readInt32;
  readInt64  := PerformanceValueReader.readInt64;
  readUint8  := PerformanceValueReader.readUint8;
  readUint16 := PerformanceValueReader.readUint16;
  readUint32 := PerformanceValueReader.readUint32;
  readUint64 := PerformanceValueReader.readUint64
|}.

(** ** The eight typed operations, indexed by width and signedness *)

Inductive Width := W8 | W16 | W32 | W64.

Definition widthBytes (w : Width) : nat :=
  match w with W8 => 1 | W16 => 2 | W32 => 4 | W64 => 8 end%nat.

Definition widthBits (w : Width) : Z := 8 * Z.of_nat (widthBytes w).

(** The method of a [ValueReader] for a width and signedness. *)
Definition readValue {S : Type} {VR : ValueReader S} (w : Width) (signed : bool)
    (s : S) (buf : Uint8Array) (endian : Endian) : S * result value :=
  match w, signed with
  | W8, false => readUint8 s buf
  | W8, true => readInt8 s buf
  | W16, false => readUint16 s buf endian
  | W16, true => readInt16 s buf endian
  | W32, false => readUint32 s buf endian
  | W32, true => readInt32 s buf endian
  | W64, false => readUint64 s buf endian
  | W64, true => readInt64 s buf endian
  end.

(** The values a width holds. *)
Definition minValue (w : Width) (signed : bool) : Z :=
  if signed then - 2 ^ (widthBits w - 1) else 0.

Definition maxValue (w : Width) (signed : bool) : Z :=
  if signed then 2 ^ (widthBits w - 1) - 1 else 2 ^ widthBits w - 1.

Definition representable (w : Width) (signed : bool) (v : Z) : Prop :=
  minValue w signed <= v <= maxValue w signed.

(** ** writer.ts *)

Module StreamWriter.

(** [writer] is the sink: the chunks it has accepted so far, oldest first
    (an in-memory sink, which accepts every chunk).  [buffer] is the
    8-byte scratch array every [DataView] of the class looks at. *)
Record t := { writer : list Uint8Array; buffer : Uint8Array }.

Definition create : t := {| writer := []; buffer := repeat x00 8 |}.

(** [await this.writer.write(buffer); return buffer.byteLength] *)
Definition write (this : t) (chunk : Uint8Array) : t * result Z :=
  ({| writer := writer this ++ [chunk]; buffer := buffer this |}, Ok (len chunk)).

(** The common tail of the typed writes: the scratch array as the store
    left it, then [this.write(this.buffer.slice(0, n))].  [slice] copies,
    so the chunk handed to the sink does not alias the scratch array. *)
Definition storeThenWrite (this : t) (stored : result Uint8Array) (n : Z) : t * result Z :=
  match stored with
  | Ok b => write {| writer := writer this; buffer := b |} (slice b 0 n)
  | Throw e => (this, Throw e)
  end.

(** [this.buffer.set([value], 0)] *)
Definition writeUint8 (this : t) (v : Z) :=
  storeThenWrite this (Platform.typedArraySet (buffer this) [ToUint8 v] 0) 1.
Definition writeInt8 (this : t) (v : Z) :=
  storeThenWrite this (Platform.setInt 1 (buffer this) 0 v false) 1.
Definition writeUint16 (this : t) (v : Z) (endian : Endian) :=
  storeThenWrite this (Platform.setInt 2 (buffer this) 0 v (isLittle endian)) 2.
Definition writeInt16 (this : t) (v : Z) (endian : Endian) :=
  storeThenWrite this (Platform.setInt 2 (buffer this) 0 v (isLittle endian)) 2.
Definition writeUint32 (this : t) (v : Z) (endian : Endian) :=
  storeThenWrite this (Platform.setInt 4 (buffer this) 0 v (isLittle endian)) 4.
Definition writeInt32 (this : t) (v : Z) (endian : Endian) :=
  storeThenWrite this (Platform.setInt 4 (buffer this) 0 v (isLittle endian)) 4.
Definition writeUint64 (this : t) (v : Z) (endian : Endian) :=
  storeThenWrite this (Platform.setInt 8 (buffer this) 0 v (isLittle endian)) 8.
Definition writeInt64 (this : t) (v : Z) (endian : Endian) :=
  storeThenWrite this (Platform.setInt 8 (buffer this) 0 v (isLittle endian)) 8.

(** The write method for a width and signedness. *)
Definition writeValue (w : Width) (signed : bool) (this : t) (v : Z)
    (endian : Endian) : t * result Z :=
  match w, signed with
  | W8, false => writeUint8 this v
  | W8, true => writeInt8 this v
  | W16, false => writeUint16 this v endian
  | W16, true => writeInt16 this v endian
  | W32, false => writeUint32 this v endian
  | W32, true => writeInt32 this v endian
  | W64, false => writeUint64 this v endian
  | W64, true => writeInt64 this v endian
  end.

End StreamWriter.

(** ** reader.ts *)

Module StreamReader.

(** A call on the reader: [read(n)], or one of the typed reads. *)
Inductive Request :=
| ReadBytes (n : Z)
| ReadValue (w : Width) (signed : bool) (endian : Endian).

(** The number of bytes a call asks for. *)
Definition requested (r : Request) : Z :=
  match r with
  | ReadBytes n => n
  | ReadValue w _ _ => Z.of_nat (widthBytes w)
  end.

Definition totalRequested (rs : list Request) : Z :=
  fold_right Z.add 0 (map requested rs).

(** What a call gives back. *)
Inductive Reply :=
| Bytes (r : result Uint8Array)
| Val (r : result value).

Definition succeeded (r : Reply) : Prop :=
  match r with
  | Bytes (Ok _) | Val (Ok _) => True
  | _ => False
  end.

Section WithValueReader.

Context {S : Type} {VR : ValueReader S}.

(** [reader]: the chunks the source has still to deliver. *)
Record t := {
  reader : list Uint8Array;
  buffer : Uint8Array;
  bufferOffset : Z;
  valueReader : S;
  bytesRead : Z
}.

(** [new StreamReader(stream, valueReader)] *)
Definition create (stream : list Uint8Array) (vr : S) : t :=
  {| reader := stream; buffer := []; bufferOffset := 0;
     valueReader := vr; bytesRead := 0 |}.

(** The loop of [ensureBufferFilledToAtLeast]: one chunk is pulled and
    appended per turn; a source that reports [done] ends it with the
    error. *)
Fixpoint ensureLoop (src : list Uint8Array) (buffer : Uint8Array)
    (bufferOffset countNum : Z) : list Uint8Array * Uint8Array * result unit :=
  if len buffer - bufferOffset <? countNum then
    match src with
    | [] => ([], buffer, Throw EndOfStream)
    | value :: src' => ensureLoop src' (buffer ++ value) bufferOffset countNum
    end
  else (src, buffer, Ok tt).

Definition ensureBufferFilledToAtLeast (this : t) (count : Z) : t * result unit :=
  match ensureLoop (reader this) (buffer this) (bufferOffset this) count with
  | (src, buf, r) =>
      ({| reader := src; buffer := buf; bufferOffset := bufferOffset this;
          valueReader := valueReader this; bytesRead := bytesRead this |}, r)
  end.

(** [if (this.bufferOffset > this.buffer.byteLength >>> 1) ...] *)
Definition trimBuffer (this : t) : t :=
  if bufferOffset this >? JS.shr (len (buffer this)) 1 then
    {| reader := reader this;
       buffer := sliceFrom (buffer this) (bufferOffset this);
       bufferOffset := 0;
       valueReader := valueReader this; bytesRead := bytesRead this |}
  else this.

Definition read (this : t) (len_ : Z) : t * result Uint8Array :=
  let offset := len_ in
  match ensureBufferFilledToAtLeast this offset with
  | (this1, Throw e) => (this1, Throw e)
  | (this1, Ok _) =>
      let value :=
        slice (buffer this1) (bufferOffset this1) (bufferOffset this1 + offset) in
      let this2 :=
        {| reader := reader this1; buffer := buffer this1;
           bufferOffset := bufferOffset this1 + offset;
           valueReader := valueReader this1;
           bytesRead := bytesRead this1 + offset |} in
      (trimBuffer this2, Ok value)
  end.

(** [const buffer = await this.read(n); return this.valueReader.readX(buffer, endian)] *)
Definition readThen (this : t) (n : Z)
    (decode : S -> Uint8Array -> S * result value) : t * result value :=
  match read this n with
  | (this1, Throw e) => (this1, Throw e)
  | (this1, Ok buf) =>
      let (s, r) := decode (valueReader this1) buf in
      ({| reader := reader this1; buffer := buffer this1;
          bufferOffset := bufferOffset this1;
          valueReader := s; bytesRead := bytesRead this1 |}, r)
  end.

Definition readUint8 (this : t) := readThen this 1 readUint8.
Definition readInt8 (this : t) := readThen this 1 readInt8.
Definition readUint16 (this : t) (endian : Endian) :=
  readThen this 2 (fun s b => readUint16 s b endian).
Definition readInt16 (this : t) (endian : Endian) :=
  readThen this 2 (fun s b => readInt16 s b endian).
Definition readUint32 (this : t) (endian : Endian) :=
  readThen this 4 (fun s b => readUint32 s b endian).
Definition readInt32 (this : t) (endian : Endian) :=
  readThen this 4 (fun s b => readInt32 s b endian).
Definition readUint64 (this : t) (endian : Endian) :=
  readThen this 8 (fun s b => readUint64 s b endian).
Definition readInt64 (this : t) (endian : Endian) :=
  readThen this 8 (fun s b => readInt64 s b endian).

(** The [while (!done)] loop of [readUntilEof]: every chunk the source
    still has is pushed onto [chunks]. *)
Fixpoint drainLoop (src : list Uint8Array) (chunks : list Uint8Array) : list Uint8Array :=
  match src with
  | [] => chunks
  | value :: src' => drainLoop src' (chunks ++ [value])
  end.

Definition readUntilEof (this : t) : t * result Uint8Array :=
  let chunks := drainLoop (reader this) [sliceFrom (buffer this) (bufferOffset this)] in
  let length := fold_left (fun acc chunk => acc + len chunk) chunks 0 in
  (* [buffer.set(chunk, offset); offset += chunk.length] for each chunk *)
  let out := concat chunks in
  ({| reader := []; buffer := buffer this;
      bufferOffset := len (buffer this);
      valueReader := valueReader this;
      bytesRead := bytesRead this + length |}, Ok out).

(** The typed read for a width and signedness. *)
Definition readTyped (w : Width) (signed : bool) (this : t) (endian : Endian) :=
  match w, signed with
  | W8, false => readUint8 this
  | W8, true => readInt8 this
  | W16, false => readUint16 this endian
  | W16, true => readInt16 this endian
  | W32, false => readUint32 this endian
  | W32, true => readInt32 this endian
  | W64, false => readUint64 this endian
  | W64, true => readInt64 this endian
  end.

Definition perform (this : t) (r : Request) : t * Reply :=
  match r with
  | ReadBytes n => let (this', out) := read this n in (this', Bytes out)
  | ReadValue w signed endian =>
      let (this', out) := readTyped w signed this endian in (this', Val out)
  end.

(** A sequence of calls, one after the other on the same reader; the
    replies are paired with [bytesRead] as it stands after each call. *)
Fixpoint run (this : t) (rs : list Request) : t * list (Reply * Z) :=
  match rs with
  | [] => (this, [])
  | r :: rs' =>
      let (this1, out) := perform this r in
      let (this2, outs) := run this1 rs' in
      (this2, (out, bytesRead this1) :: outs)
  end.

(** The invariant of the cursor. *)
Definition wf (this : t) : Prop := 0 <= bufferOffset this <= len (buffer this).

(** The bytes not yet handed out: the unread part of the window, then
    everything the source has still to deliver. *)
Definition unread (this : t) : Uint8Array :=
  skipn (Z.to_nat (bufferOffset this)) (buffer this) ++ concat (reader this).

End WithValueReader.

Arguments t : clear implicits.

End StreamReader.

(** ** stream.ts: the earlier reader, whose [read] never compacts *)

Module Stream.

Record t := {
  reader : list Uint8Array;
  buffer : Uint8Array;
  bufferOffset : Z;
  bytesRead : Z
}.

Definition create (stream : list Uint8Array) : t :=
  {| reader := stream; buffer := []; bufferOffset := 0; bytesRead := 0 |}.

Fixpoint ensureLoop (src : list Uint8Array) (buffer : Uint8Array)
    (bufferOffset countNum : Z) : list Uint8Array * Uint8Array * result unit :=
  if len buffer - bufferOffset <? countNum then
    match src with
    | [] => ([], buffer, Throw EndOfStream)
    | value :: src' => ensureLoop src' (buffer ++ value) bufferOffset countNum
    end
  else (src, buffer, Ok tt).

Definition ensureBufferFilledToAtLeast (this : t) (count : Z) : t * result unit :=
  match ensureLoop (reader this) (buffer this) (bufferOffset this) count with
  | (src, buf, r) =>
      ({| reader := src; buffer := buf; bufferOffset := bufferOffset this;
          bytesRead := bytesRead this |}, r)
  end.

Definition read (this : t) (len_ : Z) : t * result Uint8Array :=
  let offset := len_ in
  match ensureBufferFilledToAtLeast this offset with
  | (this1, Throw e) => (this1, Throw e)
  | (this1, Ok _) =>
      let value :=
        slice (buffer this1) (bufferOffset this1) (bufferOffset this1 + offset) in
      ({| reader := reader this1; buffer := buffer this1;
          bufferOffset := bufferOffset this1 + offset;
          bytesRead := bytesRead this1 + offset |}, Ok value)
  end.

(** A sequence of [read] calls; each result is paired with [bytesRead] as
    it stands after the call. *)
Fixpoint reads (this : t) (ns : list Z) : t * list (result Uint8Array * Z) :=
  match ns with
  | [] => (this, [])
  | n :: ns' =>
      let (this1, out) := read this n in
      let (this2, outs) := reads this1 ns' in
      (this2, (out, bytesRead this1) :: outs)
  end.

Definition wf (this : t) : Prop := 0 <= bufferOffset this <= len (buffer this).

Definition unread (this : t) : Uint8Array :=
  skipn (Z.to_nat (bufferOffset this)) (buffer this) ++ concat (reader this).

(** [createDataView(data)] is [new DataView(data.buffer)].  The typed reads
    call it on the array [read] has just returned, a fresh copy that spans
    its whole buffer, so the view sees exactly the bytes of that array. *)
Definition createDataView (data : Uint8Array) : Uint8Array := data.

Definition liftNum (r : result Z) : result value :=
  match r with
  | Ok z => Ok (Num z)
  | Throw e => Throw e
  end.

(** [const buffer = await this.read(n); ... return <get>] *)
Definition readWith (this : t) (n : Z) (get : Uint8Array -> result value) : t * result value :=
  match read this n with
  | (this1, Throw e) => (this1, Throw e)
  | (this1, Ok buffer) => (this1, get buffer)
  end.

(** [return buffer[0]] *)
Definition readUint8 (this : t) :=
  readWith this 1 (fun buffer =>
    match nth_error buffer 0 with
    | Some b => Ok (Num (byte_val b))
    | None => Ok Undefined
    end).
Definition readInt8 (this : t) :=
  readWith this 1 (fun buffer =>
    liftNum (Platform.getInt 1 (createDataView buffer) 0 false)).
Definition readUint16 (this : t) (endian : Endian) :=
  readWith this 2 (fun buffer =>
    liftNum (Platform.getUint 2 (createDataView buffer) 0 (isLittle endian))).
Definition readInt16 (this : t) (endian : Endian) :=
  readWith this 2 (fun buffer =>
    liftNum (Platform.getInt 2 (createDataView buffer) 0 (isLittle endian))).
Definition readUint32 (this : t) (endian : Endian) :=
  readWith this 4 (fun buffer =>
    liftNum (Platform.getUint 4 (createDataView buffer) 0 (isLittle endian))).
Definition readInt32 (this : t) (endian : Endian) :=
  readWith this 4 (fun buffer =>
    liftNum (Platform.getInt 4 (createDataView buffer) 0 (isLittle endian))).
Definition readUint64 (this : t) (endian : Endian) :=
  readWith this 8 (fun buffer =>
    liftNum (Platform.getUint 8 (createDataView buffer) 0 (isLittle endian))).
Definition readInt64 (this : t) (endian : Endian) :=
  readWith this 8 (fun buffer =>
    liftNum (Platform.getInt 8 (createDataView buffer) 0 (isLittle endian))).

Definition readTyped (w : Width) (signed : bool) (this : t) (endian : Endian) :=
  match w, signed with
  | W8, false => readUint8 this
  | W8, true => readInt8 this
  | W16, false => readUint16 this endian
  | W16, true => readInt16 this endian
  | W32, false => readUint32 this endian
  | W32, true => readInt32 this endian
  | W64, false => readUint64 this endian
  | W64, true => readInt64 this endian
  end.

Definition perform (this : t) (r : StreamReader.Request) : t * StreamReader.Reply :=
  match r with
  | StreamReader.ReadBytes n =>
      let (this', out) := read this n in (this', StreamReader.Bytes out)
  | StreamReader.ReadValue w signed endian =>
      let (this', out) := readTyped w signed this endian in (this', StreamReader.Val out)
  end.

Fixpoint run (this : t) (rs : list StreamReader.Request) : t * list (StreamReader.Reply * Z) :=
  match rs with
  | [] => (this, [])
  | r :: rs' =>
      let (this1, out) := perform this r in
      let (this2, outs) := run this1 rs' in
      (this2, (out, bytesRead this1) :: outs)
  end.

End Stream.

(** ** buffer.ts *)

Module Buffer.

(** A buffer object: which object it is, whether it is an [ArrayBuffer]
    (rather than a [SharedArrayBuffer]), and its bytes. *)
Record Storage := { ident : nat; isArrayBuffer : bool; bytes : Uint8Array }.

Inductive ViewKind :=
| KUint8Array
| KOther.   (* [DataView], [Int8Array], [Uint16Array], [Float32Array], ... *)

(** An [ArrayBufferView]: a window of [byteLength] bytes that starts
    [byteOffset] bytes into its buffer. *)
Record View := {
  kind : ViewKind;
  viewBuffer : Storage;
  byteOffset : Z;
  byteLength : Z
}.

(** What the function can be handed.  The type [BufferSource] admits
    buffers and views only, but the function tests its argument at run time,
    and its third test looks at the property [buffer] of whatever it was
    given.  For a value that is neither a buffer nor a view, [otherBuffer]
    is the value of that property when it is a buffer object, as in
    [{ buffer: new ArrayBuffer(4) }], and [None] when it is anything else
    or missing (a string, a number, [{}]) or when the value has no
    properties at all ([null], [undefined]: the property access itself
    raises a [TypeError]). *)
Inductive BufferSource :=
| SrcBuffer (b : Storage)
| SrcView (v : View)
| SrcOther (otherBuffer : option Storage).

(** [new Uint8Array(buffer)]: the whole buffer. *)
Definition wholeBuffer (b : Storage) : View :=
  {| kind := KUint8Array; viewBuffer := b; byteOffset := 0; byteLength := len (bytes b) |}.

(** The bytes a view exposes. *)
Definition viewBytes (v : View) : Uint8Array :=
  firstn (Z.to_nat (byteLength v)) (skipn (Z.to_nat (byteOffset v)) (bytes (viewBuffer v))).

Definition sourceBytes (src : BufferSource) : option Uint8Array :=
  match src with
  | SrcBuffer b => Some (bytes b)
  | SrcView v => Some (viewBytes v)
  | SrcOther _ => None
  end.

Definition uint8ArrayFromBufferSource (bufferSource : BufferSource) : result View :=
  match bufferSource with
  | SrcBuffer b =>
      if isArrayBuffer b then Ok (wholeBuffer b) else Throw TypeError
  | SrcView v =>
      match kind v with
      | KUint8Array => Ok v
      | KOther =>
          if isArrayBuffer (viewBuffer v) then Ok (wholeBuffer (viewBuffer v))
          else Throw TypeError
      end
  | SrcOther (Some b) =>
      if isArrayBuffer b then Ok (wholeBuffer b) else Throw TypeError
  | SrcOther None => Throw TypeError
  end.

End Buffer.

(** ** reader.ts: the static constructor [StreamReader.from]

    The stream it builds enqueues the one array
    [uint8ArrayFromBufferSource] returns and closes; an exception of that
    function leaves the [ReadableStream] constructor, and so [from].  The
    module of [DefaultValueReader] is not part of the sources at hand: the
    value reader of the new object is a parameter here. *)

Module StreamReaderStatic.

Definition from {S : Type} (bufferSource : Buffer.BufferSource) (valueReader : S)
    : result (StreamReader.t S) :=
  match Buffer.uint8ArrayFromBufferSource bufferSource with
  | Ok view => Ok (StreamReader.create [Buffer.viewBytes view] valueReader)
  | Throw e => Throw e
  end.

End StreamReaderStatic.

(** ** Sequences of typed writes and the reads that take them back *)

Record Item := {
  itemWidth : Width;
  itemSigned : bool;
  itemEndian : Endian;
  itemValue : Z
}.

Definition writeItem (this : StreamWriter.t) (it : Item) : StreamWriter.t * result Z :=
  StreamWriter.writeValue (itemWidth it) (itemSigned it) this (itemValue it) (itemEndian it).

(** The writer after the typed writes of [items], in order. *)
Fixpoint writeAll (this : StreamWriter.t) (items : list Item) : StreamWriter.t :=
  match items with
  | [] => this
  | it :: items' => writeAll (fst (writeItem this it)) items'
  end.

(** The typed read that matches a typed write. *)
Definition readItem (it : Item) : StreamReader.Request :=
  StreamReader.ReadValue (itemWidth it) (itemSigned it) (itemEndian it).

(** The [W/8] low base-256 digits of [v] in the requested order. *)
Definition encoded (w : Width) (endian : Endian) (v : Z) : Uint8Array :=
  if isLittle endian then Platform.leBytes (widthBytes w) v
  else rev (Platform.leBytes (widthBytes w) v).

Definition encodedItem (it : Item) : Uint8Array :=
  encoded (itemWidth it) (itemEndian it) (itemValue it).

Definition representableItem (it : Item) : Prop :=
  representable (itemWidth it) (itemSigned it) (itemValue it).

(** The bytes the successful [read(n)] calls of a run handed out, in
    order. *)
Definition delivered (outs : list (StreamReader.Reply * Z)) : Uint8Array :=
  flat_map (fun o => match fst o with
                     | StreamReader.Bytes (Ok b) => b
                     | _ => []
                     end) outs.

(** ** The reader as the specification words it

    [read(n)] hands out exactly the next [n] bytes of the stream and adds
    [n] to the counter, or fails with the end-of-stream error and changes
    nothing.  There is no window, no cursor and no chunking here; the
    theorems below compare the code with this description. *)

Module Model.

Import StreamReader.

Section WithValueReader.

Context {S : Type} {VR : ValueReader S}.

Record t := { remaining : Uint8Array; counter : Z; decoder : S }.

Definition read (m : t) (n : Z) : t * result Uint8Array :=
  if n <=? len (remaining m) then
    ({| remaining := skipn (Z.to_nat n) (remaining m);
        counter := counter m + n; decoder := decoder m |},
     Ok (firstn (Z.to_nat n) (remaining m)))
  else (m, Throw EndOfStream).

Definition perform (m : t) (r : Request) : t * Reply :=
  match r with
  | ReadBytes n => let (m', out) := read m n in (m', Bytes out)
  | ReadValue w signed endian =>
      match read m (Z.of_nat (widthBytes w)) with
      | (m', Throw e) => (m', Val (Throw e))
      | (m', Ok buf) =>
          let (s, v) := readValue w signed (decoder m') buf endian in
          ({| remaining := remaining m'; counter := counter m'; decoder := s |}, Val v)
      end
  end.

Fixpoint run (m : t) (rs : list Request) : t * list (Reply * Z) :=
  match rs with
  | [] => (m, [])
  | r :: rs' =>
      let (m1, out) := perform m r in
      let (m2, outs) := run m1 rs' in
      (m2, (out, counter m1) :: outs)
  end.

(** What a reader of [reader.ts] looks like from outside. *)
Definition ofReader (this : StreamReader.t S) : t :=
  {| remaining := unread this; counter := bytesRead this;
     decoder := valueReader this |}.

(** The same for a reader of [stream.ts], which has no value reader of
    its own. *)
Definition ofStream (this : Stream.t) (vr : S) : t :=
  {| remaining := Stream.unread this; counter := Stream.bytesRead this;
     decoder := vr |}.

End WithValueReader.

Arguments t : clear implicits.

End Model.

(** ** Sequences of calls on a value reader *)

Record Call := {
  callWidth : Width;
  callSigned : bool;
  callBuf : Uint8Array;
  callEndian : Endian
}.

Definition call {S : Type} {VR : ValueReader S} (s : S) (c : Call) : S * result value :=
  readValue (callWidth c) (callSigned c) s (callBuf c) (callEndian c).

(** The object as a list of earlier calls leaves it. *)
Fixpoint replay {S : Type} {VR : ValueReader S} (s : S) (calls : list Call) : S :=
  match calls with
  | [] => s
  | c :: calls' => replay (fst (call s c)) calls'
  end.

(** ** Reference notions used in the statements *)

(** The integer whose base-256 digits are the bytes of [buf]: first byte
    most significant for [Big], least significant for [Little]. *)
Definition base256 (endian : Endian) (buf : Uint8Array) : Z :=
  match endian with
  | Big => fold_left (fun acc b => acc * 256 + byte_val b) buf 0
  | Little => fold_right (fun b acc => byte_val b + 256 * acc) 0 buf
  end.

(** Two's complement reading of an unsigned [bits]-wide number. *)
Definition twosComplement (bits : Z) (u : Z) : Z :=
  if u <? 2 ^ (bits - 1) then u else u - 2 ^ bits.

(** The integer a buffer denotes at a width and signedness. *)
Definition denoted (w : Width) (signed : bool) (endian : Endian) (buf : Uint8Array) : Z :=
  let u := base256 endian buf in
  if signed then twosComplement (widthBits w) u else u.

(** The scratch array of a [DataViewValueReader] once [buf] has been copied
    to its front. *)
Definition loaded (this : DataViewValueReader.t) (buf : Uint8Array) : DataViewValueReader.t :=
  {| DataViewValueReader.scratchBuf :=
       buf ++ skipn (length buf) (DataViewValueReader.scratchBuf this) |}.

(** * Properties *)

(** ** Bytes *)

Lemma byte_val_range (b : byte) : 0 <= byte_val b < 256.
Proof.
  unfold byte_val. pose proof (Byte.to_N_bounded b). lia.
Qed.

Lemma byte_val_ToUint8 (x : Z) : byte_val (ToUint8 x) = x mod 256.
Proof.
  unfold ToUint8, byte_val.
  assert (Hr : 0 <= x mod 256 < 256) by (apply Z.mod_pos_bound; lia).
  destruct (Byte.of_N (Z.to_N (x mod 256))) as [b|] eqn:E.
  - apply Byte.to_of_N in E. rewrite E. lia.
  - apply Byte.of_N_None_iff in E. lia.
Qed.

Lemma ToUint8_byte_val (b : byte) : ToUint8 (byte_val b) = b.
Proof.
  unfold ToUint8. pose proof (byte_val_range b) as Hr.
  rewrite Z.mod_small by exact Hr.
  unfold byte_val. rewrite N2Z.id, Byte.of_to_N. reflexivity.
Qed.

Lemma byte_val_inj (a b : byte) : byte_val a = byte_val b -> a = b.
Proof.
  intros H. rewrite <- (ToUint8_byte_val a), <- (ToUint8_byte_val b), H. reflexivity.
Qed.

(** ** Lists *)

Lemma len_app {A} (l1 l2 : list A) : len (l1 ++ l2) = len l1 + len l2.
Proof. unfold len. rewrite length_app. lia. Qed.

Lemma len_nonneg {A} (l : list A) : 0 <= len l.
Proof. unfold len. lia. Qed.

Lemma len_cons {A} (a : A) (l : list A) : len (a :: l) = 1 + len l.
Proof. unfold len. simpl length. lia. Qed.

Lemma len_rev {A} (l : list A) : len (rev l) = len l.
Proof. unfold len. rewrite length_rev. reflexivity. Qed.

Lemma slice_in_range {A} (l : list A) (i j : Z) :
  0 <= i -> i <= j ->
  slice l i j = firstn (Z.to_nat (j - i)) (skipn (Z.to_nat i) l).
Proof.
  intros Hi Hj. unfold slice, clampIndex.
  assert ((i <? 0) = false) as -> by lia.
  assert ((j <? 0) = false) as -> by lia.
  pose proof (len_nonneg l) as Hl. unfold len in *.
  destruct (Z_le_gt_dec i (Z.of_nat (length l))) as [Hle|Hgt].
  - rewrite (Z.min_l i) by lia.
    destruct (Z_le_gt_dec j (Z.of_nat (length l))) as [Hle'|Hgt'].
    + rewrite Z.min_l by lia. reflexivity.
    + rewrite Z.min_r by lia.
      rewrite !firstn_all2; try reflexivity; rewrite length_skipn; lia.
  - rewrite !Z.min_r by lia. rewrite Z.sub_diag. simpl.
    rewrite skipn_all2 by lia. rewrite firstn_nil. reflexivity.
Qed.

Lemma sliceFrom_in_range {A} (l : list A) (i : Z) :
  0 <= i <= len l -> sliceFrom l i = skipn (Z.to_nat i) l.
Proof.
  intros Hi. unfold sliceFrom. rewrite slice_in_range by lia.
  apply firstn_all2. rewrite length_skipn. unfold len in *. lia.
Qed.

(** ** The 32-bit operators *)

Module JSFacts.

Import JS.

Lemma pow32 : 2 ^ 32 = 4294967296.
Proof. reflexivity. Qed.

Lemma pow31 : 2 ^ 31 = 2147483648.
Proof. reflexivity. Qed.

Lemma ToUint32_range x : 0 <= ToUint32 x < 2 ^ 32.
Proof. unfold ToUint32. apply Z.mod_pos_bound. lia. Qed.

Lemma ToUint32_small x : 0 <= x < 2 ^ 32 -> ToUint32 x = x.
Proof. intros. unfold ToUint32. apply Z.mod_small. assumption. Qed.

Lemma ToInt32_small x : - 2 ^ 31 <= x < 2 ^ 31 -> ToInt32 x = x.
Proof.
  intros H. unfold ToInt32. rewrite pow32, pow31 in *.
  destruct (Z.leb_spec 2147483648 (x mod 4294967296));
    Z.div_mod_to_equations; lia.
Qed.

Lemma ToUint32_ToInt32 x : ToUint32 (ToInt32 x) = ToUint32 x.
Proof.
  unfold ToUint32, ToInt32. rewrite pow32, pow31.
  destruct (Z.leb_spec 2147483648 (x mod 4294967296));
    Z.div_mod_to_equations; lia.
Qed.

Lemma ToUint32_idem x : ToUint32 (ToUint32 x) = ToUint32 x.
Proof. unfold ToUint32. apply Z.mod_mod. lia. Qed.

Lemma ToUint32_land x : ToUint32 x = Z.land x (Z.ones 32).
Proof. unfold ToUint32. rewrite Z.land_ones by lia. reflexivity. Qed.

Lemma ToUint32_lor x y : ToUint32 (Z.lor x y) = Z.lor (ToUint32 x) (ToUint32 y).
Proof. rewrite !ToUint32_land. apply Z.land_lor_distr_l. Qed.

Lemma ToUint32_bor x y : ToUint32 (bor x y) = Z.lor (ToUint32 x) (ToUint32 y).
Proof. unfold bor. rewrite ToUint32_lor, !ToUint32_ToInt32. reflexivity. Qed.

Lemma shiftCount_small k : 0 <= k < 32 -> shiftCount k = k.
Proof.
  intros H. unfold shiftCount. rewrite ToUint32_small by (rewrite pow32; lia).
  apply Z.mod_small. lia.
Qed.

Lemma ToUint32_shl x k :
  0 <= k < 32 -> ToUint32 (shl x k) = ToUint32 (ToUint32 x * 2 ^ k).
Proof.
  intros H. unfold shl. rewrite shiftCount_small by assumption.
  rewrite ToUint32_ToInt32, Z.shiftl_mul_pow2 by lia.
  unfold ToUint32. rewrite (Z.mul_mod_idemp_l x) by lia.
  rewrite <- (Z.mul_mod_idemp_l (ToInt32 x)) by lia.
  fold (ToUint32 (ToInt32 x)). rewrite ToUint32_ToInt32. unfold ToUint32.
  rewrite Z.mul_mod_idemp_l by lia. reflexivity.
Qed.

Lemma shr_0 x : shr x 0 = ToUint32 x.
Proof. unfold shr. rewrite shiftCount_small by lia. apply Z.shiftr_0_r. Qed.

Lemma bor_0_r x : bor x 0 = ToInt32 x.
Proof. unfold bor. rewrite (ToInt32_small 0) by (rewrite pow31; lia). apply Z.lor_0_r. Qed.

(** Bits that do not overlap add up. *)
Lemma lor_disjoint_add a b k :
  0 <= k -> 0 <= b < 2 ^ k -> Z.lor (a * 2 ^ k) b = a * 2 ^ k + b.
Proof.
  intros Hk Hb.
  assert (Hland : Z.land (a * 2 ^ k) b = 0).
  { apply Z.bits_inj'. intros n Hn. rewrite Z.land_spec, Z.bits_0.
    destruct (Z_lt_ge_dec n k) as [Hlt|Hge].
    - rewrite Z.mul_pow2_bits_low by lia. reflexivity.
    - rewrite <- (Z.mod_small b (2 ^ k)) by lia.
      rewrite Z.mod_pow2_bits_high by lia. apply andb_false_r. }
  rewrite <- Z.lxor_lor by exact Hland.
  symmetry. apply Z.add_nocarry_lxor. exact Hland.
Qed.

End JSFacts.

(** ** Base-256 digits *)

Module DigitFacts.

Import Platform.

Lemma leValue_range (bs : Uint8Array) : 0 <= leValue bs < 256 ^ len bs.
Proof.
  induction bs as [|b bs IH].
  - simpl. unfold len. simpl. lia.
  - rewrite len_cons. pose proof (len_nonneg bs).
    rewrite Z.pow_add_r, Z.pow_1_r by lia. cbn [leValue].
    pose proof (byte_val_range b). lia.
Qed.

Lemma leValue_app (l1 l2 : Uint8Array) :
  leValue (l1 ++ l2) = leValue l1 + 256 ^ len l1 * leValue l2.
Proof.
  induction l1 as [|b l1 IH].
  - cbn [app leValue]. change (len (@nil byte)) with 0. rewrite Z.pow_0_r. lia.
  - cbn [app leValue]. rewrite IH, len_cons.
    pose proof (len_nonneg l1). rewrite Z.pow_add_r, Z.pow_1_r by lia. lia.
Qed.

Lemma length_leBytes n x : length (leBytes n x) = n.
Proof.
  revert x. induction n as [|n IH]; intros x; simpl.
  - reflexivity.
  - rewrite IH. reflexivity.
Qed.

(** Decoding the [n] digits of [x] gives [x] modulo [256^n]. *)
Lemma leValue_leBytes n x : leValue (leBytes n x) = x mod 256 ^ Z.of_nat n.
Proof.
  revert x. induction n as [|n IH]; intros x.
  - simpl. rewrite Z.mod_1_r. reflexivity.
  - cbn [leBytes leValue]. rewrite byte_val_ToUint8, IH.
    rewrite Nat2Z.inj_succ, Z.pow_succ_r by lia.
    rewrite Z.rem_mul_r by lia. reflexivity.
Qed.

(** Encoding the value of [bs] gives [bs] back. *)
Lemma leBytes_leValue (bs : Uint8Array) : leBytes (length bs) (leValue bs) = bs.
Proof.
  induction bs as [|b bs IH].
  - reflexivity.
  - cbn [length leBytes leValue]. pose proof (byte_val_range b) as Hb.
    f_equal.
    + apply byte_val_inj. rewrite byte_val_ToUint8.
      rewrite (Z.mul_comm 256), Z.mod_add by lia.
      apply Z.mod_small. exact Hb.
    + rewrite (Z.mul_comm 256), Z.div_add by lia.
      rewrite Z.div_small by exact Hb. rewrite Z.add_0_l. exact IH.
Qed.

End DigitFacts.

(** ** BitOpsValueReader: what the loops compute *)

Module BitOpsFacts.

Import JS JSFacts Platform DigitFacts BitOpsValueReader.

Lemma pow256_lt_pow32 (k : Z) : 0 <= k <= 4 -> 256 ^ k <= 2 ^ 32.
Proof.
  intros H. change 256 with (2 ^ 8). rewrite <- Z.pow_mul_r by lia.
  apply Z.pow_le_mono_r; lia.
Qed.

(** While at most four bytes have gone in, the big-endian loop holds the
    digits read so far, seen as an unsigned 32-bit number. *)
Lemma bigLoop_uint (rest : Uint8Array) : forall (r k : Z),
  0 <= k -> k + len rest <= 4 -> ToUint32 r < 256 ^ k ->
  ToUint32 (bigLoop rest r) = ToUint32 r * 256 ^ len rest + leValue (rev rest).
Proof.
  induction rest as [|b rest IH]; intros r k Hk Hlen Hr.
  - simpl. unfold len. simpl. lia.
  - rewrite len_cons in *. pose proof (len_nonneg rest) as Hn.
    pose proof (ToUint32_range r) as Hu. pose proof (byte_val_range b) as Hb.
    assert (Hk3 : 256 ^ k <= 256 ^ 3) by (apply Z.pow_le_mono_r; lia).
    change (256 ^ 3) with 16777216 in Hk3.
    assert (Hstep : ToUint32 (bor (shl r 8) (byte_val b))
                    = ToUint32 r * 256 + byte_val b).
    { rewrite ToUint32_bor, ToUint32_shl by lia.
      change (2 ^ 8) with 256.
      rewrite (ToUint32_small (ToUint32 r * 256)) by (rewrite pow32; lia).
      rewrite (ToUint32_small (byte_val b)) by (rewrite pow32; lia).
      change 256 with (2 ^ 8) at 1. apply lor_disjoint_add; [lia|].
      change (2 ^ 8) with 256. exact Hb. }
    cbn [bigLoop]. rewrite (IH _ (k + 1)); try lia.
    + rewrite Hstep. cbn [rev]. rewrite leValue_app.
      rewrite len_rev.
      cbn [leValue]. rewrite Z.pow_add_r by lia. lia.
    + rewrite Hstep. rewrite Z.pow_add_r by lia. lia.
Qed.

Lemma littleLoop_uint (rest : Uint8Array) : forall (r k : Z),
  0 <= k -> k + len rest <= 4 -> ToUint32 r < 256 ^ k ->
  ToUint32 (littleLoop rest k r) = ToUint32 r + 256 ^ k * leValue rest.
Proof.
  induction rest as [|b rest IH]; intros r k Hk Hlen Hr.
  - simpl. lia.
  - rewrite len_cons in *. pose proof (len_nonneg rest) as Hn.
    pose proof (ToUint32_range r) as Hu. pose proof (byte_val_range b) as Hb.
    assert (Hk3 : 256 ^ k <= 256 ^ 3) by (apply Z.pow_le_mono_r; lia).
    change (256 ^ 3) with 16777216 in Hk3.
    assert (Hpos : 0 < 256 ^ k) by (apply Z.pow_pos_nonneg; lia).
    assert (Hpow : 2 ^ (k * 8) = 256 ^ k).
    { change 256 with (2 ^ 8). rewrite <- Z.pow_mul_r by lia. f_equal. lia. }
    assert (Hstep : ToUint32 (bor r (shl (byte_val b) (k * 8)))
                    = ToUint32 r + 256 ^ k * byte_val b).
    { rewrite ToUint32_bor, ToUint32_shl by lia.
      rewrite (ToUint32_small (byte_val b)) by (rewrite pow32; lia).
      rewrite Hpow.
      rewrite (ToUint32_small (byte_val b * 256 ^ k)) by (rewrite pow32; nia).
      rewrite Z.lor_comm. rewrite <- Hpow.
      rewrite lor_disjoint_add; [lia | lia | rewrite Hpow; lia]. }
    cbn [littleLoop]. rewrite (IH _ (k + 1)); try lia.
    + rewrite Hstep. cbn [leValue]. rewrite Z.pow_add_r by lia. lia.
    + rewrite Hstep. rewrite Z.pow_add_r by lia. nia.
Qed.

(** On a buffer of at most four bytes the bit-shift fold is the exact
    base-256 value in the given order. *)
Lemma bufferToUnsignedNumber_exact (buffer : Uint8Array) (endian : Endian) :
  len buffer <= 4 ->
  bufferToUnsignedNumber buffer endian
  = leValue (if isLittle endian then buffer else rev buffer).
Proof.
  intros Hlen. unfold bufferToUnsignedNumber. rewrite shr_0.
  destruct endian; cbn [isLittle].
  - rewrite (littleLoop_uint buffer 0 0); try lia.
    + rewrite (ToUint32_small 0) by (rewrite pow32; lia). lia.
    + rewrite (ToUint32_small 0) by (rewrite pow32; lia). lia.
  - rewrite (bigLoop_uint buffer 0 0); try lia.
    + rewrite (ToUint32_small 0) by (rewrite pow32; lia). lia.
    + rewrite (ToUint32_small 0) by (rewrite pow32; lia). lia.
Qed.

End BitOpsFacts.

(** ** BitOpsValueReader: sign conversion *)

Module SignFacts.

Import JS JSFacts Platform DigitFacts BitOpsValueReader.

Lemma ToInt32_unsigned (y : Z) :
  0 <= y < 2 ^ 32 -> ToInt32 y = if 2 ^ 31 <=? y then y - 2 ^ 32 else y.
Proof.
  intros H. unfold ToInt32. rewrite Z.mod_small by exact H. reflexivity.
Qed.

Lemma ToInt32_idem (x : Z) : ToInt32 (ToInt32 x) = ToInt32 x.
Proof.
  apply ToInt32_small. unfold ToInt32. rewrite pow32, pow31.
  destruct (Z.leb_spec 2147483648 (x mod 4294967296));
    Z.div_mod_to_equations; lia.
Qed.

Lemma land_low (u k : Z) : 0 <= k -> 0 <= u < 2 ^ k -> Z.land u (2 ^ k - 1) = u.
Proof.
  intros Hk Hu. replace (2 ^ k - 1) with (Z.ones k).
  - rewrite Z.land_ones by exact Hk. apply Z.mod_small. exact Hu.
  - rewrite Z.ones_equiv. lia.
Qed.

(** Shifting a [bits]-wide number to the top of a 32-bit word and back
    with the sign reads it as two's complement. *)
Lemma sar_shl_signed (u bits : Z) :
  0 < bits < 32 -> 0 <= u < 2 ^ bits ->
  sar (shl u (32 - bits)) (32 - bits)
  = if 2 ^ (bits - 1) <=? u then u - 2 ^ bits else u.
Proof.
  intros Hb Hu. unfold sar, shl.
  rewrite shiftCount_small by lia.
  assert (Hbits : 2 ^ bits <= 2 ^ 31) by (apply Z.pow_le_mono_r; lia).
  rewrite (ToInt32_small u) by (rewrite pow31 in *; lia).
  rewrite ToInt32_idem, Z.shiftl_mul_pow2, Z.shiftr_div_pow2 by lia.
  assert (Hsplit : 2 ^ 32 = 2 ^ bits * 2 ^ (32 - bits)).
  { rewrite <- Z.pow_add_r by lia. f_equal. lia. }
  assert (Hhalf : 2 ^ bits = 2 * 2 ^ (bits - 1)).
  { rewrite <- Z.pow_succ_r by lia. f_equal. lia. }
  assert (Hsplit31 : 2 ^ 31 = 2 ^ (bits - 1) * 2 ^ (32 - bits)).
  { rewrite <- Z.pow_add_r by lia. f_equal. lia. }
  assert (Hp : 0 < 2 ^ (32 - bits)) by (apply Z.pow_pos_nonneg; lia).
  assert (Hq : 0 < 2 ^ (bits - 1)) by (apply Z.pow_pos_nonneg; lia).
  rewrite ToInt32_unsigned by (rewrite Hsplit; nia).
  destruct (Z.leb_spec (2 ^ (bits - 1)) u) as [Hge|Hlt].
  - assert ((2 ^ 31 <=? u * 2 ^ (32 - bits)) = true) as ->
      by (apply Z.leb_le; rewrite Hsplit31; nia).
    rewrite Hsplit.
    replace (u * 2 ^ (32 - bits) - 2 ^ bits * 2 ^ (32 - bits))
      with ((u - 2 ^ bits) * 2 ^ (32 - bits)) by ring.
    apply Z.div_mul. lia.
  - assert ((2 ^ 31 <=? u * 2 ^ (32 - bits)) = false) as ->
      by (apply Z.leb_gt; rewrite Hsplit31; nia).
    apply Z.div_mul. lia.
Qed.

Lemma toSignedNumber_8 (u : Z) :
  0 <= u < 256 -> toSignedNumber u 8 = Ok (asSigned 1 u).
Proof.
  intros Hu. unfold toSignedNumber.
  assert ((u <? 0) = false) as -> by lia.
  change (shl 1 8 - 1) with (2 ^ 8 - 1). unfold band.
  rewrite (ToInt32_small u) by (rewrite pow31; lia).
  rewrite (ToInt32_small (2 ^ 8 - 1)) by (rewrite pow31; simpl; lia).
  rewrite land_low by (simpl; lia).
  rewrite sar_shl_signed by (simpl; lia).
  reflexivity.
Qed.

Lemma toSignedNumber_16 (u : Z) :
  0 <= u < 65536 -> toSignedNumber u 16 = Ok (asSigned 2 u).
Proof.
  intros Hu. unfold toSignedNumber.
  assert ((u <? 0) = false) as -> by lia.
  change (shl 1 16 - 1) with (2 ^ 16 - 1). unfold band.
  rewrite (ToInt32_small u) by (rewrite pow31; lia).
  rewrite (ToInt32_small (2 ^ 16 - 1)) by (rewrite pow31; simpl; lia).
  rewrite land_low by (simpl; lia).
  rewrite sar_shl_signed by (simpl; lia).
  reflexivity.
Qed.

Lemma bor_0_signed (u : Z) : 0 <= u < 2 ^ 32 -> bor u 0 = asSigned 4 u.
Proof.
  intros Hu. rewrite bor_0_r, ToInt32_unsigned by exact Hu. reflexivity.
Qed.

End SignFacts.

(** ** BitOpsValueReader: the 64-bit decode *)

Module BigIntFacts.

Import JS JSFacts Platform DigitFacts BitOpsValueReader BitOpsFacts.

(** The turn counter of the chunk loops is never the reason they stop:
    any two counters of at least the number of bytes left agree. *)
Lemma bigIntLoopBig_fuel (buffer : Uint8Array) : forall (f1 f2 : nat) (i r : Z),
  len buffer - i <= Z.of_nat f1 -> len buffer - i <= Z.of_nat f2 ->
  bigIntLoopBig f1 buffer i r = bigIntLoopBig f2 buffer i r.
Proof.
  induction f1 as [|f1 IH]; intros f2 i r H1 H2.
  - destruct f2 as [|f2]; [reflexivity|]. cbn [bigIntLoopBig].
    assert ((i <? len buffer) = false) as -> by lia. reflexivity.
  - destruct f2 as [|f2]; cbn [bigIntLoopBig].
    + assert ((i <? len buffer) = false) as -> by lia. reflexivity.
    + destruct (i <? len buffer); [|reflexivity].
      apply IH; unfold CHUNK_SIZE; lia.
Qed.

Lemma bigIntLoopLittle_fuel (buffer : Uint8Array) : forall (f1 f2 : nat) (i sh r : Z),
  len buffer - i <= Z.of_nat f1 -> len buffer - i <= Z.of_nat f2 ->
  bigIntLoopLittle f1 buffer i sh r = bigIntLoopLittle f2 buffer i sh r.
Proof.
  induction f1 as [|f1 IH]; intros f2 i sh r H1 H2.
  - destruct f2 as [|f2]; [reflexivity|]. cbn [bigIntLoopLittle].
    assert ((i <? len buffer) = false) as -> by lia. reflexivity.
  - destruct f2 as [|f2]; cbn [bigIntLoopLittle].
    + assert ((i <? len buffer) = false) as -> by lia. reflexivity.
    + destruct (i <? len buffer); [|reflexivity].
      apply IH; unfold CHUNK_SIZE; lia.
Qed.

Lemma bufferToUnsignedNumber_range4 (b0 b1 b2 b3 : byte) (endian : Endian) :
  0 <= bufferToUnsignedNumber [b0; b1; b2; b3] endian < 2 ^ 32.
Proof.
  rewrite bufferToUnsignedNumber_exact by (unfold len; simpl; lia).
  change (2 ^ 32) with (256 ^ 4).
  destruct endian; cbn [isLittle].
  - apply (leValue_range [b0; b1; b2; b3]).
  - apply (leValue_range (rev [b0; b1; b2; b3])).
Qed.

(** The two halves of an 8-byte buffer, each decoded with 32-bit
    arithmetic, recombine to the exact 64-bit value. *)
Lemma bufferToUnsignedBigInt_exact8 (b0 b1 b2 b3 b4 b5 b6 b7 : byte) (endian : Endian) :
  bufferToUnsignedBigInt [b0; b1; b2; b3; b4; b5; b6; b7] endian
  = leValue (if isLittle endian
             then [b0; b1; b2; b3; b4; b5; b6; b7]
             else rev [b0; b1; b2; b3; b4; b5; b6; b7]).
Proof.
  pose proof (bufferToUnsignedNumber_range4 b0 b1 b2 b3 endian) as Hhi.
  pose proof (bufferToUnsignedNumber_range4 b4 b5 b6 b7 endian) as Hlo.
  destruct endian; cbn [isLittle].
  - assert (Hshape :
      bufferToUnsignedBigInt [b0; b1; b2; b3; b4; b5; b6; b7] Little
      = Z.lor (Z.lor 0 (Z.shiftl (bufferToUnsignedNumber [b0; b1; b2; b3] Little) 0))
              (Z.shiftl (bufferToUnsignedNumber [b4; b5; b6; b7] Little) 32))
      by reflexivity.
    rewrite Hshape. rewrite Z.lor_0_l, Z.shiftl_0_r, Z.lor_comm.
    rewrite Z.shiftl_mul_pow2 by lia.
    rewrite lor_disjoint_add by lia.
    rewrite !bufferToUnsignedNumber_exact by (unfold len; simpl; lia).
    cbn [isLittle leValue]. lia.
  - assert (Hshape :
      bufferToUnsignedBigInt [b0; b1; b2; b3; b4; b5; b6; b7] Big
      = Z.lor (Z.shiftl
                 (Z.lor (Z.shiftl 0 32) (bufferToUnsignedNumber [b0; b1; b2; b3] Big)) 32)
              (bufferToUnsignedNumber [b4; b5; b6; b7] Big))
      by reflexivity.
    rewrite Hshape. rewrite Z.shiftl_0_l, Z.lor_0_l.
    rewrite Z.shiftl_mul_pow2 by lia.
    rewrite lor_disjoint_add by lia.
    rewrite !bufferToUnsignedNumber_exact by (unfold len; simpl; lia).
    cbn [isLittle leValue rev app]. lia.
Qed.

Lemma land_sign_bit (u : Z) :
  0 <= u < 2 ^ 64 -> (Z.land u (Z.shiftl 1 63) =? 0) = (u <? 2 ^ 63).
Proof.
  intros Hu.
  assert (Hbit : Z.land u (Z.shiftl 1 63) = if Z.testbit u 63 then 2 ^ 63 else 0).
  { apply Z.bits_inj'. intros n Hn. rewrite Z.land_spec.
    rewrite Z.shiftl_1_l, Z.pow2_bits_eqb by lia.
    destruct (Z.eqb_spec 63 n) as [<-|Hne].
    - destruct (Z.testbit u 63); cbn [andb].
      + rewrite Z.pow2_bits_true by lia. reflexivity.
      + rewrite Z.bits_0. reflexivity.
    - rewrite andb_false_r. destruct (Z.testbit u 63).
      + rewrite Z.pow2_bits_false by lia. reflexivity.
      + rewrite Z.bits_0. reflexivity. }
  rewrite Hbit.
  destruct (Z.testbit u 63) eqn:E.
  - apply Z.testbit_true in E; [|lia].
    assert (2 ^ 63 <= u).
    { change (2 ^ 64) with (2 * 2 ^ 63) in Hu. Z.div_mod_to_equations. lia. }
    transitivity false; [reflexivity | symmetry; apply Z.ltb_ge; assumption].
  - assert (Hlt : u < 2 ^ 63).
    { destruct (Z_lt_ge_dec u (2 ^ 63)) as [Hl|Hg]; [exact Hl|].
      assert (Z.testbit u 63 = true); [|congruence].
      apply Z.testbit_true; [lia|].
      change (2 ^ 64) with (2 * 2 ^ 63) in Hu. Z.div_mod_to_equations. lia. }
    transitivity true; [reflexivity | symmetry; apply Z.ltb_lt; assumption].
Qed.

Lemma readInt64_signed (buf : Uint8Array) (endian : Endian) :
  0 <= bufferToUnsignedBigInt buf endian < 2 ^ 64 ->
  BitOpsValueReader.readInt64 buf endian
  = Ok (Num (asSigned 8 (bufferToUnsignedBigInt buf endian))).
Proof.
  intros Hu. unfold BitOpsValueReader.readInt64.
  set (u := bufferToUnsignedBigInt buf endian) in *.
  cbv zeta.
  assert (Hmask : Z.land u (Z.shiftl 1 64 - 1) = u).
  { rewrite Z.shiftl_1_l. apply SignFacts.land_low; lia. }
  rewrite Hmask, land_sign_bit by exact Hu.
  unfold asSigned. change (8 * Z.of_nat 8 - 1) with 63.
  change (8 * Z.of_nat 8) with 64. rewrite Z.shiftl_1_l.
  destruct (Z.ltb_spec u (2 ^ 63)); destruct (Z.leb_spec (2 ^ 63) u);
    cbn [negb]; try reflexivity; lia.
Qed.

End BigIntFacts.

(** ** The three value readers on a buffer of exactly the operation's width *)

Module ReaderFacts.

Import JS JSFacts Platform DigitFacts BitOpsFacts SignFacts BigIntFacts.

Lemma fold_left_base256 (buf : Uint8Array) : forall acc,
  fold_left (fun a b => a * 256 + byte_val b) buf acc
  = acc * 256 ^ len buf + leValue (rev buf).
Proof.
  induction buf as [|b buf IH]; intros acc.
  - cbn. change (len (@nil byte)) with 0. lia.
  - cbn [fold_left rev]. rewrite IH, leValue_app, len_rev, len_cons.
    pose proof (len_nonneg buf). rewrite Z.pow_add_r, Z.pow_1_r by lia.
    cbn [leValue]. lia.
Qed.

Lemma base256_leValue (endian : Endian) (buf : Uint8Array) :
  base256 endian buf = leValue (if isLittle endian then buf else rev buf).
Proof.
  destruct endian; cbn [base256 isLittle].
  - induction buf as [|b buf IH]; [reflexivity|].
    cbn [fold_right leValue]. rewrite IH. reflexivity.
  - rewrite fold_left_base256. lia.
Qed.

Lemma base256_range (endian : Endian) (buf : Uint8Array) :
  0 <= base256 endian buf < 256 ^ len buf.
Proof.
  rewrite base256_leValue. destruct endian; cbn [isLittle].
  - apply leValue_range.
  - rewrite <- len_rev. apply leValue_range.
Qed.

Lemma asSigned_twosComplement (n : nat) (u : Z) :
  asSigned n u = twosComplement (8 * Z.of_nat n) u.
Proof.
  unfold asSigned, twosComplement.
  destruct (Z.leb_spec (2 ^ (8 * Z.of_nat n - 1)) u);
    destruct (Z.ltb_spec u (2 ^ (8 * Z.of_nat n - 1))); try reflexivity; lia.
Qed.

Ltac exact_width buf Hlen :=
  repeat (destruct buf as [|? buf]; try discriminate Hlen); clear Hlen.

(** [BitOpsValueReader] returns the denoted integer. *)
Lemma BitOps_exact (w : Width) (signed : bool) (endian : Endian) (buf : Uint8Array) (s : unit) :
  length buf = widthBytes w ->
  readValue (VR := BitOps) w signed s buf endian = (s, Ok (Num (denoted w signed endian buf))).
Proof.
  intros Hlen. unfold denoted, widthBits.
  rewrite <- asSigned_twosComplement.
  pose proof (base256_range endian buf) as Hr. unfold len in Hr. rewrite Hlen in Hr.
  rewrite base256_leValue in *.
  destruct w, signed; cbn [readValue widthBytes] in *; cbn [readInt8 readInt16 readInt32
    readInt64 readUint8 readUint16 readUint32 readUint64 BitOps]; f_equal.
  - (* Int8 *)
    exact_width buf Hlen. unfold BitOpsValueReader.readInt8. cbn [nth_error].
    rewrite toSignedNumber_8 by apply byte_val_range.
    destruct endian; cbn [isLittle rev app leValue BitOpsValueReader.liftNum];
      rewrite Z.mul_0_r, Z.add_0_r; reflexivity.
  - (* Uint8 *)
    exact_width buf Hlen. unfold BitOpsValueReader.readUint8. cbn [nth_error].
    destruct endian; cbn [isLittle rev app leValue];
      rewrite Z.mul_0_r, Z.add_0_r; reflexivity.
  - (* Int16 *)
    unfold BitOpsValueReader.readInt16.
    rewrite bufferToUnsignedNumber_exact by (unfold len; rewrite Hlen; simpl; lia).
    rewrite toSignedNumber_16 by exact Hr. reflexivity.
  - (* Uint16 *)
    unfold BitOpsValueReader.readUint16.
    rewrite bufferToUnsignedNumber_exact by (unfold len; rewrite Hlen; simpl; lia).
    reflexivity.
  - (* Int32 *)
    unfold BitOpsValueReader.readInt32.
    rewrite bufferToUnsignedNumber_exact by (unfold len; rewrite Hlen; simpl; lia).
    rewrite bor_0_signed by exact Hr. reflexivity.
  - (* Uint32 *)
    unfold BitOpsValueReader.readUint32.
    rewrite bufferToUnsignedNumber_exact by (unfold len; rewrite Hlen; simpl; lia).
    reflexivity.
  - (* Int64 *)
    exact_width buf Hlen.
    rewrite readInt64_signed; rewrite bufferToUnsignedBigInt_exact8;
      [reflexivity | exact Hr].
  - (* Uint64 *)
    exact_width buf Hlen. unfold BitOpsValueReader.readUint64.
    rewrite bufferToUnsignedBigInt_exact8. reflexivity.
Qed.

(** *** DataViewValueReader *)

Lemma loadBuffer_fits (this : DataViewValueReader.t) (buf : Uint8Array) :
  (length buf <= length (DataViewValueReader.scratchBuf this))%nat ->
  DataViewValueReader.loadBuffer this buf = (loaded this buf, Ok tt).
Proof.
  intros Hfit. unfold DataViewValueReader.loadBuffer, typedArraySet.
  assert (((0 <? 0) || (len (DataViewValueReader.scratchBuf this) <? len buf + 0)) = false)
    as -> by (unfold len; apply orb_false_iff; split; lia).
  reflexivity.
Qed.

Lemma length_loaded (this : DataViewValueReader.t) (buf : Uint8Array) :
  (length buf <= length (DataViewValueReader.scratchBuf this))%nat ->
  length (DataViewValueReader.scratchBuf (loaded this buf))
  = length (DataViewValueReader.scratchBuf this).
Proof.
  intros Hfit. cbn [loaded DataViewValueReader.scratchBuf].
  rewrite length_app, length_skipn. lia.
Qed.

Lemma rawBytes_loaded (this : DataViewValueReader.t) (buf : Uint8Array) (size : nat) :
  (size <= length buf <= length (DataViewValueReader.scratchBuf this))%nat ->
  rawBytes (DataViewValueReader.scratchBuf (loaded this buf)) 0 size
  = Ok (firstn size buf).
Proof.
  intros [Hsize Hfit]. unfold rawBytes.
  assert (Hlen := length_loaded this buf Hfit).
  assert (((0 <? 0)
           || (len (DataViewValueReader.scratchBuf (loaded this buf)) <? 0 + Z.of_nat size))
          = false) as ->
    by (unfold len; rewrite Hlen; apply orb_false_iff; split; lia).
  cbn [loaded DataViewValueReader.scratchBuf Z.to_nat skipn].
  rewrite firstn_app.
  replace (size - length buf)%nat with 0%nat by lia.
  rewrite firstn_O, app_nil_r. reflexivity.
Qed.

Lemma loadThen_getUint this buf size le :
  (size <= length buf <= length (DataViewValueReader.scratchBuf this))%nat ->
  DataViewValueReader.loadThen this buf (fun d => getUint size d 0 le)
  = (loaded this buf,
     Ok (Num (leValue (if le then firstn size buf else rev (firstn size buf))))).
Proof.
  intros H. unfold DataViewValueReader.loadThen.
  rewrite loadBuffer_fits by lia. unfold getUint.
  rewrite rawBytes_loaded by exact H. reflexivity.
Qed.

Lemma loadThen_getInt this buf size le :
  (size <= length buf <= length (DataViewValueReader.scratchBuf this))%nat ->
  DataViewValueReader.loadThen this buf (fun d => getInt size d 0 le)
  = (loaded this buf,
     Ok (Num (asSigned size
                (leValue (if le then firstn size buf else rev (firstn size buf)))))).
Proof.
  intros H. unfold DataViewValueReader.loadThen.
  rewrite loadBuffer_fits by lia. unfold getInt, getUint.
  rewrite rawBytes_loaded by exact H. reflexivity.
Qed.

Lemma leValue_single_rev (l : Uint8Array) :
  length l = 1%nat -> leValue (rev l) = leValue l.
Proof.
  intros H. destruct l as [|b [|c l]]; try discriminate H. reflexivity.
Qed.

(** [DataViewValueReader] decodes the first [W/8] bytes of any buffer that
    fits its scratch array, whatever the scratch array held before. *)
Lemma DataView_prefix (w : Width) (signed : bool) (endian : Endian)
    (buf : Uint8Array) (this : DataViewValueReader.t) :
  length (DataViewValueReader.scratchBuf this) = 8%nat ->
  (widthBytes w <= length buf <= 8)%nat ->
  readValue (VR := DataViewVR) w signed this buf endian
  = (loaded this buf, Ok (Num (denoted w signed endian (firstn (widthBytes w) buf)))).
Proof.
  intros Hs Hlen. unfold denoted, widthBits.
  rewrite <- asSigned_twosComplement, base256_leValue.
  assert (H1 : length (firstn (widthBytes w) buf) = widthBytes w)
    by (rewrite length_firstn; lia).
  destruct w, signed; cbn [readValue widthBytes] in *;
    cbn [readInt8 readInt16 readInt32 readInt64
         readUint8 readUint16 readUint32 readUint64 DataViewVR];
    unfold DataViewValueReader.readInt8, DataViewValueReader.readUint8,
      DataViewValueReader.readInt16, DataViewValueReader.readUint16,
      DataViewValueReader.readInt32, DataViewValueReader.readUint32,
      DataViewValueReader.readInt64, DataViewValueReader.readUint64;
    first [rewrite loadThen_getInt by lia | rewrite loadThen_getUint by lia];
    try reflexivity;
    destruct endian; cbn [isLittle]; rewrite ?leValue_single_rev by exact H1;
    reflexivity.
Qed.

Lemma DataView_exact (w : Width) (signed : bool) (endian : Endian)
    (buf : Uint8Array) (this : DataViewValueReader.t) :
  length (DataViewValueReader.scratchBuf this) = 8%nat ->
  length buf = widthBytes w ->
  readValue (VR := DataViewVR) w signed this buf endian
  = (loaded this buf, Ok (Num (denoted w signed endian buf))).
Proof.
  intros Hs Hlen. rewrite DataView_prefix; [| exact Hs | destruct w; cbn in *; lia].
  rewrite <- Hlen, firstn_all. reflexivity.
Qed.

(** The scratch array keeps its eight bytes through every call. *)
Lemma DataView_scratch_length (w : Width) (signed : bool) (endian : Endian)
    (buf : Uint8Array) (this : DataViewValueReader.t) :
  length (DataViewValueReader.scratchBuf this) = 8%nat ->
  length (DataViewValueReader.scratchBuf
            (fst (readValue (VR := DataViewVR) w signed this buf endian))) = 8%nat.
Proof.
  intros Hs.
  assert (Hload : forall get,
    length (DataViewValueReader.scratchBuf
              (fst (DataViewValueReader.loadThen this buf get))) = 8%nat).
  { intros get. unfold DataViewValueReader.loadThen, DataViewValueReader.loadBuffer,
      typedArraySet.
    destruct ((0 <? 0) || (len (DataViewValueReader.scratchBuf this) <? len buf + 0)) eqn:E.
    - exact Hs.
    - apply orb_false_iff in E. destruct E as [_ E]. unfold len in E.
      cbn [fst DataViewValueReader.scratchBuf Z.to_nat firstn app Nat.add].
      rewrite length_app, length_skipn. lia. }
  destruct w, signed; apply Hload.
Qed.

(** *** PerformanceValueReader *)

Lemma Performance_exact (w : Width) (signed : bool) (endian : Endian)
    (buf : Uint8Array) (this : PerformanceValueReader.t) :
  length (DataViewValueReader.scratchBuf (PerformanceValueReader.dv this)) = 8%nat ->
  length buf = widthBytes w ->
  snd (readValue (VR := PerformanceVR) w signed this buf endian)
  = Ok (Num (denoted w signed endian buf)).
Proof.
  intros Hs Hlen.
  pose proof (BitOps_exact w signed endian buf (PerformanceValueReader.br this) Hlen) as Hb.
  pose proof (DataView_exact w signed endian buf (PerformanceValueReader.dv this) Hs Hlen)
    as Hd.
  destruct w, signed; cbn [readValue] in *;
    cbn [readInt8 readInt16 readInt32 readInt64
         readUint8 readUint16 readUint32 readUint64 PerformanceVR];
    unfold PerformanceValueReader.readInt8, PerformanceValueReader.readUint8,
      PerformanceValueReader.readInt16, PerformanceValueReader.readUint16,
      PerformanceValueReader.readInt32, PerformanceValueReader.readUint32,
      PerformanceValueReader.readInt64, PerformanceValueReader.readUint64,
      PerformanceValueReader.viaBr, PerformanceValueReader.viaDv;
    cbn [snd];
    first [ rewrite Hb; reflexivity
          | cbn [readInt32 readInt64 readUint32 readUint64 DataViewVR] in Hd;
            rewrite Hd; reflexivity ].
Qed.

(** The 8-bit reads of [BitOpsValueReader] look at [buf[0]] only. *)
Lemma BitOps_first_byte (signed : bool) (endian : Endian)
    (buf1 buf2 : Uint8Array) (s1 s2 : unit) :
  firstn 1 buf1 = firstn 1 buf2 ->
  snd (readValue (VR := BitOps) W8 signed s1 buf1 endian)
  = snd (readValue (VR := BitOps) W8 signed s2 buf2 endian).
Proof.
  intros Hsame.
  assert (Hhd : nth_error buf1 0 = nth_error buf2 0).
  { destruct buf1 as [|b1 r1], buf2 as [|b2 r2]; cbn [firstn] in Hsame;
      try discriminate; [reflexivity|]. injection Hsame as ->. reflexivity. }
  destruct signed; cbn [readValue readInt8 readUint8 BitOps snd];
    unfold BitOpsValueReader.readInt8, BitOpsValueReader.readUint8;
    rewrite Hhd; reflexivity.
Qed.

Lemma Performance_first_byte (signed : bool) (endian : Endian)
    (buf1 buf2 : Uint8Array) (this1 this2 : PerformanceValueReader.t) :
  firstn 1 buf1 = firstn 1 buf2 ->
  snd (readValue (VR := PerformanceVR) W8 signed this1 buf1 endian)
  = snd (readValue (VR := PerformanceVR) W8 signed this2 buf2 endian).
Proof.
  intros Hsame.
  pose proof (BitOps_first_byte signed endian buf1 buf2
                (PerformanceValueReader.br this1) (PerformanceValueReader.br this2) Hsame)
    as Hb.
  destruct signed; cbn [readValue] in *;
    cbn [readInt8 readUint8 PerformanceVR];
    unfold PerformanceValueReader.readInt8, PerformanceValueReader.readUint8,
      PerformanceValueReader.viaBr;
    cbn [snd]; exact Hb.
Qed.

(** The 32- and 64-bit reads of [PerformanceValueReader] are those of its
    [DataViewValueReader]: they decode the first [W/8] bytes of a buffer of
    up to 8 bytes. *)
Lemma Performance_prefix (w : Width) (signed : bool) (endian : Endian)
    (buf : Uint8Array) (this : PerformanceValueReader.t) :
  w = W32 \/ w = W64 ->
  length (DataViewValueReader.scratchBuf (PerformanceValueReader.dv this)) = 8%nat ->
  (widthBytes w <= length buf <= 8)%nat ->
  snd (readValue (VR := PerformanceVR) w signed this buf endian)
  = Ok (Num (denoted w signed endian (firstn (widthBytes w) buf))).
Proof.
  intros Hw Hs Hlen.
  pose proof (DataView_prefix w signed endian buf (PerformanceValueReader.dv this) Hs Hlen)
    as Hd.
  destruct Hw as [-> | ->]; destruct signed; cbn [readValue] in *;
    cbn [readInt32 readInt64 readUint32 readUint64 PerformanceVR];
    unfold PerformanceValueReader.readInt32, PerformanceValueReader.readUint32,
      PerformanceValueReader.readInt64, PerformanceValueReader.readUint64,
      PerformanceValueReader.viaDv;
    cbn [snd];
    cbn [readInt32 readInt64 readUint32 readUint64 DataViewVR] in Hd;
    rewrite Hd; reflexivity.
Qed.

End ReaderFacts.

(** ** StreamReader: the window and the cursor *)

Module WindowFacts.

Import StreamReader.

Lemma len_skipn {A} (l : list A) (k : Z) :
  0 <= k <= len l -> len (skipn (Z.to_nat k) l) = len l - k.
Proof. intros H. unfold len in *. rewrite length_skipn. lia. Qed.

Lemma skipn_app_within {A} (l1 l2 : list A) (k : Z) :
  0 <= k <= len l1 ->
  skipn (Z.to_nat k) (l1 ++ l2) = skipn (Z.to_nat k) l1 ++ l2.
Proof.
  intros H. rewrite skipn_app.
  replace (Z.to_nat k - length l1)%nat with 0%nat by (unfold len in H; lia).
  reflexivity.
Qed.

Lemma firstn_app_within {A} (l1 l2 : list A) (n : Z) :
  0 <= n <= len l1 ->
  firstn (Z.to_nat n) (l1 ++ l2) = firstn (Z.to_nat n) l1.
Proof.
  intros H. rewrite firstn_app.
  replace (Z.to_nat n - length l1)%nat with 0%nat by (unfold len in H; lia).
  rewrite firstn_O, app_nil_r. reflexivity.
Qed.

Lemma skipn_add {A} (l : list A) (a b : Z) :
  0 <= a -> 0 <= b ->
  skipn (Z.to_nat (a + b)) l = skipn (Z.to_nat b) (skipn (Z.to_nat a) l).
Proof.
  intros Ha Hb. rewrite skipn_skipn. f_equal. lia.
Qed.

(** What the fill loop does, told by the number of bytes it can reach. *)
Lemma ensureLoop_enough (src : list Uint8Array) : forall (buf : Uint8Array) (off n : Z),
  n <= len buf - off + len (concat src) ->
  exists src' pulled,
    ensureLoop src buf off n = (src', buf ++ pulled, Ok tt)
    /\ pulled ++ concat src' = concat src
    /\ n <= len (buf ++ pulled) - off
    /\ (n <= len buf - off -> src' = src /\ pulled = []).
Proof.
  induction src as [|value src IH]; intros buf off n Hn.
  - cbn [concat] in Hn. change (len (@nil byte)) with 0 in Hn.
    exists [], []. cbn [ensureLoop].
    assert ((len buf - off <? n) = false) as -> by lia.
    rewrite app_nil_r. repeat split; try reflexivity; lia.
  - cbn [ensureLoop]. destruct (Z.ltb_spec (len buf - off) n) as [Hlt|Hge].
    + cbn [concat] in Hn. rewrite len_app in Hn.
      destruct (IH (buf ++ value) off n) as (src' & pulled & Hrun & Hcat & Hfill & _).
      { rewrite len_app. lia. }
      exists src', (value ++ pulled). rewrite app_assoc. repeat split.
      * exact Hrun.
      * cbn [concat]. rewrite <- app_assoc, Hcat. reflexivity.
      * exact Hfill.
      * lia.
      * lia.
    + exists (value :: src), []. rewrite app_nil_r.
      repeat split; try reflexivity; lia.
Qed.

Lemma ensureLoop_short (src : list Uint8Array) : forall (buf : Uint8Array) (off n : Z),
  len buf - off + len (concat src) < n ->
  ensureLoop src buf off n = ([], buf ++ concat src, Throw EndOfStream).
Proof.
  induction src as [|value src IH]; intros buf off n Hn.
  - cbn [concat] in *. change (len (@nil byte)) with 0 in Hn.
    cbn [ensureLoop]. assert ((len buf - off <? n) = true) as -> by lia.
    rewrite app_nil_r. reflexivity.
  - cbn [concat] in *. rewrite len_app in Hn. pose proof (len_nonneg (concat src)).
    pose proof (len_nonneg value).
    cbn [ensureLoop]. assert ((len buf - off <? n) = true) as -> by lia.
    rewrite IH by (rewrite len_app; lia). rewrite app_assoc. reflexivity.
Qed.

(** Once the loop has filled the window, the slice at the cursor is the
    front of the unread bytes and what lies past it is the rest. *)
Lemma fill_then_slice (src src' : list Uint8Array) (buf pulled : Uint8Array) (off n : Z) :
  0 <= off <= len buf -> 0 <= n ->
  pulled ++ concat src' = concat src ->
  n <= len (buf ++ pulled) - off ->
  slice (buf ++ pulled) off (off + n)
  = firstn (Z.to_nat n) (skipn (Z.to_nat off) buf ++ concat src)
  /\ skipn (Z.to_nat (off + n)) (buf ++ pulled) ++ concat src'
     = skipn (Z.to_nat n) (skipn (Z.to_nat off) buf ++ concat src).
Proof.
  intros Hoff Hn Hcat Hfill.
  assert (Hview : skipn (Z.to_nat off) buf ++ concat src
                  = skipn (Z.to_nat off) (buf ++ pulled) ++ concat src').
  { rewrite <- Hcat. rewrite skipn_app_within by exact Hoff.
    rewrite app_assoc. reflexivity. }
  assert (Hroom : 0 <= n <= len (skipn (Z.to_nat off) (buf ++ pulled))).
  { rewrite len_skipn by (rewrite len_app; pose proof (len_nonneg pulled); lia). lia. }
  split.
  - rewrite slice_in_range by lia. rewrite Hview.
    replace (off + n - off) with n by lia.
    symmetry. apply firstn_app_within. exact Hroom.
  - rewrite Hview. rewrite skipn_add by lia.
    symmetry. apply skipn_app_within. exact Hroom.
Qed.

(** The earlier reader's loop is the same loop. *)
Lemma Stream_ensureLoop_eq (src : list Uint8Array) : forall (buf : Uint8Array) (off n : Z),
  Stream.ensureLoop src buf off n = ensureLoop src buf off n.
Proof.
  induction src as [|value src IH]; intros buf off n; cbn [Stream.ensureLoop ensureLoop].
  - reflexivity.
  - destruct (len buf - off <? n); [apply IH | reflexivity].
Qed.

Section WithValueReader.

Context {S : Type} {VR : ValueReader S}.

Lemma len_unread (this : t S) :
  wf this ->
  len (unread this) = len (buffer this) - bufferOffset this + len (concat (reader this)).
Proof.
  intros Hwf. unfold unread. rewrite len_app, len_skipn by exact Hwf. reflexivity.
Qed.

(** Compaction moves the cursor and the window together. *)
Lemma trimBuffer_view (this : t S) :
  wf this ->
  wf (trimBuffer this)
  /\ unread (trimBuffer this) = unread this
  /\ reader (trimBuffer this) = reader this
  /\ valueReader (trimBuffer this) = valueReader this
  /\ bytesRead (trimBuffer this) = bytesRead this.
Proof.
  intros Hwf. unfold trimBuffer.
  destruct (bufferOffset this >? JS.shr (len (buffer this)) 1).
  - unfold wf, unread. cbn [buffer bufferOffset reader valueReader bytesRead].
    rewrite sliceFrom_in_range by exact Hwf.
    pose proof (len_nonneg (skipn (Z.to_nat (bufferOffset this)) (buffer this))).
    repeat split; try reflexivity; lia.
  - repeat split; try reflexivity; apply Hwf.
Qed.

(** [read(n)] when enough bytes can be reached. *)
Lemma read_enough (this : t S) (n : Z) :
  wf this -> 0 <= n -> n <= len (unread this) ->
  exists this',
    read this n = (this', Ok (firstn (Z.to_nat n) (unread this)))
    /\ wf this'
    /\ unread this' = skipn (Z.to_nat n) (unread this)
    /\ bytesRead this' = bytesRead this + n
    /\ valueReader this' = valueReader this.
Proof.
  intros Hwf Hn Hlen. rewrite len_unread in Hlen by exact Hwf.
  destruct (ensureLoop_enough (reader this) (buffer this) (bufferOffset this) n Hlen)
    as (src' & pulled & Hrun & Hcat & Hfill & _).
  unfold read, ensureBufferFilledToAtLeast. rewrite Hrun.
  cbn [buffer bufferOffset reader valueReader bytesRead].
  set (this2 := {| reader := src'; buffer := buffer this ++ pulled;
                   bufferOffset := bufferOffset this + n;
                   valueReader := valueReader this;
                   bytesRead := bytesRead this + n |}).
  assert (Hwf2 : wf this2).
  { unfold wf, this2. cbn [buffer bufferOffset]. unfold wf in Hwf. lia. }
  destruct (trimBuffer_view this2 Hwf2) as (Hwf' & Hun & _ & Hvr & Hbr).
  destruct (fill_then_slice (reader this) src' (buffer this) pulled
              (bufferOffset this) n Hwf Hn Hcat Hfill) as [Hslice Hrest].
  exists (trimBuffer this2). repeat split.
  - rewrite Hslice. reflexivity.
  - apply Hwf'.
  - apply Hwf'.
  - rewrite Hun. exact Hrest.
  - rewrite Hbr. reflexivity.
  - rewrite Hvr. reflexivity.
Qed.

(** [read(n)] when the source runs dry first. *)
Lemma read_short (this : t S) (n : Z) :
  wf this -> len (unread this) < n ->
  read this n
  = ({| reader := []; buffer := buffer this ++ concat (reader this);
        bufferOffset := bufferOffset this;
        valueReader := valueReader this; bytesRead := bytesRead this |},
     Throw EndOfStream).
Proof.
  intros Hwf Hlen. rewrite len_unread in Hlen by exact Hwf.
  unfold read, ensureBufferFilledToAtLeast.
  rewrite ensureLoop_short by exact Hlen. reflexivity.
Qed.

Lemma read_short_view (this : t S) (n : Z) :
  wf this -> len (unread this) < n ->
  wf (fst (read this n)) /\ unread (fst (read this n)) = unread this.
Proof.
  intros Hwf Hlen. rewrite read_short by assumption.
  unfold wf, unread in *. cbn [fst buffer bufferOffset reader concat].
  rewrite len_app, app_nil_r. pose proof (len_nonneg (concat (reader this))).
  split; [lia|]. apply skipn_app_within. exact Hwf.
Qed.

End WithValueReader.

(** *** The earlier reader of [stream.ts] *)

Lemma Stream_len_unread (this : Stream.t) :
  Stream.wf this ->
  len (Stream.unread this)
  = len (Stream.buffer this) - Stream.bufferOffset this
    + len (concat (Stream.reader this)).
Proof.
  intros Hwf. unfold Stream.unread. rewrite len_app, len_skipn by exact Hwf. reflexivity.
Qed.

Lemma Stream_read_enough (this : Stream.t) (n : Z) :
  Stream.wf this -> 0 <= n -> n <= len (Stream.unread this) ->
  exists this',
    Stream.read this n = (this', Ok (firstn (Z.to_nat n) (Stream.unread this)))
    /\ Stream.wf this'
    /\ Stream.unread this' = skipn (Z.to_nat n) (Stream.unread this)
    /\ Stream.bytesRead this' = Stream.bytesRead this + n.
Proof.
  intros Hwf Hn Hlen. rewrite Stream_len_unread in Hlen by exact Hwf.
  destruct (ensureLoop_enough (Stream.reader this) (Stream.buffer this)
              (Stream.bufferOffset this) n Hlen)
    as (src' & pulled & Hrun & Hcat & Hfill & _).
  unfold Stream.read, Stream.ensureBufferFilledToAtLeast.
  rewrite Stream_ensureLoop_eq, Hrun.
  cbn [Stream.buffer Stream.bufferOffset Stream.reader Stream.bytesRead].
  destruct (fill_then_slice (Stream.reader this) src' (Stream.buffer this) pulled
              (Stream.bufferOffset this) n Hwf Hn Hcat Hfill) as [Hslice Hrest].
  eexists. split; [rewrite Hslice; reflexivity|].
  unfold Stream.wf, Stream.unread in *.
  cbn [Stream.buffer Stream.bufferOffset Stream.reader Stream.bytesRead].
  repeat split; try lia. exact Hrest.
Qed.

Lemma Stream_read_short (this : Stream.t) (n : Z) :
  Stream.wf this -> len (Stream.unread this) < n ->
  Stream.read this n
  = ({| Stream.reader := [];
        Stream.buffer := Stream.buffer this ++ concat (Stream.reader this);
        Stream.bufferOffset := Stream.bufferOffset this;
        Stream.bytesRead := Stream.bytesRead this |},
     Throw EndOfStream).
Proof.
  intros Hwf Hlen. rewrite Stream_len_unread in Hlen by exact Hwf.
  unfold Stream.read, Stream.ensureBufferFilledToAtLeast.
  rewrite Stream_ensureLoop_eq, ensureLoop_short by exact Hlen. reflexivity.
Qed.

End WindowFacts.

(** ** The code refines the specification's reader *)

Module RefinementFacts.

Import StreamReader WindowFacts.

Section WithValueReader.

Context {S : Type} {VR : ValueReader S}.

Lemma read_refines (this : t S) (n : Z) :
  wf this -> 0 <= n ->
  Model.ofReader (fst (read this n)) = fst (Model.read (Model.ofReader this) n)
  /\ snd (read this n) = snd (Model.read (Model.ofReader this) n)
  /\ wf (fst (read this n)).
Proof.
  intros Hwf Hn. unfold Model.read. cbn [Model.remaining Model.ofReader].
  destruct (Z.leb_spec n (len (unread this))) as [Hle|Hgt].
  - destruct (read_enough this n Hwf Hn Hle) as (this' & Hrun & Hwf' & Hun & Hbr & Hvr).
    rewrite Hrun. cbn [fst snd]. split; [|split; [reflexivity | exact Hwf']].
    unfold Model.ofReader. rewrite Hun, Hbr, Hvr. reflexivity.
  - destruct (read_short_view this n Hwf Hgt) as [Hwf' Hun].
    repeat split; try apply Hwf'.
    + unfold Model.ofReader. rewrite Hun.
      rewrite read_short by assumption. reflexivity.
    + rewrite read_short by assumption. reflexivity.
Qed.

Lemma readTyped_readThen (w : Width) (signed : bool) (this : t S) (endian : Endian) :
  readTyped w signed this endian
  = readThen this (Z.of_nat (widthBytes w)) (fun s b => readValue w signed s b endian).
Proof. destruct w, signed; reflexivity. Qed.

Lemma perform_refines (this : t S) (r : Request) :
  wf this -> 0 <= requested r ->
  Model.ofReader (fst (perform this r)) = fst (Model.perform (Model.ofReader this) r)
  /\ snd (perform this r) = snd (Model.perform (Model.ofReader this) r)
  /\ wf (fst (perform this r)).
Proof.
  intros Hwf Hn. destruct r as [n | w signed endian]; cbn [requested] in Hn.
  - cbn [perform Model.perform].
    destruct (read_refines this n Hwf Hn) as (Hst & Hout & Hwf').
    destruct (read this n) as [this1 out].
    destruct (Model.read (Model.ofReader this) n) as [m1 out'].
    cbn [fst snd] in *. subst. repeat split; try reflexivity; apply Hwf'.
  - cbn [perform Model.perform]. rewrite readTyped_readThen. unfold readThen.
    destruct (read_refines this _ Hwf Hn) as (Hst & Hout & Hwf').
    destruct (read this (Z.of_nat (widthBytes w))) as [this1 out].
    destruct (Model.read (Model.ofReader this) (Z.of_nat (widthBytes w))) as [m1 out'].
    cbn [fst snd] in *. subst m1 out'.
    destruct out as [buf | e]; cbn [fst snd].
    + cbn [Model.decoder Model.ofReader].
      destruct (readValue w signed (valueReader this1) buf endian) as [s v].
      cbn [fst snd]. repeat split; try apply Hwf'.
    + repeat split; apply Hwf'.
Qed.

Lemma run_refines (rs : list Request) : forall (this : t S),
  wf this -> Forall (fun r => 0 <= requested r) rs ->
  Model.ofReader (fst (run this rs)) = fst (Model.run (Model.ofReader this) rs)
  /\ snd (run this rs) = snd (Model.run (Model.ofReader this) rs)
  /\ wf (fst (run this rs)).
Proof.
  induction rs as [|r rs IH]; intros this Hwf Hrs.
  - cbn. repeat split; try reflexivity; apply Hwf.
  - inversion Hrs as [|? ? Hr Hrs']; subst.
    cbn [run Model.run].
    destruct (perform_refines this r Hwf Hr) as (Hst & Hout & Hwf1).
    destruct (perform this r) as [this1 out].
    destruct (Model.perform (Model.ofReader this) r) as [m1 out'].
    cbn [fst snd] in *. subst m1 out'.
    destruct (IH this1 Hwf1 Hrs') as (Hst' & Hout' & Hwf2).
    destruct (run this1 rs) as [this2 outs].
    destruct (Model.run (Model.ofReader this1) rs) as [m2 outs'].
    cbn [fst snd] in *. subst m2 outs'.
    repeat split; try apply Hwf2.
Qed.

End WithValueReader.

End RefinementFacts.

(** ** StreamWriter: the chunk a typed write hands to the sink *)

Module WriterFacts.

Import Platform DigitFacts ReaderFacts StreamWriter.

(** The bytes of [v] at a width, in the requested order. *)
Lemma setInt_then_write (this : t) (n : nat) (v : Z) (le : bool) :
  (n <= length (buffer this))%nat ->
  storeThenWrite this (setInt n (buffer this) 0 v le) (Z.of_nat n)
  = ({| writer := writer this ++ [if le then leBytes n v else rev (leBytes n v)];
        buffer := (if le then leBytes n v else rev (leBytes n v))
                    ++ skipn n (buffer this) |},
     Ok (Z.of_nat n)).
Proof.
  intros Hn. unfold storeThenWrite, setInt.
  assert (((0 <? 0) || (len (buffer this) <? 0 + Z.of_nat n)) = false) as ->
    by (unfold len; apply orb_false_iff; split; lia).
  assert (Hfront : forall raw : Uint8Array,
    length raw = n -> firstn n (raw ++ skipn n (buffer this)) = raw).
  { intros raw Hraw. rewrite firstn_app, Hraw, Nat.sub_diag, firstn_O, app_nil_r.
    apply firstn_all2. lia. }
  assert (Hrev : length (rev (leBytes n v)) = n)
    by (rewrite length_rev; apply length_leBytes).
  pose proof (length_leBytes n v) as Hraw.
  cbv zeta. cbn [Z.to_nat firstn app Nat.add]. unfold write. cbn [writer buffer].
  rewrite slice_in_range by lia. cbn [Z.to_nat skipn].
  rewrite Z.sub_0_r, Nat2Z.id.
  destruct le; rewrite Hfront by assumption; unfold len;
    rewrite ?Hrev, ?Hraw; reflexivity.
Qed.

Lemma writeValue_chunk (w : Width) (signed : bool) (this : t) (v : Z) (endian : Endian) :
  length (buffer this) = 8%nat ->
  exists chunk,
    writeValue w signed this v endian
    = ({| writer := writer this ++ [chunk];
          buffer := chunk ++ skipn (widthBytes w) (buffer this) |},
       Ok (Z.of_nat (widthBytes w)))
    /\ length chunk = widthBytes w
    /\ base256 endian chunk = v mod 2 ^ widthBits w.
Proof.
  intros Hbuf.
  assert (Hgen : forall le,
    le = isLittle endian \/ widthBytes w = 1%nat ->
    let chunk := if le then leBytes (widthBytes w) v else rev (leBytes (widthBytes w) v) in
    length chunk = widthBytes w /\ base256 endian chunk = v mod 2 ^ widthBits w).
  { intros le Hle chunk. split.
    - unfold chunk. destruct le; rewrite ?length_rev; apply length_leBytes.
    - rewrite base256_leValue. unfold widthBits.
      rewrite Z.pow_mul_r by lia. change (2 ^ 8) with 256.
      rewrite <- leValue_leBytes. f_equal.
      destruct Hle as [-> | H1].
      + unfold chunk. destruct endian; cbn [isLittle]; rewrite ?rev_involutive; reflexivity.
      + unfold chunk. rewrite H1. cbn [leBytes rev app].
        destruct le, endian; reflexivity. }
  destruct w, signed; cbn [writeValue widthBytes] in *.
  - (* Int8 *)
    eexists. split; [apply (setInt_then_write this 1 v false); lia|].
    apply (Hgen false). right. reflexivity.
  - (* Uint8 *)
    exists [ToUint8 v]. split; [| apply (Hgen true); right; reflexivity].
    unfold writeUint8, storeThenWrite, typedArraySet.
    assert (((0 <? 0) || (len (buffer this) <? len [ToUint8 v] + 0)) = false) as ->
      by (unfold len; rewrite Hbuf; reflexivity).
    unfold write. cbn [writer buffer Z.to_nat firstn app Nat.add length].
    rewrite slice_in_range by lia. reflexivity.
  - eexists. split; [apply (setInt_then_write this 2 v (isLittle endian)); lia|].
    apply (Hgen (isLittle endian)). left. reflexivity.
  - eexists. split; [apply (setInt_then_write this 2 v (isLittle endian)); lia|].
    apply (Hgen (isLittle endian)). left. reflexivity.
  - eexists. split; [apply (setInt_then_write this 4 v (isLittle endian)); lia|].
    apply (Hgen (isLittle endian)). left. reflexivity.
  - eexists. split; [apply (setInt_then_write this 4 v (isLittle endian)); lia|].
    apply (Hgen (isLittle endian)). left. reflexivity.
  - eexists. split; [apply (setInt_then_write this 8 v (isLittle endian)); lia|].
    apply (Hgen (isLittle endian)). left. reflexivity.
  - eexists. split; [apply (setInt_then_write this 8 v (isLittle endian)); lia|].
    apply (Hgen (isLittle endian)). left. reflexivity.
Qed.

(** Reducing a representable value modulo [2^W] and reading the result
    back at the same signedness gives the value. *)
Lemma representable_roundtrip (w : Width) (signed : bool) (v : Z) :
  representable w signed v ->
  (if signed then twosComplement (widthBits w) (v mod 2 ^ widthBits w)
   else v mod 2 ^ widthBits w) = v.
Proof.
  unfold representable, minValue, maxValue, twosComplement.
  intros Hrep.
  assert (Hbits : 0 < widthBits w) by (destruct w; reflexivity).
  assert (Hpow : 2 ^ widthBits w = 2 * 2 ^ (widthBits w - 1)).
  { rewrite <- Z.pow_succ_r by lia. f_equal. lia. }
  assert (Hpos : 0 < 2 ^ (widthBits w - 1)) by (apply Z.pow_pos_nonneg; lia).
  destruct signed.
  - assert (Hmod : v mod 2 ^ widthBits w = if v <? 0 then v + 2 ^ widthBits w else v).
    { destruct (Z.ltb_spec v 0) as [Hneg|Hnn].
      - rewrite <- (Z.mod_add v 1) by lia. rewrite Z.mul_1_l.
        apply Z.mod_small. lia.
      - apply Z.mod_small. lia. }
    rewrite Hmod.
    destruct (Z.ltb_spec v 0) as [Hneg|Hnn].
    + destruct (Z.ltb_spec (v + 2 ^ widthBits w) (2 ^ (widthBits w - 1))); lia.
    + destruct (Z.ltb_spec v (2 ^ (widthBits w - 1))); lia.
  - apply Z.mod_small. lia.
Qed.

End WriterFacts.

(** ** Facts about the specification's reader *)

Module ModelFacts.

Import StreamReader WindowFacts.

Section WithValueReader.

Context {S : Type} {VR : ValueReader S}.

Lemma Model_perform_counter (m : Model.t S) (r : Request) :
  succeeded (snd (Model.perform m r)) ->
  Model.counter (fst (Model.perform m r)) = Model.counter m + requested r.
Proof.
  destruct r as [n | w signed endian]; cbn [Model.perform requested]; unfold Model.read.
  - destruct (n <=? len (Model.remaining m)); cbn; [reflexivity | contradiction].
  - destruct (Z.of_nat (widthBytes w) <=? len (Model.remaining m)).
    + cbn [Model.decoder Model.remaining Model.counter].
      destruct (readValue w signed (Model.decoder m) _ endian) as [s v].
      cbn. reflexivity.
    + cbn. contradiction.
Qed.

Lemma Model_run_counter (rs : list Request) : forall (m : Model.t S),
  Forall (fun o => succeeded (fst o)) (snd (Model.run m rs)) ->
  Model.counter (fst (Model.run m rs)) = Model.counter m + totalRequested rs.
Proof.
  induction rs as [|r rs IH]; intros m Hok.
  - cbn. lia.
  - cbn [Model.run] in *.
    pose proof (Model_perform_counter m r) as Hstep.
    destruct (Model.perform m r) as [m1 out]. cbn [fst snd] in Hstep.
    specialize (IH m1).
    destruct (Model.run m1 rs) as [m2 outs]. cbn [fst snd] in *.
    inversion Hok as [|? ? Hhead Htail]; subst. cbn [fst] in Hhead.
    rewrite IH by exact Htail. rewrite Hstep by exact Hhead.
    unfold totalRequested. cbn [map fold_right]. lia.
Qed.

Lemma ofReader_create (chunks : list Uint8Array) (vr : S) :
  Model.ofReader (create chunks vr)
  = {| Model.remaining := concat chunks; Model.counter := 0; Model.decoder := vr |}.
Proof. reflexivity. Qed.

Lemma wf_create (chunks : list Uint8Array) (vr : S) : wf (create chunks vr).
Proof. unfold wf. cbn. unfold len. cbn. lia. Qed.

(** The earlier reader refines the same description. *)
Lemma Stream_read_refines (this : Stream.t) (vr : S) (n : Z) :
  Stream.wf this -> 0 <= n ->
  Model.ofStream (fst (Stream.read this n)) vr
    = fst (Model.read (Model.ofStream this vr) n)
  /\ snd (Stream.read this n) = snd (Model.read (Model.ofStream this vr) n)
  /\ Stream.wf (fst (Stream.read this n)).
Proof.
  intros Hwf Hn. unfold Model.read. cbn [Model.remaining Model.ofStream].
  destruct (Z.leb_spec n (len (Stream.unread this))) as [Hle|Hgt].
  - destruct (Stream_read_enough this n Hwf Hn Hle) as (this' & Hrun & Hwf' & Hun & Hbr).
    rewrite Hrun. cbn [fst snd]. split; [|split; [reflexivity | exact Hwf']].
    unfold Model.ofStream. rewrite Hun, Hbr. reflexivity.
  - rewrite Stream_read_short by assumption. cbn [fst snd].
    unfold Model.ofStream, Stream.unread, Stream.wf in *.
    cbn [Stream.buffer Stream.bufferOffset Stream.reader Stream.bytesRead concat].
    rewrite app_nil_r, skipn_app_within by exact Hwf.
    rewrite len_app. pose proof (len_nonneg (concat (Stream.reader this))).
    split; [reflexivity | split; [reflexivity | lia]].
Qed.

Lemma Stream_reads_refines (ns : list Z) : forall (this : Stream.t) (vr : S),
  Stream.wf this -> Forall (fun n => 0 <= n) ns ->
  map (fun o => (Bytes (fst o), snd o)) (snd (Stream.reads this ns))
  = snd (Model.run (Model.ofStream this vr) (map ReadBytes ns)).
Proof.
  induction ns as [|n ns IH]; intros this vr Hwf Hns.
  - reflexivity.
  - inversion Hns as [|? ? Hn Hns']; subst.
    cbn [Stream.reads Model.run map Model.perform].
    destruct (Stream_read_refines this vr n Hwf Hn) as (Hst & Hout & Hwf1).
    destruct (Stream.read this n) as [this1 out].
    destruct (Model.read (Model.ofStream this vr) n) as [m1 out'].
    cbn [fst snd] in *. subst m1 out'.
    specialize (IH this1 vr Hwf1 Hns').
    destruct (Stream.reads this1 ns) as [this2 outs].
    destruct (Model.run (Model.ofStream this1 vr) (map ReadBytes ns)) as [m2 outs'].
    cbn [fst snd map] in *. rewrite IH. reflexivity.
Qed.

End WithValueReader.

End ModelFacts.

(** ** Draining, compaction policy, scratch arrays *)

Module DrainFacts.

Import StreamReader WindowFacts.

Lemma drainLoop_app (src : list Uint8Array) : forall chunks,
  drainLoop src chunks = chunks ++ src.
Proof.
  induction src as [|value src IH]; intros chunks; cbn [drainLoop].
  - rewrite app_nil_r. reflexivity.
  - rewrite IH, <- app_assoc. reflexivity.
Qed.

Lemma fold_left_lengths (chunks : list Uint8Array) : forall acc,
  fold_left (fun a chunk => a + len chunk) chunks acc = acc + len (concat chunks).
Proof.
  induction chunks as [|c chunks IH]; intros acc; cbn [fold_left concat].
  - change (len (@nil byte)) with 0. lia.
  - rewrite IH, len_app. lia.
Qed.

Lemma shr_1_half (L : Z) : 0 <= L < 2 ^ 32 -> JS.shr L 1 = L / 2.
Proof.
  intros HL. unfold JS.shr.
  rewrite JSFacts.ToUint32_small by exact HL.
  rewrite JSFacts.shiftCount_small by lia.
  rewrite Z.shiftr_div_pow2 by lia. reflexivity.
Qed.

(** Also for a longer window, [>>> 1] never exceeds the true half. *)
Lemma shr_1_le_half (L : Z) : 0 <= L -> JS.shr L 1 <= L / 2.
Proof.
  intros HL. unfold JS.shr, JS.ToUint32.
  rewrite JSFacts.shiftCount_small by lia.
  rewrite Z.shiftr_div_pow2 by lia. change (2 ^ 1) with 2.
  apply Z.div_le_mono; [lia|]. apply Z.mod_le; lia.
Qed.

End DrainFacts.

Module ScratchFacts.

Import ReaderFacts.

Lemma Performance_scratch_length (w : Width) (signed : bool) (endian : Endian)
    (buf : Uint8Array) (this : PerformanceValueReader.t) :
  length (DataViewValueReader.scratchBuf (PerformanceValueReader.dv this)) = 8%nat ->
  length (DataViewValueReader.scratchBuf
            (PerformanceValueReader.dv
               (fst (readValue (VR := PerformanceVR) w signed this buf endian)))) = 8%nat.
Proof.
  intros Hs.
  pose proof (DataView_scratch_length w signed endian buf
                (PerformanceValueReader.dv this) Hs) as Hd.
  destruct w, signed; cbn [readValue] in *; try exact Hs; exact Hd.
Qed.

Lemma replay_DataView_scratch (calls : list Call) : forall (this : DataViewValueReader.t),
  length (DataViewValueReader.scratchBuf this) = 8%nat ->
  length (DataViewValueReader.scratchBuf (replay (VR := DataViewVR) this calls)) = 8%nat.
Proof.
  induction calls as [|c calls IH]; intros this Hs; cbn [replay].
  - exact Hs.
  - apply IH. unfold call. apply DataView_scratch_length. exact Hs.
Qed.

Lemma replay_Performance_scratch (calls : list Call) :
  forall (this : PerformanceValueReader.t),
  length (DataViewValueReader.scratchBuf (PerformanceValueReader.dv this)) = 8%nat ->
  length (DataViewValueReader.scratchBuf
            (PerformanceValueReader.dv (replay (VR := PerformanceVR) this calls))) = 8%nat.
Proof.
  induction calls as [|c calls IH]; intros this Hs; cbn [replay].
  - exact Hs.
  - apply IH. unfold call. apply Performance_scratch_length. exact Hs.
Qed.

End ScratchFacts.

(** ** buffer.ts on the inputs whose window is the whole buffer *)

Module BufferFacts.

Import Buffer.

(** For an [ArrayBuffer], a [Uint8Array], and any other view that spans
    its whole [ArrayBuffer], the result exposes the bytes of the input over
    the same storage. *)
Lemma uint8ArrayFromBufferSource_whole (src : BufferSource) (bs : Uint8Array) :
  sourceBytes src = Some bs ->
  match src with
  | SrcBuffer b => isArrayBuffer b = true
  | SrcView v =>
      kind v = KUint8Array
      \/ (isArrayBuffer (viewBuffer v) = true
          /\ byteOffset v = 0 /\ byteLength v = len (bytes (viewBuffer v)))
  | SrcOther _ => False
  end ->
  exists out,
    uint8ArrayFromBufferSource src = Ok out
    /\ viewBytes out = bs
    /\ match src with
       | SrcBuffer b => viewBuffer out = b
       | SrcView v => viewBuffer out = viewBuffer v
       | SrcOther _ => True
       end.
Proof.
  intros Hbs Hsrc. destruct src as [b | v | other]; cbn [sourceBytes] in Hbs;
    [| | contradiction]; injection Hbs as <-.
  - exists (wholeBuffer b). cbn [uint8ArrayFromBufferSource]. rewrite Hsrc.
    repeat split. unfold viewBytes, wholeBuffer, len.
    cbn [byteOffset byteLength viewBuffer Z.to_nat skipn]. rewrite Nat2Z.id.
    apply firstn_all.
  - cbn [uint8ArrayFromBufferSource]. destruct Hsrc as [Hk | (Hab & Hoff & Hlen)].
    + rewrite Hk. exists v. repeat split.
    + destruct (kind v); [exists v; repeat split|].
      rewrite Hab. exists (wholeBuffer (viewBuffer v)). repeat split.
      unfold viewBytes. rewrite Hoff, Hlen. reflexivity.
Qed.

(** The third test of the function looks at the property [buffer] only: a
    value that is neither a buffer nor a view is handled as the buffer
    object its property [buffer] holds. *)
Lemma uint8ArrayFromBufferSource_duck (b : Storage) :
  uint8ArrayFromBufferSource (SrcOther (Some b)) = uint8ArrayFromBufferSource (SrcBuffer b).
Proof. reflexivity. Qed.

(** A value with no buffer object behind it is refused. *)
Lemma uint8ArrayFromBufferSource_unsupported :
  uint8ArrayFromBufferSource (SrcOther None) = Throw TypeError.
Proof. reflexivity. Qed.

End BufferFacts.

(** * The claims of the specification *)

(** ** Codec: round trip, strategy equivalence, 64-bit exactness *)

(** C1.  Round trip.  For every width, signedness and byte order, the
    typed write of a representable value [v] hands the sink one chunk of
    exactly [W/8] bytes, and decoding that chunk with the matching operation
    of any of the three value readers (whatever their scratch arrays hold)
    gives [v] back; so does the typed read of a [StreamReader] placed over
    that chunk.  The minimum, the maximum and zero are representable, so the
    statement covers them. *)
Theorem write_then_decode_roundtrip
    (w : Width) (signed : bool) (endian : Endian) (v : Z)
    (this : StreamWriter.t) (br : unit)
    (dv : DataViewValueReader.t) (pv : PerformanceValueReader.t) :
  length (StreamWriter.buffer this) = 8%nat ->
  length (DataViewValueReader.scratchBuf dv) = 8%nat ->
  length (DataViewValueReader.scratchBuf (PerformanceValueReader.dv pv)) = 8%nat ->
  representable w signed v ->
  exists chunk this',
    StreamWriter.writeValue w signed this v endian
      = (this', Ok (Z.of_nat (widthBytes w)))
    /\ StreamWriter.writer this' = StreamWriter.writer this ++ [chunk]
    /\ length (StreamWriter.buffer this') = 8%nat
    /\ length chunk = widthBytes w
    /\ snd (readValue (VR := BitOps) w signed br chunk endian) = Ok (Num v)
    /\ snd (readValue (VR := DataViewVR) w signed dv chunk endian) = Ok (Num v)
    /\ snd (readValue (VR := PerformanceVR) w signed pv chunk endian) = Ok (Num v)
    /\ snd (StreamReader.perform (StreamReader.create [chunk] pv)
              (StreamReader.ReadValue w signed endian)) = StreamReader.Val (Ok (Num v))
    /\ representable w signed (minValue w signed)
    /\ representable w signed (maxValue w signed)
    /\ representable w signed 0.
Proof.
  intros Hbuf Hdv Hpv Hrep.
  destruct (WriterFacts.writeValue_chunk w signed this v endian Hbuf)
    as (chunk & Hwrite & Hlen & Hval).
  assert (Hden : denoted w signed endian chunk = v).
  { unfold denoted. rewrite Hval. apply WriterFacts.representable_roundtrip. exact Hrep. }
  eexists chunk, _. split; [exact Hwrite|].
  cbn [StreamWriter.writer StreamWriter.buffer].
  split; [reflexivity|].
  split; [rewrite length_app, length_skipn, Hlen, Hbuf; destruct w; reflexivity|].
  split; [exact Hlen|].
  split; [rewrite ReaderFacts.BitOps_exact, Hden by exact Hlen; reflexivity|].
  split; [rewrite ReaderFacts.DataView_exact, Hden by assumption; reflexivity|].
  split; [rewrite ReaderFacts.Performance_exact, Hden by assumption; reflexivity|].
  split.
  - assert (Hwf : StreamReader.wf (StreamReader.create [chunk] pv))
      by (unfold StreamReader.wf; cbn; unfold len; cbn; lia).
    destruct (RefinementFacts.perform_refines (StreamReader.create [chunk] pv)
                (StreamReader.ReadValue w signed endian) Hwf) as (_ & Hout & _).
    { cbn. lia. }
    rewrite Hout. cbn [Model.perform]. unfold Model.read.
    cbn [Model.ofReader Model.remaining Model.counter Model.decoder
         StreamReader.unread StreamReader.create StreamReader.buffer
         StreamReader.bufferOffset StreamReader.reader StreamReader.valueReader
         StreamReader.bytesRead concat Z.to_nat skipn app].
    rewrite app_nil_r.
    assert ((Z.of_nat (widthBytes w) <=? len chunk) = true) as ->
      by (unfold len; rewrite Hlen; apply Z.leb_refl).
    rewrite Nat2Z.id, <- Hlen, firstn_all.
    pose proof (ReaderFacts.Performance_exact w signed endian chunk pv Hpv Hlen) as Hp.
    rewrite Hlen. cbn [Model.decoder Model.remaining Model.counter].
    destruct (readValue w signed pv chunk endian) as [s r]. cbn [snd] in *.
    rewrite Hp, Hden. reflexivity.
  - unfold representable, minValue, maxValue.
    assert (Hbits : 0 < widthBits w) by (destruct w; reflexivity).
    assert (Hpos : 0 < 2 ^ (widthBits w - 1)) by (apply Z.pow_pos_nonneg; lia).
    assert (Hpow : 2 ^ widthBits w = 2 * 2 ^ (widthBits w - 1)).
    { rewrite <- Z.pow_succ_r by lia. f_equal. lia. }
    destruct signed; repeat split; lia.
Qed.

(** C1, at a concrete input: the 16-bit signed minimum, big-endian, written
    by a fresh writer and decoded by fresh readers. *)
Lemma write_then_decode_roundtrip_witness :
  exists chunk this',
    StreamWriter.writeValue W16 true StreamWriter.create (-32768) Big
      = (this', Ok (Z.of_nat (widthBytes W16)))
    /\ StreamWriter.writer this' = StreamWriter.writer StreamWriter.create ++ [chunk]
    /\ length (StreamWriter.buffer this') = 8%nat
    /\ length chunk = widthBytes W16
    /\ snd (readValue (VR := BitOps) W16 true tt chunk Big) = Ok (Num (-32768))
    /\ snd (readValue (VR := DataViewVR) W16 true DataViewValueReader.create chunk Big)
       = Ok (Num (-32768))
    /\ snd (readValue (VR := PerformanceVR) W16 true PerformanceValueReader.create chunk Big)
       = Ok (Num (-32768))
    /\ snd (StreamReader.perform (StreamReader.create [chunk] PerformanceValueReader.create)
              (StreamReader.ReadValue W16 true Big)) = StreamReader.Val (Ok (Num (-32768)))
    /\ representable W16 true (minValue W16 true)
    /\ representable W16 true (maxValue W16 true)
    /\ representable W16 true 0.
Proof.
  apply (write_then_decode_roundtrip W16 true Big (-32768) StreamWriter.create tt
           DataViewValueReader.create PerformanceValueReader.create).
  - reflexivity.
  - reflexivity.
  - reflexivity.
  - unfold representable. vm_compute. split; discriminate.
Defined.

(** C2.  Strategy equivalence.  On a buffer of exactly [W/8] bytes, in
    either byte order, [BitOpsValueReader], [DataViewValueReader] and
    [PerformanceValueReader] return the same result for each of the eight
    operations, whatever the scratch arrays of the latter two hold; that
    result is the integer the bytes denote. *)
Theorem value_readers_agree
    (w : Width) (signed : bool) (endian : Endian) (buf : Uint8Array)
    (br : unit) (dv : DataViewValueReader.t) (pv : PerformanceValueReader.t) :
  length (DataViewValueReader.scratchBuf dv) = 8%nat ->
  length (DataViewValueReader.scratchBuf (PerformanceValueReader.dv pv)) = 8%nat ->
  length buf = widthBytes w ->
  snd (readValue (VR := BitOps) w signed br buf endian)
    = snd (readValue (VR := DataViewVR) w signed dv buf endian)
  /\ snd (readValue (VR := DataViewVR) w signed dv buf endian)
    = snd (readValue (VR := PerformanceVR) w signed pv buf endian)
  /\ snd (readValue (VR := BitOps) w signed br buf endian)
    = Ok (Num (denoted w signed endian buf)).
Proof.
  intros Hdv Hpv Hlen.
  rewrite ReaderFacts.BitOps_exact by exact Hlen.
  rewrite ReaderFacts.DataView_exact by assumption.
  rewrite ReaderFacts.Performance_exact by assumption.
  repeat split.
Qed.

(** C2, at a concrete input: the bytes [ff fe] read as a big-endian signed
    16-bit number by fresh readers. *)
Lemma value_readers_agree_witness :
  snd (readValue (VR := BitOps) W16 true tt [xff; xfe] Big)
    = snd (readValue (VR := DataViewVR) W16 true DataViewValueReader.create [xff; xfe] Big)
  /\ snd (readValue (VR := DataViewVR) W16 true DataViewValueReader.create [xff; xfe] Big)
    = snd (readValue (VR := PerformanceVR) W16 true PerformanceValueReader.create
             [xff; xfe] Big)
  /\ snd (readValue (VR := BitOps) W16 true tt [xff; xfe] Big)
    = Ok (Num (denoted W16 true Big [xff; xfe])).
Proof.
  apply (value_readers_agree W16 true Big [xff; xfe] tt
           DataViewValueReader.create PerformanceValueReader.create);
    reflexivity.
Defined.

(** C6.  The 64-bit unsigned decode of [BitOpsValueReader] is bit-exact.
    For every 8-byte buffer and both byte orders [bufferToUnsignedBigInt]
    returns the integer whose base-256 digits are the bytes of the buffer in
    the given order, a number below [2^64]; the 32-bit arithmetic of
    [bufferToUnsignedNumber] on each 4-byte half loses nothing, also when the
    top bit of a half is set. *)
Theorem bufferToUnsignedBigInt_bit_exact (buffer : Uint8Array) (endian : Endian) :
  length buffer = 8%nat ->
  BitOpsValueReader.bufferToUnsignedBigInt buffer endian = base256 endian buffer
  /\ 0 <= BitOpsValueReader.bufferToUnsignedBigInt buffer endian < 2 ^ 64
  /\ BitOpsValueReader.readUint64 buffer endian = Ok (Num (base256 endian buffer))
  /\ BitOpsValueReader.bufferToUnsignedNumber (slice buffer 0 4) endian
     = base256 endian (slice buffer 0 4)
  /\ BitOpsValueReader.bufferToUnsignedNumber (slice buffer 4 8) endian
     = base256 endian (slice buffer 4 8).
Proof.
  intros Hlen.
  assert (Hexact : BitOpsValueReader.bufferToUnsignedBigInt buffer endian
                   = base256 endian buffer).
  { rewrite ReaderFacts.base256_leValue.
    ReaderFacts.exact_width buffer Hlen.
    apply BigIntFacts.bufferToUnsignedBigInt_exact8. }
  pose proof (ReaderFacts.base256_range endian buffer) as Hr.
  unfold len in Hr. rewrite Hlen in Hr.
  split; [exact Hexact|].
  split; [rewrite Hexact; exact Hr|].
  split; [unfold BitOpsValueReader.readUint64; rewrite Hexact; reflexivity|].
  split; rewrite ReaderFacts.base256_leValue;
    apply BitOpsFacts.bufferToUnsignedNumber_exact;
    ReaderFacts.exact_width buffer Hlen; cbv; discriminate.
Qed.

(** C6, at a concrete input: eight bytes [ff], the value [2^64 - 1], where
    the top bit of both halves is set. *)
Lemma bufferToUnsignedBigInt_bit_exact_witness :
  BitOpsValueReader.bufferToUnsignedBigInt [xff; xff; xff; xff; xff; xff; xff; xff] Big
    = base256 Big [xff; xff; xff; xff; xff; xff; xff; xff]
  /\ 0 <= BitOpsValueReader.bufferToUnsignedBigInt
            [xff; xff; xff; xff; xff; xff; xff; xff] Big < 2 ^ 64
  /\ BitOpsValueReader.readUint64 [xff; xff; xff; xff; xff; xff; xff; xff] Big
     = Ok (Num (base256 Big [xff; xff; xff; xff; xff; xff; xff; xff]))
  /\ BitOpsValueReader.bufferToUnsignedNumber
       (slice [xff; xff; xff; xff; xff; xff; xff; xff] 0 4) Big
     = base256 Big (slice [xff; xff; xff; xff; xff; xff; xff; xff] 0 4)
  /\ BitOpsValueReader.bufferToUnsignedNumber
       (slice [xff; xff; xff; xff; xff; xff; xff; xff] 4 8) Big
     = base256 Big (slice [xff; xff; xff; xff; xff; xff; xff; xff] 4 8).
Proof.
  apply (bufferToUnsignedBigInt_bit_exact [xff; xff; xff; xff; xff; xff; xff; xff] Big).
  reflexivity.
Defined.

(** ** Stream reader: counter, exhaustion, compaction *)

(** C3.  Counter invariant.  Two fresh readers over sources that split the
    same data into chunks differently answer every sequence of calls
    ([read(n)] and typed reads alike) with the same replies and show the same
    [bytesRead] after each call and at the end; and when every call of the
    sequence succeeded, [bytesRead] is the sum of the byte counts the calls
    asked for. *)
Theorem bytesRead_counts_requests_whatever_the_chunking
    {S : Type} {VR : ValueReader S}
    (chunks1 chunks2 : list Uint8Array) (vr : S) (rs : list StreamReader.Request) :
  concat chunks1 = concat chunks2 ->
  Forall (fun r => 0 <= StreamReader.requested r) rs ->
  snd (StreamReader.run (StreamReader.create chunks1 vr) rs)
    = snd (StreamReader.run (StreamReader.create chunks2 vr) rs)
  /\ StreamReader.bytesRead (fst (StreamReader.run (StreamReader.create chunks1 vr) rs))
     = StreamReader.bytesRead (fst (StreamReader.run (StreamReader.create chunks2 vr) rs))
  /\ (Forall (fun o => StreamReader.succeeded (fst o))
        (snd (StreamReader.run (StreamReader.create chunks1 vr) rs)) ->
      StreamReader.bytesRead (fst (StreamReader.run (StreamReader.create chunks1 vr) rs))
      = StreamReader.totalRequested rs).
Proof.
  intros Hdata Hrs.
  destruct (RefinementFacts.run_refines rs (StreamReader.create chunks1 vr)
              (ModelFacts.wf_create chunks1 vr) Hrs) as (Hst1 & Hout1 & _).
  destruct (RefinementFacts.run_refines rs (StreamReader.create chunks2 vr)
              (ModelFacts.wf_create chunks2 vr) Hrs) as (Hst2 & Hout2 & _).
  rewrite !ModelFacts.ofReader_create in *. rewrite <- Hdata in *.
  split; [rewrite Hout1, Hout2; reflexivity|].
  assert (Hcount : forall this : StreamReader.t S,
            StreamReader.bytesRead this = Model.counter (Model.ofReader this))
    by reflexivity.
  split.
  - rewrite !Hcount, Hst1, Hst2. reflexivity.
  - intros Hok. rewrite Hcount, Hst1. rewrite Hout1 in Hok.
    rewrite ModelFacts.Model_run_counter by exact Hok. reflexivity.
Qed.

(** C3, at a concrete input: five bytes delivered one by one and delivered
    at once, read by [read(2)], [readUint8()] and [read(2)]; every call
    succeeds and the counter ends at 5. *)
Lemma bytesRead_counts_requests_whatever_the_chunking_witness :
  let one_by_one := [[x01]; [x02]; [x03]; [x04]; [x05]] in
  let at_once := [[x01; x02; x03; x04; x05]] in
  let rs := [StreamReader.ReadBytes 2; StreamReader.ReadValue W8 false Big;
             StreamReader.ReadBytes 2] in
  concat one_by_one = concat at_once
  /\ snd (StreamReader.run (StreamReader.create one_by_one PerformanceValueReader.create) rs)
     = snd (StreamReader.run (StreamReader.create at_once PerformanceValueReader.create) rs)
  /\ StreamReader.bytesRead
       (fst (StreamReader.run (StreamReader.create one_by_one PerformanceValueReader.create) rs))
     = StreamReader.bytesRead
         (fst (StreamReader.run (StreamReader.create at_once PerformanceValueReader.create) rs))
  /\ StreamReader.bytesRead
       (fst (StreamReader.run (StreamReader.create one_by_one PerformanceValueReader.create) rs))
     = 5.
Proof.
  intros one_by_one at_once rs.
  assert (Hrs : Forall (fun r => 0 <= StreamReader.requested r) rs)
    by (repeat constructor; discriminate).
  destruct (bytesRead_counts_requests_whatever_the_chunking
              one_by_one at_once PerformanceValueReader.create rs eq_refl Hrs)
    as (Hout & Hcount & Hsum).
  split; [reflexivity|]. split; [exact Hout|]. split; [exact Hcount|].
  rewrite Hsum; [reflexivity|]. vm_compute. repeat constructor.
Defined.

(** C4.  Exhaustion.  When [n] exceeds the unread bytes of the window plus
    everything the source has still to deliver, [read(n)] fails with the
    end-of-stream error; the cursor and [bytesRead] are as before, the window
    has grown by exactly the chunks that were pulled, and the reader is still
    usable: every later [read(m)] with [m] within the bytes that are there
    succeeds and returns the next [m] of them. *)
Theorem read_past_the_end_fails_and_keeps_the_reader_usable
    {S : Type} (this : StreamReader.t S) (n : Z) :
  StreamReader.wf this ->
  len (StreamReader.buffer this) - StreamReader.bufferOffset this
    + len (concat (StreamReader.reader this)) < n ->
  exists this',
    StreamReader.read this n = (this', Throw EndOfStream)
    /\ StreamReader.bufferOffset this' = StreamReader.bufferOffset this
    /\ StreamReader.bytesRead this' = StreamReader.bytesRead this
    /\ StreamReader.buffer this'
       = StreamReader.buffer this ++ concat (StreamReader.reader this)
    /\ StreamReader.wf this'
    /\ forall m : Z,
         0 <= m <= len (StreamReader.buffer this) - StreamReader.bufferOffset this
                   + len (concat (StreamReader.reader this)) ->
         exists this'',
           StreamReader.read this' m
             = (this'', Ok (firstn (Z.to_nat m) (StreamReader.unread this)))
           /\ len (firstn (Z.to_nat m) (StreamReader.unread this)) = m
           /\ StreamReader.bytesRead this'' = StreamReader.bytesRead this + m.
Proof.
  intros Hwf Hn.
  rewrite <- WindowFacts.len_unread in * by exact Hwf.
  destruct (WindowFacts.read_short_view this n Hwf Hn) as [Hwf' Hun].
  rewrite (WindowFacts.read_short this n Hwf Hn) in *. cbn [fst] in *.
  eexists. split; [reflexivity|].
  cbn [StreamReader.bufferOffset StreamReader.bytesRead StreamReader.buffer].
  repeat (split; [first [reflexivity | exact Hwf']|]).
  intros m Hm.
  destruct (WindowFacts.read_enough _ m Hwf') as (this'' & Hrun & _ & _ & Hbr & _);
    [lia | rewrite Hun; lia |].
  exists this''. rewrite Hun in Hrun. split; [exact Hrun|]. split; [|exact Hbr].
  unfold len in *. rewrite length_firstn. lia.
Qed.

(** C4, at a concrete input: [read(5)] on a source that holds three bytes
    fails, and [read(3)] then returns them. *)
Lemma read_past_the_end_fails_and_keeps_the_reader_usable_witness :
  let this := StreamReader.create [[x01; x02; x03]] tt in
  exists this',
    StreamReader.read this 5 = (this', Throw EndOfStream)
    /\ StreamReader.bytesRead this' = 0
    /\ StreamReader.read this' 3
       = (fst (StreamReader.read this' 3), Ok [x01; x02; x03])
    /\ StreamReader.bytesRead (fst (StreamReader.read this' 3)) = 3.
Proof.
  intros this.
  destruct (read_past_the_end_fails_and_keeps_the_reader_usable this 5)
    as (this' & Hrun & _ & Hbr & _ & _ & Hnext).
  - apply ModelFacts.wf_create.
  - reflexivity.
  - exists this'. split; [exact Hrun|]. split; [exact Hbr|].
    destruct (Hnext 3) as (this'' & Hrun3 & _ & Hbr3).
    + split; discriminate.
    + rewrite Hrun3. cbn [fst]. split; [reflexivity | exact Hbr3].
Defined.

(** C9.  [read(0)] succeeds in every state of the reader, also when the
    source is exhausted: it pulls nothing from the source, returns the empty
    array, leaves [bytesRead] and the unread bytes as they are, and every
    later sequence of calls gets the replies it would have got without it. *)
Theorem read_zero_changes_nothing
    {S : Type} {VR : ValueReader S} (this : StreamReader.t S) :
  StreamReader.wf this ->
  snd (StreamReader.read this 0) = Ok []
  /\ StreamReader.reader (fst (StreamReader.read this 0)) = StreamReader.reader this
  /\ StreamReader.bytesRead (fst (StreamReader.read this 0)) = StreamReader.bytesRead this
  /\ StreamReader.unread (fst (StreamReader.read this 0)) = StreamReader.unread this
  /\ StreamReader.wf (fst (StreamReader.read this 0))
  /\ forall rs : list StreamReader.Request,
       Forall (fun r => 0 <= StreamReader.requested r) rs ->
       snd (StreamReader.run (fst (StreamReader.read this 0)) rs)
       = snd (StreamReader.run this rs).
Proof.
  intros Hwf.
  assert (Hroom : 0 <= len (StreamReader.buffer this) - StreamReader.bufferOffset this
                       + len (concat (StreamReader.reader this))).
  { pose proof (len_nonneg (concat (StreamReader.reader this))).
    unfold StreamReader.wf in Hwf. lia. }
  destruct (WindowFacts.ensureLoop_enough (StreamReader.reader this)
              (StreamReader.buffer this) (StreamReader.bufferOffset this) 0 Hroom)
    as (src' & pulled & Hrun & _ & _ & Hsame).
  destruct Hsame as [-> ->]; [unfold StreamReader.wf in Hwf; lia|].
  rewrite app_nil_r in Hrun.
  unfold StreamReader.read, StreamReader.ensureBufferFilledToAtLeast.
  rewrite Hrun.
  cbn [StreamReader.buffer StreamReader.bufferOffset StreamReader.reader
       StreamReader.valueReader StreamReader.bytesRead fst snd].
  rewrite !Z.add_0_r.
  set (this2 := {| StreamReader.reader := StreamReader.reader this;
                   StreamReader.buffer := StreamReader.buffer this;
                   StreamReader.bufferOffset := StreamReader.bufferOffset this;
                   StreamReader.valueReader := StreamReader.valueReader this;
                   StreamReader.bytesRead := StreamReader.bytesRead this |}).
  assert (Hsame : this2 = this) by (destruct this; reflexivity).
  rewrite Hsame.
  destruct (WindowFacts.trimBuffer_view this Hwf) as (Hwf' & Hun & Hrd & Hvr & Hbr).
  split.
  { rewrite slice_in_range by (unfold StreamReader.wf in Hwf; lia).
    rewrite Z.sub_diag. reflexivity. }
  split; [exact Hrd|]. split; [exact Hbr|]. split; [exact Hun|]. split; [exact Hwf'|].
  intros rs Hrs.
  destruct (RefinementFacts.run_refines rs (StreamReader.trimBuffer this) Hwf' Hrs)
    as (_ & Hout1 & _).
  destruct (RefinementFacts.run_refines rs this Hwf Hrs) as (_ & Hout2 & _).
  rewrite Hout1, Hout2. unfold Model.ofReader. rewrite Hun, Hbr, Hvr. reflexivity.
Qed.

(** C9, at a concrete input: a reader whose source has nothing to deliver
    and whose window holds one unread byte. *)
Lemma read_zero_changes_nothing_witness :
  let this := {| StreamReader.reader := []; StreamReader.buffer := [x01; x02];
                 StreamReader.bufferOffset := 1; StreamReader.valueReader := tt;
                 StreamReader.bytesRead := 1 |} in
  snd (StreamReader.read this 0) = Ok []
  /\ StreamReader.reader (fst (StreamReader.read this 0)) = []
  /\ StreamReader.bytesRead (fst (StreamReader.read this 0)) = 1
  /\ StreamReader.unread (fst (StreamReader.read this 0)) = [x02].
Proof.
  intros this.
  destruct (read_zero_changes_nothing (VR := BitOps) this) as (H1 & H2 & H3 & H4 & _).
  - split; discriminate.
  - repeat split; assumption.
Defined.

(** C5.  Compaction is transparent.  Over any source chunking and for any
    sequence of [read(n)] calls, the reader of [reader.ts] returns the byte
    arrays and shows the [bytesRead] values of the reader of [stream.ts],
    which never compacts.  [trimBuffer] only drops bytes in front of the
    cursor and moves the cursor back by as many, so the unread bytes are the
    same before and after; when the cursor is past half the window length
    it drops the whole consumed prefix and resets the cursor to [0]; and
    (for a window below [2^32] bytes, where [>>> 1] halves exactly) it does
    nothing otherwise. *)
Theorem compaction_is_transparent
    {S : Type} {VR : ValueReader S}
    (chunks : list Uint8Array) (vr : S) (ns : list Z) :
  Forall (fun n => 0 <= n) ns ->
  snd (StreamReader.run (StreamReader.create chunks vr) (map StreamReader.ReadBytes ns))
    = map (fun o => (StreamReader.Bytes (fst o), snd o))
        (snd (Stream.reads (Stream.create chunks) ns))
  /\ forall this : StreamReader.t S,
       StreamReader.wf this ->
       (exists dropped,
          0 <= dropped <= StreamReader.bufferOffset this
          /\ StreamReader.buffer (StreamReader.trimBuffer this)
             = skipn (Z.to_nat dropped) (StreamReader.buffer this)
          /\ StreamReader.bufferOffset (StreamReader.trimBuffer this)
             = StreamReader.bufferOffset this - dropped)
       /\ StreamReader.unread (StreamReader.trimBuffer this) = StreamReader.unread this
       /\ StreamReader.bytesRead (StreamReader.trimBuffer this)
          = StreamReader.bytesRead this
       /\ (2 * StreamReader.bufferOffset this > len (StreamReader.buffer this) ->
           StreamReader.buffer (StreamReader.trimBuffer this)
             = skipn (Z.to_nat (StreamReader.bufferOffset this)) (StreamReader.buffer this)
           /\ StreamReader.bufferOffset (StreamReader.trimBuffer this) = 0)
       /\ (len (StreamReader.buffer this) < 2 ^ 32 ->
           2 * StreamReader.bufferOffset this <= len (StreamReader.buffer this) ->
           StreamReader.trimBuffer this = this).
Proof.
  intros Hns. split.
  - assert (Hrs : Forall (fun r => 0 <= StreamReader.requested r)
                    (map StreamReader.ReadBytes ns)).
    { apply Forall_map. exact Hns. }
    destruct (RefinementFacts.run_refines _ (StreamReader.create chunks vr)
                (ModelFacts.wf_create chunks vr) Hrs) as (_ & Hout & _).
    rewrite Hout.
    rewrite (ModelFacts.Stream_reads_refines ns (Stream.create chunks) vr);
      [reflexivity | | exact Hns].
    unfold Stream.wf. cbn. unfold len. cbn. lia.
  - intros this Hwf.
    destruct (WindowFacts.trimBuffer_view this Hwf) as (_ & Hun & _ & _ & Hbr).
    pose proof (len_nonneg (StreamReader.buffer this)) as Hlen.
    split; [|split; [exact Hun | split; [exact Hbr | split]]].
    + unfold StreamReader.trimBuffer.
      destruct (StreamReader.bufferOffset this >? JS.shr (len (StreamReader.buffer this)) 1).
      * exists (StreamReader.bufferOffset this).
        cbn [StreamReader.buffer StreamReader.bufferOffset].
        rewrite sliceFrom_in_range by exact Hwf.
        unfold StreamReader.wf in Hwf. repeat split; lia.
      * exists 0. unfold StreamReader.wf in Hwf. repeat split; try lia.
    + intros Hpast. unfold StreamReader.trimBuffer.
      pose proof (DrainFacts.shr_1_le_half _ Hlen) as Hhalf.
      destruct (Z.gtb_spec (StreamReader.bufferOffset this)
                  (JS.shr (len (StreamReader.buffer this)) 1)) as [Hgt|Hle].
      * cbn [StreamReader.buffer StreamReader.bufferOffset].
        rewrite sliceFrom_in_range by exact Hwf. split; reflexivity.
      * exfalso. Z.div_mod_to_equations. lia.
    + intros Hsmall Hnot. unfold StreamReader.trimBuffer.
      rewrite DrainFacts.shr_1_half by lia.
      destruct (Z.gtb_spec (StreamReader.bufferOffset this)
                  (len (StreamReader.buffer this) / 2)) as [Hgt|Hle].
      * exfalso. Z.div_mod_to_equations. lia.
      * reflexivity.
Qed.

(** C5, at a concrete input: five bytes arriving one by one, read by
    [read(2)], [read(1)], [read(2)]; the compacting reader and the one that
    never compacts give the same results. *)
Lemma compaction_is_transparent_witness :
  let chunks := [[x01]; [x02]; [x03]; [x04]; [x05]] in
  snd (StreamReader.run (StreamReader.create chunks tt)
         (map StreamReader.ReadBytes [2; 1; 2]))
  = map (fun o => (StreamReader.Bytes (fst o), snd o))
      (snd (Stream.reads (Stream.create chunks) [2; 1; 2])).
Proof.
  intros chunks.
  apply (compaction_is_transparent (VR := BitOps) chunks tt [2; 1; 2]).
  repeat constructor; discriminate.
Defined.

(** C7, as the claim states it, fails: after [read(3)] has consumed the three
    bytes of a source, the first [readUntilEof] already returns the empty
    array. *)
Lemma readUntilEof_first_call_can_be_empty :
  ~ (exists out,
       snd (StreamReader.readUntilEof
              (fst (StreamReader.read (StreamReader.create [[x01; x02; x03]] tt) 3)))
       = Ok out
       /\ out <> []).
Proof.
  intros (out & Hrun & Hne). vm_compute in Hrun.
  injection Hrun as <-. apply Hne. reflexivity.
Qed.

(** C7, amended.  [readUntilEof] never fails: the first call returns the
    unread bytes of the window followed by every chunk the source has still
    to deliver (a result that is empty exactly when nothing was unread),
    leaves the source exhausted and adds the number of bytes returned to
    [bytesRead]; a second call right after it returns the empty array and
    leaves [bytesRead] as it is. *)
Theorem readUntilEof_twice {S : Type} (this : StreamReader.t S) :
  StreamReader.wf this ->
  exists this1 this2,
    StreamReader.readUntilEof this
      = (this1, Ok (sliceFrom (StreamReader.buffer this) (StreamReader.bufferOffset this)
                      ++ concat (StreamReader.reader this)))
    /\ StreamReader.bytesRead this1
       = StreamReader.bytesRead this
         + len (sliceFrom (StreamReader.buffer this) (StreamReader.bufferOffset this)
                  ++ concat (StreamReader.reader this))
    /\ StreamReader.reader this1 = []
    /\ StreamReader.unread this1 = []
    /\ StreamReader.wf this1
    /\ sliceFrom (StreamReader.buffer this) (StreamReader.bufferOffset this)
         ++ concat (StreamReader.reader this) = StreamReader.unread this
    /\ StreamReader.readUntilEof this1 = (this2, Ok [])
    /\ StreamReader.bytesRead this2 = StreamReader.bytesRead this1.
Proof.
  intros Hwf.
  assert (Hdrain : forall that : StreamReader.t S,
    StreamReader.readUntilEof that
    = ({| StreamReader.reader := [];
          StreamReader.buffer := StreamReader.buffer that;
          StreamReader.bufferOffset := len (StreamReader.buffer that);
          StreamReader.valueReader := StreamReader.valueReader that;
          StreamReader.bytesRead :=
            StreamReader.bytesRead that
            + len (sliceFrom (StreamReader.buffer that) (StreamReader.bufferOffset that)
                     ++ concat (StreamReader.reader that)) |},
       Ok (sliceFrom (StreamReader.buffer that) (StreamReader.bufferOffset that)
             ++ concat (StreamReader.reader that)))).
  { intros that. unfold StreamReader.readUntilEof.
    rewrite DrainFacts.drainLoop_app, DrainFacts.fold_left_lengths.
    cbn [app concat]. rewrite Z.add_0_l. reflexivity. }
  pose proof (len_nonneg (StreamReader.buffer this)) as Hlen.
  assert (Htail : skipn (Z.to_nat (len (StreamReader.buffer this))) (StreamReader.buffer this)
                  = []).
  { apply skipn_all2. unfold len. lia. }
  eexists _, _. split; [apply Hdrain|].
  cbn [StreamReader.bytesRead StreamReader.reader].
  split; [reflexivity|]. split; [reflexivity|].
  split; [unfold StreamReader.unread;
          cbn [StreamReader.buffer StreamReader.bufferOffset StreamReader.reader concat];
          rewrite Htail; reflexivity|].
  split; [unfold StreamReader.wf; cbn [StreamReader.buffer StreamReader.bufferOffset]; lia|].
  split; [unfold StreamReader.unread; rewrite sliceFrom_in_range by exact Hwf; reflexivity|].
  rewrite Hdrain.
  cbn [StreamReader.buffer StreamReader.bufferOffset StreamReader.reader
       StreamReader.bytesRead StreamReader.valueReader concat].
  rewrite (sliceFrom_in_range (StreamReader.buffer this) (len (StreamReader.buffer this)))
    by lia.
  rewrite Htail. cbn [app].
  change (len (@nil byte)) with 0.
  split; [reflexivity|]. cbn [StreamReader.bytesRead]. lia.
Qed.

(** C7 amended, at a concrete input: two bytes of the window unread and one
    chunk still to come. *)
Lemma readUntilEof_twice_witness :
  let this := {| StreamReader.reader := [[x04; x05]];
                 StreamReader.buffer := [x01; x02; x03];
                 StreamReader.bufferOffset := 1; StreamReader.valueReader := tt;
                 StreamReader.bytesRead := 1 |} in
  exists this1 this2,
    StreamReader.readUntilEof this = (this1, Ok [x02; x03; x04; x05])
    /\ StreamReader.bytesRead this1 = 5
    /\ StreamReader.readUntilEof this1 = (this2, Ok [])
    /\ StreamReader.bytesRead this2 = 5.
Proof.
  intros this.
  destruct (readUntilEof_twice this) as (this1 & this2 & H1 & H2 & _ & _ & _ & _ & H3 & H4).
  - split; discriminate.
  - exists this1, this2. split; [exact H1|]. split; [exact H2|].
    split; [exact H3|]. rewrite H4. exact H2.
Defined.

(** ** Buffer-source coercion *)

(** C8.  [uint8ArrayFromBufferSource] on a view that is not a [Uint8Array]
    and does not span its whole [ArrayBuffer]: for a view of two bytes that
    starts one byte into a four-byte buffer the function returns an array
    over all four bytes of the buffer, not the two bytes [02 03] of the
    view. *)
Theorem uint8ArrayFromBufferSource_ignores_the_window_of_a_view :
  let storage := {| Buffer.ident := 0%nat; Buffer.isArrayBuffer := true;
                    Buffer.bytes := [x01; x02; x03; x04] |} in
  let view := {| Buffer.kind := Buffer.KOther; Buffer.viewBuffer := storage;
                 Buffer.byteOffset := 1; Buffer.byteLength := 2 |} in
  Buffer.sourceBytes (Buffer.SrcView view) = Some [x02; x03]
  /\ exists out,
       Buffer.uint8ArrayFromBufferSource (Buffer.SrcView view) = Ok out
       /\ Buffer.viewBytes out = [x01; x02; x03; x04]
       /\ Buffer.byteOffset out = 0
       /\ Buffer.byteLength out = 4.
Proof.
  intros storage view. split; [reflexivity|].
  exists (Buffer.wholeBuffer storage). repeat split.
Qed.

(** ** Determinism of the value readers *)

(** The proviso of C10, that the buffer has exactly the width of the
    operation, is what the 16-, 32- and 64-bit reads of [BitOpsValueReader]
    need: their loops run over the whole buffer, so a third byte handed to
    the 16-bit read shows in its result. *)
Lemma BitOps_16_bit_read_of_three_bytes :
  snd (readValue (VR := BitOps) W16 false tt [x01; x02; x03] Big) = Ok (Num 0x010203)
  /\ snd (readValue (VR := BitOps) W16 false tt [x01; x02; x04] Big) = Ok (Num 0x010204).
Proof. split; reflexivity. Qed.

(** C10.  Every operation of a value reader, handed a buffer of exactly
    its [W/8] bytes, is a function of those bytes and of the byte order
    only: whatever calls the two instances have served before, and whichever
    of the three implementations they are, two calls on equal bytes return
    equal results, the integer the bytes denote.  In particular nothing a
    previous call left in the scratch array of [DataViewValueReader] shows
    in a later result; this holds more widely, for any two buffers of [W/8]
    to 8 bytes that agree on their first [W/8] bytes.  So is it for the
    32- and 64-bit operations of [PerformanceValueReader], which are those
    of its [DataViewValueReader], and for the 8-bit operations of
    [BitOpsValueReader] and [PerformanceValueReader], which look at the
    first byte only. *)
Theorem value_reader_result_is_a_function_of_the_bytes
    (w : Width) (signed : bool) (endian : Endian) (buf1 buf2 : Uint8Array)
    (before1 before2 : list Call) :
  (widthBytes w <= length buf1 <= 8)%nat ->
  (widthBytes w <= length buf2 <= 8)%nat ->
  firstn (widthBytes w) buf1 = firstn (widthBytes w) buf2 ->
  snd (readValue (VR := DataViewVR) w signed
         (replay DataViewValueReader.create before1) buf1 endian)
    = snd (readValue (VR := DataViewVR) w signed
             (replay DataViewValueReader.create before2) buf2 endian)
  /\ (length buf1 = widthBytes w -> length buf2 = widthBytes w ->
      snd (readValue (VR := BitOps) w signed (replay tt before1) buf1 endian)
        = snd (readValue (VR := BitOps) w signed (replay tt before2) buf2 endian)
      /\ snd (readValue (VR := PerformanceVR) w signed
                (replay PerformanceValueReader.create before1) buf1 endian)
         = snd (readValue (VR := PerformanceVR) w signed
                  (replay PerformanceValueReader.create before2) buf2 endian)
      /\ snd (readValue (VR := BitOps) w signed (replay tt before1) buf1 endian)
         = Ok (Num (denoted w signed endian buf1))
      /\ snd (readValue (VR := DataViewVR) w signed
                (replay DataViewValueReader.create before1) buf1 endian)
         = Ok (Num (denoted w signed endian buf1))
      /\ snd (readValue (VR := PerformanceVR) w signed
                (replay PerformanceValueReader.create before1) buf1 endian)
         = Ok (Num (denoted w signed endian buf1)))
  /\ (w = W8 ->
      snd (readValue (VR := BitOps) w signed (replay tt before1) buf1 endian)
        = snd (readValue (VR := BitOps) w signed (replay tt before2) buf2 endian))
  /\ (w = W8 \/ w = W32 \/ w = W64 ->
      snd (readValue (VR := PerformanceVR) w signed
             (replay PerformanceValueReader.create before1) buf1 endian)
        = snd (readValue (VR := PerformanceVR) w signed
                 (replay PerformanceValueReader.create before2) buf2 endian)).
Proof.
  intros Hlen1 Hlen2 Hsame.
  assert (Hdv : forall before,
    length (DataViewValueReader.scratchBuf
              (replay (VR := DataViewVR) DataViewValueReader.create before)) = 8%nat)
    by (intros before; apply ScratchFacts.replay_DataView_scratch; reflexivity).
  assert (Hpv : forall before,
    length (DataViewValueReader.scratchBuf
              (PerformanceValueReader.dv
                 (replay (VR := PerformanceVR) PerformanceValueReader.create before)))
    = 8%nat)
    by (intros before; apply ScratchFacts.replay_Performance_scratch; reflexivity).
  split; [|split; [|split]].
  - rewrite !ReaderFacts.DataView_prefix by (try apply Hdv; assumption).
    cbn [snd]. rewrite Hsame. reflexivity.
  - intros Hexact1 Hexact2.
    assert (Hbuf : buf1 = buf2).
    { rewrite <- (firstn_all buf1), <- (firstn_all buf2), Hexact1, Hexact2. exact Hsame. }
    subst buf2.
    rewrite !ReaderFacts.BitOps_exact by assumption.
    rewrite !ReaderFacts.Performance_exact by (try apply Hpv; assumption).
    rewrite !ReaderFacts.DataView_exact by (try apply Hdv; assumption).
    repeat split.
  - intros ->. apply ReaderFacts.BitOps_first_byte. exact Hsame.
  - intros [-> | Hw].
    + apply ReaderFacts.Performance_first_byte. exact Hsame.
    + rewrite !ReaderFacts.Performance_prefix by (try apply Hpv; assumption).
      rewrite Hsame. reflexivity.
Qed.

(** C10, at a concrete input: the bytes [01 02] read as a 16-bit number by
    a fresh instance and by one whose previous call filled the scratch array
    with [ff]. *)
Lemma value_reader_result_is_a_function_of_the_bytes_witness :
  let filled := [{| callWidth := W64; callSigned := false;
                    callBuf := [xff; xff; xff; xff; xff; xff; xff; xff];
                    callEndian := Big |}] in
  snd (readValue (VR := DataViewVR) W16 false
         (replay DataViewValueReader.create []) [x01; x02] Big)
  = snd (readValue (VR := DataViewVR) W16 false
           (replay DataViewValueReader.create filled) [x01; x02] Big).
Proof.
  intros filled.
  destruct (value_reader_result_is_a_function_of_the_bytes W16 false Big
              [x01; x02] [x01; x02] [] filled) as [Hsame _].
  - cbn. lia.
  - cbn. lia.
  - reflexivity.
  - exact Hsame.
Defined.

(** * Further properties of the code *)

(** ** BitOpsValueReader on buffers of any length *)

Module AnyLengthFacts.

Import JS JSFacts Platform DigitFacts BitOpsValueReader BitOpsFacts ReaderFacts WindowFacts.

(** The big-endian loop keeps the low 32 bits of the digits read so far. *)
Lemma bigLoop_mod (rest : Uint8Array) : forall r : Z,
  ToUint32 (bigLoop rest r)
  = (ToUint32 r * 256 ^ len rest + leValue (rev rest)) mod 2 ^ 32.
Proof.
  induction rest as [|b rest IH]; intros r.
  - cbn [bigLoop rev leValue]. change (len (@nil byte)) with 0.
    rewrite Z.pow_0_r, Z.mul_1_r, Z.add_0_r. symmetry.
    apply Z.mod_small. apply ToUint32_range.
  - cbn [bigLoop]. rewrite IH. clear IH.
    pose proof (byte_val_range b) as Hb.
    pose proof (len_nonneg rest) as Hn.
    set (t := ToUint32 r).
    assert (Hstep : ToUint32 (bor (shl r 8) (byte_val b))
                    = (t * 256) mod 2 ^ 32 + byte_val b).
    { rewrite ToUint32_bor, ToUint32_shl by lia. fold t.
      change (2 ^ 8) with 256.
      rewrite (ToUint32_small (byte_val b)) by (rewrite pow32; lia).
      unfold ToUint32 at 1.
      change (2 ^ 32) with (2 ^ 24 * 2 ^ 8). change 256 with (2 ^ 8).
      rewrite !Z.mul_mod_distr_r by lia.
      apply lor_disjoint_add; [lia|]. change (2 ^ 8) with 256. exact Hb. }
    rewrite Hstep. cbn [rev]. rewrite leValue_app, len_rev, len_cons.
    cbn [leValue]. rewrite Z.pow_add_r, Z.pow_1_r by lia.
    pose proof (Z.div_mod (t * 256) (2 ^ 32)) as Hdm.
    set (X := (t * 256) mod 2 ^ 32) in *. set (q := (t * 256) / 2 ^ 32) in *.
    set (P := 256 ^ len rest). set (lv := leValue (rev rest)).
    replace (t * (256 * P) + (lv + P * (byte_val b + 256 * 0)))
      with ((X + byte_val b) * P + lv + (q * P) * 2 ^ 32).
    + rewrite Z.mod_add by lia. reflexivity.
    + assert (Hd : t * 256 = 2 ^ 32 * q + X) by (apply Hdm; lia).
      replace (t * (256 * P)) with ((t * 256) * P) by ring. rewrite Hd. ring.
Qed.

Lemma skipn_past {A} (l : list A) (i : Z) :
  len l - i <= 0 -> skipn (Z.to_nat i) l = [].
Proof. intros H. apply skipn_all2. unfold len in H. lia. Qed.

Lemma chunk_at (buffer : Uint8Array) (i : Z) :
  0 <= i ->
  slice buffer i (i + CHUNK_SIZE) = firstn 4 (skipn (Z.to_nat i) buffer).
Proof.
  intros Hi. unfold CHUNK_SIZE. rewrite slice_in_range by lia.
  replace (Z.to_nat (i + 4 - i)) with 4%nat by lia. reflexivity.
Qed.

Lemma len_firstn_le {A} (l : list A) (n : nat) : len (firstn n l) <= Z.of_nat n.
Proof. unfold len. rewrite length_firstn. lia. Qed.

Lemma len_split4 {A} (l : list A) : len l = len (firstn 4 l) + len (skipn 4 l).
Proof. rewrite <- len_app, firstn_skipn. reflexivity. Qed.

Lemma pow2_bytes (n : Z) : 0 <= n -> 2 ^ (n * 8) = 256 ^ n.
Proof.
  intros Hn. change 256 with (2 ^ 8). rewrite <- Z.pow_mul_r by lia. f_equal. lia.
Qed.

Lemma bigIntLoopBig_exact (buffer : Uint8Array) : forall (fuel : nat) (i r : Z),
  0 <= i -> len buffer - i <= Z.of_nat fuel ->
  bigIntLoopBig fuel buffer i r
  = r * 256 ^ len (skipn (Z.to_nat i) buffer)
    + leValue (rev (skipn (Z.to_nat i) buffer)).
Proof.
  induction fuel as [|fuel IH]; intros i r Hi Hfuel.
  - cbn [bigIntLoopBig]. rewrite skipn_past by lia.
    change (len (@nil byte)) with 0. cbn [rev leValue]. lia.
  - cbn [bigIntLoopBig]. destruct (Z.ltb_spec i (len buffer)) as [Hlt|Hge].
    + cbv zeta. rewrite chunk_at by exact Hi.
      set (rest := skipn (Z.to_nat i) buffer).
      set (c := firstn 4 rest).
      pose proof (len_firstn_le rest 4) as Hc. fold c in Hc.
      pose proof (len_nonneg c) as Hc0.
      rewrite bufferToUnsignedNumber_exact by lia. cbn [isLittle].
      pose proof (leValue_range (rev c)) as Hpart. rewrite len_rev in Hpart.
      rewrite Z.shiftl_mul_pow2 by lia.
      rewrite lor_disjoint_add by (rewrite ?pow2_bytes; lia).
      rewrite pow2_bytes by lia.
      assert (Hval : leValue (rev rest)
                     = leValue (rev (skipn 4 rest))
                       + 256 ^ len (skipn 4 rest) * leValue (rev c)).
      { rewrite <- (firstn_skipn 4 rest) at 1. fold c.
        rewrite rev_app_distr, leValue_app, len_rev. reflexivity. }
      rewrite IH by (unfold CHUNK_SIZE; lia).
      unfold CHUNK_SIZE. rewrite skipn_add by lia. fold rest.
      change (Z.to_nat 4) with 4%nat.
      rewrite Hval, (len_split4 rest). fold c.
      pose proof (len_nonneg (skipn 4 rest)) as Hs0.
      rewrite Z.pow_add_r by lia. ring.
    + rewrite skipn_past by lia.
      change (len (@nil byte)) with 0. cbn [rev leValue]. lia.
Qed.

Lemma bigIntLoopLittle_exact (buffer : Uint8Array) : forall (fuel : nat) (i sh r : Z),
  0 <= i -> len buffer - i <= Z.of_nat fuel -> 0 <= sh -> 0 <= r < 2 ^ sh ->
  bigIntLoopLittle fuel buffer i sh r
  = r + 2 ^ sh * leValue (skipn (Z.to_nat i) buffer).
Proof.
  induction fuel as [|fuel IH]; intros i sh r Hi Hfuel Hsh Hr.
  - cbn [bigIntLoopLittle]. rewrite skipn_past by lia. cbn [leValue]. lia.
  - cbn [bigIntLoopLittle]. destruct (Z.ltb_spec i (len buffer)) as [Hlt|Hge].
    + cbv zeta. rewrite chunk_at by exact Hi.
      set (rest := skipn (Z.to_nat i) buffer).
      set (c := firstn 4 rest).
      pose proof (len_firstn_le rest 4) as Hc. fold c in Hc.
      pose proof (len_nonneg c) as Hc0.
      rewrite bufferToUnsignedNumber_exact by lia. cbn [isLittle].
      pose proof (leValue_range c) as Hpart.
      assert (Hpow : 0 < 2 ^ sh) by (apply Z.pow_pos_nonneg; lia).
      rewrite Z.shiftl_mul_pow2 by lia.
      rewrite Z.lor_comm, lor_disjoint_add by lia.
      assert (Hval : leValue rest
                     = leValue c + 256 ^ len c * leValue (skipn 4 rest)).
      { rewrite <- (firstn_skipn 4 rest) at 1. fold c. apply leValue_app. }
      rewrite IH; try (unfold CHUNK_SIZE; lia).
      * unfold CHUNK_SIZE. rewrite skipn_add by lia. fold rest.
        change (Z.to_nat 4) with 4%nat.
        rewrite Z.pow_add_r, pow2_bytes by lia.
        rewrite Hval. ring.
      * rewrite Z.pow_add_r, pow2_bytes by lia. nia.
    + rewrite skipn_past by lia. cbn [leValue]. lia.
Qed.

End AnyLengthFacts.

(** X1.  [bufferToUnsignedBigInt] is exact on a buffer of any length, not
    only on eight bytes: in both byte orders it returns the integer whose
    base-256 digits are the bytes of the buffer, a shorter last chunk
    included. *)
Theorem bufferToUnsignedBigInt_exact_any_length (buffer : Uint8Array) (endian : Endian) :
  BitOpsValueReader.bufferToUnsignedBigInt buffer endian = base256 endian buffer.
Proof.
  rewrite ReaderFacts.base256_leValue. unfold BitOpsValueReader.bufferToUnsignedBigInt.
  destruct endian; cbn [isLittle].
  - rewrite AnyLengthFacts.bigIntLoopLittle_exact; try lia.
    + cbn [Z.to_nat skipn]. lia.
    + unfold len. lia.
  - rewrite AnyLengthFacts.bigIntLoopBig_exact; try lia.
    + cbn [Z.to_nat skipn]. lia.
    + unfold len. lia.
Qed.

(** X2.  [bufferToUnsignedNumber] always returns an unsigned 32-bit number,
    and in big-endian order, on a buffer of any length, that number is the
    low 32 bits of the integer the bytes denote (the bytes before the last
    four are shifted out). *)
Theorem bufferToUnsignedNumber_big_keeps_low_32_bits (buffer : Uint8Array) (endian : Endian) :
  0 <= BitOpsValueReader.bufferToUnsignedNumber buffer endian < 2 ^ 32
  /\ BitOpsValueReader.bufferToUnsignedNumber buffer Big
     = base256 Big buffer mod 2 ^ 32.
Proof.
  unfold BitOpsValueReader.bufferToUnsignedNumber. rewrite !JSFacts.shr_0. split.
  - apply JSFacts.ToUint32_range.
  - rewrite AnyLengthFacts.bigLoop_mod, ReaderFacts.base256_leValue. cbn [isLittle].
    rewrite (JSFacts.ToUint32_small 0) by (rewrite JSFacts.pow32; lia).
    rewrite Z.mul_0_l, Z.add_0_l. reflexivity.
Qed.

(** X3.  On a buffer of at most four bytes (one and three bytes included,
    widths no typed read asks for) [bufferToUnsignedNumber] is exact in both
    byte orders. *)
Theorem bufferToUnsignedNumber_exact_up_to_four_bytes
    (buffer : Uint8Array) (endian : Endian) :
  (length buffer <= 4)%nat ->
  BitOpsValueReader.bufferToUnsignedNumber buffer endian = base256 endian buffer.
Proof.
  intros Hlen. rewrite ReaderFacts.base256_leValue.
  apply BitOpsFacts.bufferToUnsignedNumber_exact. unfold len. lia.
Qed.

(** X3, at a concrete input: three bytes in little-endian order. *)
Lemma bufferToUnsignedNumber_exact_up_to_four_bytes_witness :
  BitOpsValueReader.bufferToUnsignedNumber [x01; x02; xff] Little
  = base256 Little [x01; x02; xff].
Proof.
  apply (bufferToUnsignedNumber_exact_up_to_four_bytes [x01; x02; xff] Little).
  cbn. lia.
Defined.

(** ** BitOpsValueReader: sign conversion in general, and what never fails *)

Module SignedFacts.

Import JS JSFacts Platform DigitFacts BitOpsValueReader SignFacts.

Lemma ToInt32_mod_pow2 (u bits : Z) :
  0 <= bits <= 32 -> ToInt32 u mod 2 ^ bits = u mod 2 ^ bits.
Proof.
  intros Hb.
  assert (Hdiv : (2 ^ bits | 2 ^ 32)).
  { exists (2 ^ (32 - bits)). rewrite <- Z.pow_add_r by lia. f_equal. lia. }
  rewrite <- (Z.mod_mod_divide (ToInt32 u) (2 ^ 32) (2 ^ bits)) by exact Hdiv.
  fold (ToUint32 (ToInt32 u)). rewrite ToUint32_ToInt32. unfold ToUint32.
  apply Z.mod_mod_divide. exact Hdiv.
Qed.

Lemma ToInt32_range (x : Z) : - 2 ^ 31 <= ToInt32 x < 2 ^ 31.
Proof.
  unfold ToInt32. rewrite pow32, pow31.
  destruct (Z.leb_spec 2147483648 (x mod 4294967296));
    Z.div_mod_to_equations; lia.
Qed.

Lemma mask_value (bits : Z) : 1 <= bits <= 31 -> ToInt32 (shl 1 bits - 1) = 2 ^ bits - 1.
Proof.
  intros Hb. destruct (Z.eq_dec bits 31) as [->|Hne]; [reflexivity|].
  assert (Hpow : 2 ^ bits <= 2 ^ 30) by (apply Z.pow_le_mono_r; lia).
  assert (Hpos : 0 < 2 ^ bits) by (apply Z.pow_pos_nonneg; lia).
  change (2 ^ 30) with 1073741824 in Hpow.
  unfold shl. rewrite shiftCount_small by lia.
  rewrite (ToInt32_small 1) by (rewrite pow31; lia).
  rewrite Z.shiftl_1_l.
  rewrite (ToInt32_small (2 ^ bits)) by (rewrite pow31; lia).
  apply ToInt32_small. rewrite pow31. lia.
Qed.

Lemma twosComplement_range (bits x : Z) :
  0 < bits -> 0 <= x < 2 ^ bits ->
  - 2 ^ (bits - 1) <= twosComplement bits x <= 2 ^ (bits - 1) - 1.
Proof.
  intros Hb Hx. unfold twosComplement.
  assert (Hpow : 2 ^ bits = 2 * 2 ^ (bits - 1)).
  { rewrite <- Z.pow_succ_r by lia. f_equal. lia. }
  destruct (Z.ltb_spec x (2 ^ (bits - 1))); lia.
Qed.

Lemma toSignedNumber_general (u bits : Z) :
  0 <= u -> 1 <= bits <= 31 ->
  toSignedNumber u bits = Ok (twosComplement bits (u mod 2 ^ bits)).
Proof.
  intros Hu Hb. unfold toSignedNumber.
  assert ((u <? 0) = false) as -> by lia.
  assert (Hpos : 0 < 2 ^ bits) by (apply Z.pow_pos_nonneg; lia).
  assert (Hlow : band u (shl 1 bits - 1) = u mod 2 ^ bits).
  { unfold band. rewrite mask_value by exact Hb.
    replace (2 ^ bits - 1) with (Z.ones bits) by (rewrite Z.ones_equiv; lia).
    rewrite Z.land_ones by lia. apply ToInt32_mod_pow2. lia. }
  rewrite Hlow.
  rewrite sar_shl_signed by (try apply Z.mod_pos_bound; lia).
  unfold twosComplement.
  destruct (Z.leb_spec (2 ^ (bits - 1)) (u mod 2 ^ bits));
    destruct (Z.ltb_spec (u mod 2 ^ bits) (2 ^ (bits - 1))); try reflexivity; lia.
Qed.

Lemma bufferToUnsignedNumber_nonneg (buffer : Uint8Array) (endian : Endian) :
  0 <= bufferToUnsignedNumber buffer endian.
Proof.
  unfold bufferToUnsignedNumber. rewrite shr_0. apply ToUint32_range.
Qed.

End SignedFacts.

(** X4.  [toSignedNumber] for every width from 1 to 31 bits: a number
    [u >= 0] (of any size) is reduced to its low [bits] bits and those are
    read as two's complement. *)
Theorem toSignedNumber_is_twos_complement_of_the_low_bits (u bits : Z) :
  0 <= u -> 1 <= bits <= 31 ->
  BitOpsValueReader.toSignedNumber u bits = Ok (twosComplement bits (u mod 2 ^ bits))
  /\ - 2 ^ (bits - 1) <= twosComplement bits (u mod 2 ^ bits) <= 2 ^ (bits - 1) - 1.
Proof.
  intros Hu Hb. split.
  - apply SignedFacts.toSignedNumber_general; assumption.
  - apply SignedFacts.twosComplement_range; [lia|].
    apply Z.mod_pos_bound. apply Z.pow_pos_nonneg; lia.
Qed.

(** X4, at a concrete input: [0x1ff] at 8 bits is [-1]. *)
Lemma toSignedNumber_is_twos_complement_of_the_low_bits_witness :
  BitOpsValueReader.toSignedNumber 511 8 = Ok (twosComplement 8 (511 mod 2 ^ 8))
  /\ - 2 ^ (8 - 1) <= twosComplement 8 (511 mod 2 ^ 8) <= 2 ^ (8 - 1) - 1.
Proof.
  apply (toSignedNumber_is_twos_complement_of_the_low_bits 511 8); lia.
Defined.

(** X5.  The edges of [toSignedNumber]: a negative [u] is refused with a
    [RangeError] at every width, and at [bits = 32] the mask [(1 << 32) - 1]
    is [0] (the shift count wraps), so every [u >= 0] comes back as [0]. *)
Theorem toSignedNumber_edges (u bits : Z) :
  (u < 0 -> BitOpsValueReader.toSignedNumber u bits = Throw RangeError)
  /\ (0 <= u -> BitOpsValueReader.toSignedNumber u 32 = Ok 0).
Proof.
  unfold BitOpsValueReader.toSignedNumber. split; intros Hu.
  - assert ((u <? 0) = true) as -> by lia. reflexivity.
  - assert ((u <? 0) = false) as -> by lia.
    change (JS.shl 1 32 - 1) with 0. unfold JS.band.
    change (JS.ToInt32 0) with 0. rewrite Z.land_0_r. reflexivity.
Qed.

(** X6.  No read of [BitOpsValueReader] throws, whatever the buffer: the
    [RangeError] of [toSignedNumber] is out of reach, because the number
    handed to it went through [>>> 0].  On the empty buffer [readUint8]
    gives [undefined] and the seven other reads give [0]. *)
Theorem BitOps_reads_never_throw
    (w : Width) (signed : bool) (endian : Endian) (buf : Uint8Array) (s : unit) :
  (exists v, snd (readValue (VR := BitOps) w signed s buf endian) = Ok v)
  /\ snd (readValue (VR := BitOps) w signed s [] endian)
     = Ok (match w, signed with W8, false => Undefined | _, _ => Num 0 end).
Proof.
  split.
  - destruct w, signed; cbn [readValue readInt8 readInt16 readInt32 readInt64
      readUint8 readUint16 readUint32 readUint64 BitOps snd];
      try (eexists; reflexivity).
    + unfold BitOpsValueReader.readInt8. destruct (nth_error buf 0) as [b|].
      * rewrite SignedFacts.toSignedNumber_general
          by (try apply byte_val_range; lia).
        eexists. reflexivity.
      * eexists. reflexivity.
    + unfold BitOpsValueReader.readUint8.
      destruct (nth_error buf 0); eexists; reflexivity.
    + unfold BitOpsValueReader.readInt16.
      rewrite SignedFacts.toSignedNumber_general
        by (try apply SignedFacts.bufferToUnsignedNumber_nonneg; lia).
      eexists. reflexivity.
  - destruct w, signed, endian; reflexivity.
Qed.

(** X7.  The signed reads of [BitOpsValueReader] stay inside the signed
    range of their width on a buffer of any length, also where the buffer is
    longer than the width and the unsigned reads do not. *)
Theorem BitOps_signed_reads_fit_their_width
    (w : Width) (endian : Endian) (buf : Uint8Array) (s : unit) :
  exists z,
    snd (readValue (VR := BitOps) w true s buf endian) = Ok (Num z)
    /\ minValue w true <= z <= maxValue w true.
Proof.
  unfold minValue, maxValue.
  destruct w; cbn [readValue readInt8 readInt16 readInt32 readInt64 BitOps snd].
  - unfold BitOpsValueReader.readInt8.
    assert (Hgen : forall u, 0 <= u ->
      exists z, BitOpsValueReader.liftNum (BitOpsValueReader.toSignedNumber u 8) = Ok (Num z)
                /\ - 2 ^ (widthBits W8 - 1) <= z <= 2 ^ (widthBits W8 - 1) - 1).
    { intros u Hu. rewrite SignedFacts.toSignedNumber_general by lia.
      eexists. split; [reflexivity|].
      apply (SignedFacts.twosComplement_range 8); [lia|].
      apply Z.mod_pos_bound. reflexivity. }
    destruct (nth_error buf 0) as [b|]; apply Hgen;
      [apply byte_val_range | lia].
  - unfold BitOpsValueReader.readInt16.
    rewrite SignedFacts.toSignedNumber_general
      by (try apply SignedFacts.bufferToUnsignedNumber_nonneg; lia).
    eexists. split; [reflexivity|].
    apply (SignedFacts.twosComplement_range 16); [lia|].
    apply Z.mod_pos_bound. reflexivity.
  - unfold BitOpsValueReader.readInt32. eexists. split; [reflexivity|].
    rewrite JSFacts.bor_0_r.
    pose proof (SignedFacts.ToInt32_range
                  (BitOpsValueReader.bufferToUnsignedNumber buf endian)) as Hr.
    change (widthBits W32 - 1) with 31. lia.
  - unfold BitOpsValueReader.readInt64. cbv zeta.
    set (u := BitOpsValueReader.bufferToUnsignedBigInt buf endian).
    assert (Hui : 0 <= Z.land u (Z.shiftl 1 64 - 1) < 2 ^ 64).
    { rewrite Z.shiftl_1_l.
      replace (2 ^ 64 - 1) with (Z.ones 64) by (rewrite Z.ones_equiv; reflexivity).
      rewrite Z.land_ones by lia. apply Z.mod_pos_bound. reflexivity. }
    set (ui := Z.land u (Z.shiftl 1 64 - 1)) in *.
    eexists. split; [reflexivity|].
    rewrite BigIntFacts.land_sign_bit by exact Hui.
    rewrite Z.shiftl_1_l. change (widthBits W64 - 1) with 63.
    change (2 ^ 64) with (2 * 2 ^ 63) in *.
    destruct (Z.ltb_spec ui (2 ^ 63)); cbn [negb]; lia.
Qed.

(** ** DataViewValueReader on buffers of any length *)

Module ScratchFrontFacts.

Import Platform DigitFacts ReaderFacts.

Lemma rawBytes_front (data : Uint8Array) (size : nat) :
  (size <= length data)%nat -> rawBytes data 0 size = Ok (firstn size data).
Proof.
  intros Hsize. unfold rawBytes.
  assert (((0 <? 0) || (len data <? 0 + Z.of_nat size)) = false) as ->
    by (unfold len; apply orb_false_iff; split; lia).
  reflexivity.
Qed.

Lemma loadThen_front (this : DataViewValueReader.t) (buf : Uint8Array)
    (size : nat) (le signed : bool) :
  length (DataViewValueReader.scratchBuf this) = 8%nat ->
  (length buf <= 8)%nat -> (size <= 8)%nat ->
  DataViewValueReader.loadThen this buf
    (fun d => if signed then getInt size d 0 le else getUint size d 0 le)
  = (loaded this buf,
     Ok (Num (let raw := firstn size (DataViewValueReader.scratchBuf (loaded this buf)) in
              let u := leValue (if le then raw else rev raw) in
              if signed then asSigned size u else u))).
Proof.
  intros Hs Hbuf Hsize. unfold DataViewValueReader.loadThen.
  rewrite loadBuffer_fits by lia.
  assert (Hlen : length (DataViewValueReader.scratchBuf (loaded this buf)) = 8%nat)
    by (rewrite length_loaded; lia).
  destruct signed; unfold getInt, getUint; rewrite rawBytes_front by lia; reflexivity.
Qed.

Lemma loadBuffer_too_long (this : DataViewValueReader.t) (buf : Uint8Array) :
  (length (DataViewValueReader.scratchBuf this) < length buf)%nat ->
  DataViewValueReader.loadBuffer this buf = (this, Throw RangeError).
Proof.
  intros Hlong. unfold DataViewValueReader.loadBuffer, typedArraySet.
  assert (((0 <? 0) || (len (DataViewValueReader.scratchBuf this) <? len buf + 0)) = true)
    as -> by (unfold len; apply orb_true_iff; right; lia).
  reflexivity.
Qed.

End ScratchFrontFacts.

(** X8.  [DataViewValueReader] on a buffer of any length.  A buffer of at
    most eight bytes is copied over the front of the scratch array and the
    read decodes the first [W/8] bytes of the scratch array as it then
    stands, so a buffer shorter than the width is completed with bytes an
    earlier call left there; a buffer of more than eight bytes makes the
    read throw a [RangeError] and leaves the scratch array as it was. *)
Theorem DataView_decodes_the_front_of_its_scratch_array
    (w : Width) (signed : bool) (endian : Endian)
    (buf : Uint8Array) (this : DataViewValueReader.t) :
  length (DataViewValueReader.scratchBuf this) = 8%nat ->
  ((length buf <= 8)%nat ->
   readValue (VR := DataViewVR) w signed this buf endian
   = (loaded this buf,
      Ok (Num (denoted w signed endian
                 (firstn (widthBytes w)
                    (buf ++ skipn (length buf) (DataViewValueReader.scratchBuf this)))))))
  /\ ((8 < length buf)%nat ->
      readValue (VR := DataViewVR) w signed this buf endian = (this, Throw RangeError)).
Proof.
  intros Hs. split.
  - intros Hbuf. unfold denoted, widthBits.
    rewrite <- ReaderFacts.asSigned_twosComplement, ReaderFacts.base256_leValue.
    assert (Hlen : length (DataViewValueReader.scratchBuf (loaded this buf)) = 8%nat)
      by (rewrite ReaderFacts.length_loaded; lia).
    assert (H1 : length (firstn (widthBytes w)
                           (DataViewValueReader.scratchBuf (loaded this buf)))
                 = widthBytes w)
      by (rewrite length_firstn, Hlen; destruct w; reflexivity).
    change (buf ++ skipn (length buf) (DataViewValueReader.scratchBuf this))
      with (DataViewValueReader.scratchBuf (loaded this buf)).
    destruct w, signed; cbn [readValue widthBytes] in *;
      cbn [readInt8 readInt16 readInt32 readInt64
           readUint8 readUint16 readUint32 readUint64 DataViewVR];
      unfold DataViewValueReader.readInt8, DataViewValueReader.readUint8,
        DataViewValueReader.readInt16, DataViewValueReader.readUint16,
        DataViewValueReader.readInt32, DataViewValueReader.readUint32,
        DataViewValueReader.readInt64, DataViewValueReader.readUint64;
      first [ rewrite (ScratchFrontFacts.loadThen_front this buf _ _ true Hs Hbuf) by lia
            | rewrite (ScratchFrontFacts.loadThen_front this buf _ _ false Hs Hbuf) by lia ];
      cbv zeta; try reflexivity;
      destruct endian; cbn [isLittle];
      rewrite ?ReaderFacts.leValue_single_rev by exact H1; reflexivity.
  - intros Hlong.
    assert (Hload : forall get,
      DataViewValueReader.loadThen this buf get = (this, Throw RangeError)).
    { intros get. unfold DataViewValueReader.loadThen.
      rewrite ScratchFrontFacts.loadBuffer_too_long by lia. reflexivity. }
    destruct w, signed; apply Hload.
Qed.

(** X8, at a concrete input: after a read of [09 07], the 16-bit read of
    the one-byte buffer [01] sees [01 07]; nine bytes are refused. *)
Lemma DataView_decodes_the_front_of_its_scratch_array_witness :
  let this := fst (readValue (VR := DataViewVR) W16 false DataViewValueReader.create
                     [x09; x07] Big) in
  snd (readValue (VR := DataViewVR) W16 false this [x01] Big) = Ok (Num 263)
  /\ readValue (VR := DataViewVR) W16 false this
       [x01; x02; x03; x04; x05; x06; x07; x08; x09] Big
     = (this, Throw RangeError).
Proof.
  intros this.
  destruct (DataView_decodes_the_front_of_its_scratch_array W16 false Big [x01] this)
    as [Hshort _]; [reflexivity|].
  destruct (DataView_decodes_the_front_of_its_scratch_array W16 false Big
              [x01; x02; x03; x04; x05; x06; x07; x08; x09] this)
    as [_ Hlong]; [reflexivity|].
  split.
  - rewrite Hshort by (cbn; lia). reflexivity.
  - apply Hlong. cbn. lia.
Defined.

(** ** StreamWriter: the bytes of a typed write, for any value *)

Module EncodedFacts.

Import Platform DigitFacts ReaderFacts WriterFacts StreamWriter.

Lemma length_encoded (w : Width) (endian : Endian) (v : Z) :
  length (encoded w endian v) = widthBytes w.
Proof.
  unfold encoded. destruct (isLittle endian); rewrite ?length_rev; apply length_leBytes.
Qed.

Lemma base256_encoded (w : Width) (endian : Endian) (v : Z) :
  base256 endian (encoded w endian v) = v mod 2 ^ widthBits w.
Proof.
  rewrite base256_leValue. unfold widthBits, encoded.
  rewrite Z.pow_mul_r by lia. change (2 ^ 8) with 256.
  rewrite <- leValue_leBytes.
  destruct endian; cbn [isLittle]; rewrite ?rev_involutive; reflexivity.
Qed.

Lemma leBytes_mod (n : nat) (v : Z) : leBytes n (v mod 256 ^ Z.of_nat n) = leBytes n v.
Proof.
  rewrite <- leValue_leBytes.
  rewrite <- (length_leBytes n v) at 1. apply leBytes_leValue.
Qed.

Lemma encoded_mod (w : Width) (endian : Endian) (v : Z) :
  encoded w endian (v mod 2 ^ widthBits w) = encoded w endian v.
Proof.
  unfold encoded, widthBits. rewrite Z.pow_mul_r by lia. change (2 ^ 8) with 256.
  rewrite leBytes_mod. reflexivity.
Qed.

(** A typed write, spelled out. *)
Lemma writeValue_encoded (w : Width) (signed : bool) (this : t) (v : Z) (endian : Endian) :
  length (buffer this) = 8%nat ->
  writeValue w signed this v endian
  = ({| writer := writer this ++ [encoded w endian v];
        buffer := encoded w endian v ++ skipn (widthBytes w) (buffer this) |},
     Ok (Z.of_nat (widthBytes w))).
Proof.
  intros Hbuf. unfold encoded.
  destruct w, signed; cbn [writeValue widthBytes].
  - unfold writeInt8. change 1 with (Z.of_nat 1).
    rewrite (setInt_then_write this 1 v false) by lia.
    destruct endian; reflexivity.
  - unfold writeUint8, storeThenWrite, typedArraySet.
    assert (((0 <? 0) || (len (buffer this) <? len [ToUint8 v] + 0)) = false) as ->
      by (unfold len; rewrite Hbuf; reflexivity).
    unfold write. cbn [writer buffer Z.to_nat firstn app Nat.add length].
    rewrite slice_in_range by lia. destruct endian; reflexivity.
  - apply (setInt_then_write this 2 v (isLittle endian)). lia.
  - apply (setInt_then_write this 2 v (isLittle endian)). lia.
  - apply (setInt_then_write this 4 v (isLittle endian)). lia.
  - apply (setInt_then_write this 4 v (isLittle endian)). lia.
  - apply (setInt_then_write this 8 v (isLittle endian)). lia.
  - apply (setInt_then_write this 8 v (isLittle endian)). lia.
Qed.

Lemma denoted_encoded (w : Width) (signed : bool) (endian : Endian) (v : Z) :
  representable w signed v -> denoted w signed endian (encoded w endian v) = v.
Proof.
  intros Hrep. unfold denoted. rewrite base256_encoded.
  apply representable_roundtrip. exact Hrep.
Qed.

End EncodedFacts.

(** X9.  A typed write of any integer, representable or not.  The write
    succeeds, returns [W/8] and hands the sink one chunk of [W/8] bytes whose
    base-256 value in the requested order is [v mod 2^W]; the signed and the
    unsigned write of a width emit the same bytes, and so does the write of
    [v mod 2^W]; the big-endian chunk is the little-endian chunk reversed.
    Read back, the chunk gives [v mod 2^W] unsigned and its two's complement
    signed. *)
Theorem typed_write_wraps_modulo_the_width
    (w : Width) (signed : bool) (endian : Endian) (v : Z) (this : StreamWriter.t) :
  length (StreamWriter.buffer this) = 8%nat ->
  exists chunk,
    snd (StreamWriter.writeValue w signed this v endian) = Ok (Z.of_nat (widthBytes w))
    /\ StreamWriter.writer (fst (StreamWriter.writeValue w signed this v endian))
       = StreamWriter.writer this ++ [chunk]
    /\ length (StreamWriter.buffer (fst (StreamWriter.writeValue w signed this v endian)))
       = 8%nat
    /\ length chunk = widthBytes w
    /\ base256 endian chunk = v mod 2 ^ widthBits w
    /\ StreamWriter.writeValue w (negb signed) this v endian
       = StreamWriter.writeValue w signed this v endian
    /\ StreamWriter.writeValue w signed this (v mod 2 ^ widthBits w) endian
       = StreamWriter.writeValue w signed this v endian
    /\ StreamWriter.writer (fst (StreamWriter.writeValue w signed this v Big))
       = StreamWriter.writer this
           ++ [rev (last (StreamWriter.writer
                            (fst (StreamWriter.writeValue w signed this v Little))) [])]
    /\ snd (readValue (VR := BitOps) w false tt chunk endian)
       = Ok (Num (v mod 2 ^ widthBits w))
    /\ snd (readValue (VR := BitOps) w true tt chunk endian)
       = Ok (Num (twosComplement (widthBits w) (v mod 2 ^ widthBits w))).
Proof.
  intros Hbuf. exists (encoded w endian v).
  rewrite !EncodedFacts.writeValue_encoded by exact Hbuf.
  cbn [fst snd StreamWriter.writer StreamWriter.buffer].
  pose proof (EncodedFacts.length_encoded w endian v) as Hlen.
  rewrite EncodedFacts.encoded_mod, last_last.
  rewrite !ReaderFacts.BitOps_exact by exact Hlen.
  unfold denoted. rewrite EncodedFacts.base256_encoded.
  repeat split; try assumption.
  rewrite length_app, length_skipn, Hlen, Hbuf. destruct w; reflexivity.
Qed.

(** X9, at a concrete input: [writeUint8(-1)] on a fresh writer emits
    [ff]. *)
Lemma typed_write_wraps_modulo_the_width_witness :
  exists chunk,
    StreamWriter.writer (fst (StreamWriter.writeValue W8 false StreamWriter.create (-1) Big))
      = [chunk]
    /\ base256 Big chunk = 255
    /\ snd (readValue (VR := BitOps) W8 true tt chunk Big) = Ok (Num (-1)).
Proof.
  destruct (typed_write_wraps_modulo_the_width W8 false Big (-1) StreamWriter.create)
    as (chunk & _ & Hsink & _ & _ & Hval & _ & _ & _ & _ & Hsigned);
    [reflexivity|].
  exists chunk. split; [exact Hsink|]. split; [exact Hval|]. exact Hsigned.
Defined.

(** ** Sequences of typed writes read back *)

Module SequenceFacts.

Import StreamReader WindowFacts ReaderFacts EncodedFacts.

Lemma writeAll_sink (items : list Item) : forall this : StreamWriter.t,
  length (StreamWriter.buffer this) = 8%nat ->
  StreamWriter.writer (writeAll this items)
    = StreamWriter.writer this ++ map encodedItem items
  /\ length (StreamWriter.buffer (writeAll this items)) = 8%nat.
Proof.
  induction items as [|it items IH]; intros this Hbuf.
  - cbn [writeAll map]. rewrite app_nil_r. split; [reflexivity | exact Hbuf].
  - cbn [writeAll map]. unfold writeItem.
    rewrite writeValue_encoded by exact Hbuf. cbn [fst].
    destruct (IH {| StreamWriter.writer :=
                      StreamWriter.writer this
                        ++ [encoded (itemWidth it) (itemEndian it) (itemValue it)];
                    StreamWriter.buffer :=
                      encoded (itemWidth it) (itemEndian it) (itemValue it)
                        ++ skipn (widthBytes (itemWidth it)) (StreamWriter.buffer this) |})
      as [Hsink Hlen].
    + cbn [StreamWriter.buffer].
      rewrite length_app, length_skipn, length_encoded, Hbuf.
      destruct (itemWidth it); reflexivity.
    + split; [|exact Hlen]. rewrite Hsink. cbn [StreamWriter.writer].
      rewrite <- app_assoc. reflexivity.
Qed.

Lemma Model_read_front {S : Type} (m : Model.t S) (front rest : Uint8Array) :
  Model.remaining m = front ++ rest ->
  Model.read m (len front)
  = ({| Model.remaining := rest; Model.counter := Model.counter m + len front;
        Model.decoder := Model.decoder m |}, Ok front).
Proof.
  intros Hrem. unfold Model.read. rewrite Hrem.
  assert ((len front <=? len (front ++ rest)) = true) as ->
    by (rewrite len_app; pose proof (len_nonneg rest); lia).
  unfold len. rewrite Nat2Z.id.
  rewrite firstn_app, firstn_all, Nat.sub_diag, firstn_O, app_nil_r.
  rewrite skipn_app, skipn_all, Nat.sub_diag. reflexivity.
Qed.

Lemma Model_reads_back (items : list Item) :
  forall (m : Model.t PerformanceValueReader.t) (rest : Uint8Array),
  Model.remaining m = concat (map encodedItem items) ++ rest ->
  length (DataViewValueReader.scratchBuf (PerformanceValueReader.dv (Model.decoder m)))
    = 8%nat ->
  Forall representableItem items ->
  map fst (snd (Model.run m (map readItem items)))
    = map (fun it => Val (Ok (Num (itemValue it)))) items
  /\ Model.remaining (fst (Model.run m (map readItem items))) = rest
  /\ Model.counter (fst (Model.run m (map readItem items)))
     = Model.counter m + len (concat (map encodedItem items)).
Proof.
  induction items as [|it items IH]; intros m rest Hrem Hs Hrep.
  - cbn [map concat app] in *. change (len (@nil byte)) with 0.
    cbn [Model.run fst snd map]. repeat split; [exact Hrem | lia].
  - inversion Hrep as [|? ? Hit Hrep']; subst.
    cbn [map concat] in *. rewrite <- app_assoc in Hrem.
    pose proof (length_encoded (itemWidth it) (itemEndian it) (itemValue it)) as Hlen.
    fold (encodedItem it) in Hlen.
    assert (Hn : Z.of_nat (widthBytes (itemWidth it)) = len (encodedItem it))
      by (unfold len; rewrite Hlen; reflexivity).
    assert (Hperf : exists s,
      length (DataViewValueReader.scratchBuf (PerformanceValueReader.dv s)) = 8%nat
      /\ Model.perform m (readItem it)
         = ({| Model.remaining := concat (map encodedItem items) ++ rest;
               Model.counter := Model.counter m + len (encodedItem it);
               Model.decoder := s |},
            Val (Ok (Num (itemValue it))))).
    { unfold readItem. cbn [Model.perform].
      rewrite Hn, (Model_read_front m _ _ Hrem).
      cbn [Model.decoder Model.remaining Model.counter].
      pose proof (Performance_exact (itemWidth it) (itemSigned it) (itemEndian it)
                    (encodedItem it) (Model.decoder m) Hs Hlen) as Hval.
      pose proof (ScratchFacts.Performance_scratch_length (itemWidth it) (itemSigned it)
                    (itemEndian it) (encodedItem it) (Model.decoder m) Hs) as Hs'.
      assert (Hden : denoted (itemWidth it) (itemSigned it) (itemEndian it)
                       (encodedItem it) = itemValue it)
        by (apply denoted_encoded; exact Hit).
      rewrite Hden in Hval.
      destruct (readValue (itemWidth it) (itemSigned it) (Model.decoder m)
                  (encodedItem it) (itemEndian it)) as [s v].
      cbn [fst snd] in Hval, Hs'. subst v. exists s. split; [exact Hs' | reflexivity]. }
    destruct Hperf as (s & Hs' & Hperf).
    cbn [Model.run]. rewrite Hperf.
    set (m1 := {| Model.remaining := concat (map encodedItem items) ++ rest;
                  Model.counter := Model.counter m + len (encodedItem it);
                  Model.decoder := s |}).
    destruct (IH m1 rest eq_refl Hs' Hrep') as (Hout & Hrest & Hcount).
    destruct (Model.run m1 (map readItem items)) as [m2 outs].
    cbn [fst snd map] in *. rewrite Hout, Hrest, Hcount, len_app.
    unfold m1. cbn [Model.counter]. repeat split. lia.
Qed.

End SequenceFacts.

(** X10.  Typed writes read back in sequence.  Whatever list of
    representable values a fresh writer writes, and however the bytes its
    sink received are cut into chunks on the way, a reader over those chunks
    (with the default value reader, fresh) that issues the matching typed
    reads gets the values back in order; afterwards [bytesRead] is the number
    of bytes written and nothing is left unread. *)
Theorem typed_writes_read_back_in_sequence (items : list Item) (chunks : list Uint8Array) :
  Forall representableItem items ->
  concat chunks = concat (StreamWriter.writer (writeAll StreamWriter.create items)) ->
  map fst (snd (StreamReader.run
                  (StreamReader.create chunks PerformanceValueReader.create)
                  (map readItem items)))
    = map (fun it => StreamReader.Val (Ok (Num (itemValue it)))) items
  /\ StreamReader.bytesRead
       (fst (StreamReader.run (StreamReader.create chunks PerformanceValueReader.create)
               (map readItem items)))
     = len (concat chunks)
  /\ StreamReader.unread
       (fst (StreamReader.run (StreamReader.create chunks PerformanceValueReader.create)
               (map readItem items)))
     = [].
Proof.
  intros Hrep Hdata.
  destruct (SequenceFacts.writeAll_sink items StreamWriter.create eq_refl) as [Hsink _].
  cbn [StreamWriter.writer StreamWriter.create app] in Hsink.
  rewrite Hsink in Hdata.
  assert (Hrs : Forall (fun r => 0 <= StreamReader.requested r) (map readItem items)).
  { apply Forall_map. apply Forall_forall. intros it _. cbn. lia. }
  destruct (RefinementFacts.run_refines (map readItem items)
              (StreamReader.create chunks PerformanceValueReader.create)
              (ModelFacts.wf_create chunks PerformanceValueReader.create) Hrs)
    as (Hst & Hout & _).
  rewrite ModelFacts.ofReader_create in *.
  destruct (SequenceFacts.Model_reads_back items
              {| Model.remaining := concat chunks; Model.counter := 0;
                 Model.decoder := PerformanceValueReader.create |} [])
    as (Hvals & Hrest & Hcount); try assumption.
  - cbn [Model.remaining]. rewrite app_nil_r. exact Hdata.
  - reflexivity.
  - rewrite Hout, Hvals. split; [reflexivity|].
    assert (Hb : forall this : StreamReader.t PerformanceValueReader.t,
              StreamReader.bytesRead this = Model.counter (Model.ofReader this))
      by reflexivity.
    assert (Hu : forall this : StreamReader.t PerformanceValueReader.t,
              StreamReader.unread this = Model.remaining (Model.ofReader this))
      by reflexivity.
    rewrite Hb, Hu, Hst, Hrest, Hcount, Hdata. cbn [Model.counter].
    split; [lia | reflexivity].
Qed.

(** X10, at a concrete input: [writeUint8(255)], [writeUint16(0x1234, Big)],
    [writeInt64(-2^63, Big)], delivered to the reader as one chunk. *)
Lemma typed_writes_read_back_in_sequence_witness :
  let items := [ {| itemWidth := W8; itemSigned := false; itemEndian := Big;
                    itemValue := 255 |};
                 {| itemWidth := W16; itemSigned := false; itemEndian := Big;
                    itemValue := 4660 |};
                 {| itemWidth := W64; itemSigned := true; itemEndian := Big;
                    itemValue := - 2 ^ 63 |} ] in
  let chunks := [concat (StreamWriter.writer (writeAll StreamWriter.create items))] in
  map fst (snd (StreamReader.run
                  (StreamReader.create chunks PerformanceValueReader.create)
                  (map readItem items)))
    = [StreamReader.Val (Ok (Num 255)); StreamReader.Val (Ok (Num 4660));
       StreamReader.Val (Ok (Num (- 2 ^ 63)))]
  /\ StreamReader.bytesRead
       (fst (StreamReader.run (StreamReader.create chunks PerformanceValueReader.create)
               (map readItem items)))
     = 11.
Proof.
  intros items chunks.
  destruct (typed_writes_read_back_in_sequence items chunks) as (Hvals & Hcount & _).
  - repeat (apply Forall_cons;
            [unfold representableItem, representable; vm_compute; split; discriminate|]).
    apply Forall_nil.
  - unfold chunks. cbn [concat]. apply app_nil_r.
  - split; [exact Hvals|]. rewrite Hcount. reflexivity.
Defined.

(** ** Whole runs of a reader *)

Module RunFacts.

Import StreamReader WindowFacts RefinementFacts.

Section WithValueReader.

Context {S : Type} {VR : ValueReader S}.

Lemma readUntilEof_result (this : t S) :
  wf this ->
  snd (readUntilEof this) = Ok (unread this)
  /\ bytesRead (fst (readUntilEof this)) = bytesRead this + len (unread this)
  /\ reader (fst (readUntilEof this)) = [].
Proof.
  intros Hwf. unfold readUntilEof.
  rewrite DrainFacts.drainLoop_app, DrainFacts.fold_left_lengths.
  cbn [app concat fst snd bytesRead reader]. rewrite Z.add_0_l.
  unfold unread. rewrite sliceFrom_in_range by exact Hwf. repeat split.
Qed.

Lemma Model_run_delivers (ns : list Z) : forall m : Model.t S,
  Forall (fun n => 0 <= n) ns ->
  delivered (snd (Model.run m (map ReadBytes ns)))
    ++ Model.remaining (fst (Model.run m (map ReadBytes ns)))
  = Model.remaining m
  /\ Model.counter (fst (Model.run m (map ReadBytes ns)))
     = Model.counter m + len (delivered (snd (Model.run m (map ReadBytes ns)))).
Proof.
  induction ns as [|n ns IH]; intros m Hns.
  - cbn. change (len (@nil byte)) with 0. split; [reflexivity | lia].
  - inversion Hns as [|? ? Hn Hns']; subst.
    cbn [map Model.run Model.perform]. unfold Model.read.
    destruct (Z.leb_spec n (len (Model.remaining m))) as [Hle|Hgt].
    + set (m1 := {| Model.remaining := skipn (Z.to_nat n) (Model.remaining m);
                    Model.counter := Model.counter m + n;
                    Model.decoder := Model.decoder m |}).
      destruct (IH m1 Hns') as [Hcat Hcount].
      destruct (Model.run m1 (map ReadBytes ns)) as [m2 outs].
      cbn [fst snd] in *. unfold delivered in *. cbn [flat_map fst].
      rewrite <- app_assoc, Hcat, Hcount, len_app.
      unfold m1. cbn [Model.remaining Model.counter].
      split; [apply firstn_skipn|].
      assert (len (firstn (Z.to_nat n) (Model.remaining m)) = n)
        by (unfold len in *; rewrite length_firstn; lia).
      lia.
    + destruct (IH m Hns') as [Hcat Hcount].
      destruct (Model.run m (map ReadBytes ns)) as [m2 outs].
      cbn [fst snd] in *. unfold delivered in *. cbn [flat_map fst app].
      split; assumption.
Qed.

Lemma Model_perform_bounds (m : Model.t S) (r : Request) :
  0 <= requested r ->
  Model.counter m <= Model.counter (fst (Model.perform m r))
                  <= Model.counter m + requested r.
Proof.
  intros Hr. destruct r as [n | w signed endian]; cbn [Model.perform requested] in *;
    unfold Model.read.
  - destruct (n <=? len (Model.remaining m)); cbn; lia.
  - destruct (Z.of_nat (widthBytes w) <=? len (Model.remaining m)).
    + cbn [Model.decoder Model.remaining Model.counter].
      destruct (readValue w signed (Model.decoder m) _ endian) as [s v]. cbn. lia.
    + cbn. lia.
Qed.

Lemma Model_run_bounds (rs : list Request) : forall m : Model.t S,
  Forall (fun r => 0 <= requested r) rs ->
  Model.counter m <= Model.counter (fst (Model.run m rs))
                  <= Model.counter m + totalRequested rs.
Proof.
  induction rs as [|r rs IH]; intros m Hrs.
  - cbn. lia.
  - inversion Hrs as [|? ? Hr Hrs']; subst. cbn [Model.run].
    pose proof (Model_perform_bounds m r Hr) as Hstep.
    destruct (Model.perform m r) as [m1 out]. cbn [fst] in Hstep.
    specialize (IH m1 Hrs').
    destruct (Model.run m1 rs) as [m2 outs]. cbn [fst] in *.
    unfold totalRequested in *. cbn [map fold_right]. lia.
Qed.

Lemma run_app (rs1 rs2 : list Request) : forall this : t S,
  fst (run this (rs1 ++ rs2)) = fst (run (fst (run this rs1)) rs2).
Proof.
  induction rs1 as [|r rs1 IH]; intros this.
  - reflexivity.
  - cbn [app run]. destruct (perform this r) as [this1 out].
    specialize (IH this1).
    destruct (run this1 (rs1 ++ rs2)) as [this2 outs].
    destruct (run this1 rs1) as [this2' outs']. cbn [fst] in *. exact IH.
Qed.

End WithValueReader.

End RunFacts.

(** X11.  Every byte is handed out exactly once.  After any sequence of
    [read(n)] calls on a fresh reader, failed ones included, the arrays the
    successful calls returned followed by the result of [readUntilEof] are
    the whole stream, byte for byte, and [bytesRead] then equals the length
    of the stream. *)
Theorem reads_then_readUntilEof_partition_the_stream
    {S : Type} {VR : ValueReader S}
    (chunks : list Uint8Array) (vr : S) (ns : list Z) :
  Forall (fun n => 0 <= n) ns ->
  exists rest,
    snd (StreamReader.readUntilEof
           (fst (StreamReader.run (StreamReader.create chunks vr)
                   (map StreamReader.ReadBytes ns))))
      = Ok rest
    /\ delivered (snd (StreamReader.run (StreamReader.create chunks vr)
                         (map StreamReader.ReadBytes ns)))
         ++ rest
       = concat chunks
    /\ StreamReader.bytesRead
         (fst (StreamReader.readUntilEof
                 (fst (StreamReader.run (StreamReader.create chunks vr)
                         (map StreamReader.ReadBytes ns)))))
       = len (concat chunks).
Proof.
  intros Hns.
  assert (Hrs : Forall (fun r => 0 <= StreamReader.requested r)
                  (map StreamReader.ReadBytes ns))
    by (apply Forall_map; exact Hns).
  destruct (RefinementFacts.run_refines _ (StreamReader.create chunks vr)
              (ModelFacts.wf_create chunks vr) Hrs) as (Hst & Hout & Hwf).
  destruct (RunFacts.Model_run_delivers ns
              (Model.ofReader (StreamReader.create chunks vr)) Hns) as [Hcat Hcount].
  rewrite <- Hout, <- Hst in Hcat. rewrite <- Hout, <- Hst in Hcount.
  rewrite ModelFacts.ofReader_create in Hcat, Hcount.
  cbn [Model.remaining Model.counter Model.ofReader] in Hcat, Hcount.
  destruct (RunFacts.readUntilEof_result _ Hwf) as (Hres & Hbr & _).
  eexists. split; [exact Hres|]. split.
  - exact Hcat.
  - rewrite Hbr, Hcount, <- Hcat, len_app. lia.
Qed.

(** X11, at a concrete input: [read(2)], a [read(9)] that fails, [read(1)],
    then [readUntilEof], over five bytes in two chunks. *)
Lemma reads_then_readUntilEof_partition_the_stream_witness :
  let chunks := [[x01; x02; x03]; [x04; x05]] in
  exists rest,
    snd (StreamReader.readUntilEof
           (fst (StreamReader.run (StreamReader.create chunks tt)
                   (map StreamReader.ReadBytes [2; 9; 1]))))
      = Ok rest
    /\ delivered (snd (StreamReader.run (StreamReader.create chunks tt)
                         (map StreamReader.ReadBytes [2; 9; 1])))
         ++ rest
       = [x01; x02; x03; x04; x05].
Proof.
  intros chunks.
  destruct (reads_then_readUntilEof_partition_the_stream (VR := BitOps) chunks tt [2; 9; 1])
    as (rest & Hres & Hcat & _).
  - repeat constructor; discriminate.
  - exists rest. split; [exact Hres | exact Hcat].
Defined.

(** X12.  [bytesRead] never goes down and never counts more than was asked
    for: between any two points of a sequence of calls it grows by at least
    [0] and at most the sum of the byte counts requested in between. *)
Theorem bytesRead_is_monotone_and_bounded_by_the_requests
    {S : Type} {VR : ValueReader S}
    (this : StreamReader.t S) (rs1 rs2 : list StreamReader.Request) :
  StreamReader.wf this ->
  Forall (fun r => 0 <= StreamReader.requested r) (rs1 ++ rs2) ->
  StreamReader.bytesRead (fst (StreamReader.run this rs1))
    <= StreamReader.bytesRead (fst (StreamReader.run this (rs1 ++ rs2)))
    <= StreamReader.bytesRead (fst (StreamReader.run this rs1))
       + StreamReader.totalRequested rs2.
Proof.
  intros Hwf Hrs. apply Forall_app in Hrs. destruct Hrs as [Hrs1 Hrs2].
  rewrite RunFacts.run_app.
  destruct (RefinementFacts.run_refines rs1 this Hwf Hrs1) as (_ & _ & Hwf1).
  destruct (RefinementFacts.run_refines rs2 _ Hwf1 Hrs2) as (Hst & _ & _).
  pose proof (RunFacts.Model_run_bounds rs2
                (Model.ofReader (fst (StreamReader.run this rs1))) Hrs2) as Hb.
  rewrite <- Hst in Hb. exact Hb.
Qed.

(** X12, at a concrete input: three bytes, [read(2)] and then a [read(4)]
    that fails; the counter stays at 2. *)
Lemma bytesRead_is_monotone_and_bounded_by_the_requests_witness :
  let this := StreamReader.create [[x01; x02; x03]] tt in
  StreamReader.bytesRead (fst (StreamReader.run this [StreamReader.ReadBytes 2]))
    <= StreamReader.bytesRead
         (fst (StreamReader.run this ([StreamReader.ReadBytes 2] ++ [StreamReader.ReadBytes 4])))
    <= StreamReader.bytesRead (fst (StreamReader.run this [StreamReader.ReadBytes 2]))
       + StreamReader.totalRequested [StreamReader.ReadBytes 4].
Proof.
  intros this.
  apply (bytesRead_is_monotone_and_bounded_by_the_requests (VR := BitOps) this
           [StreamReader.ReadBytes 2] [StreamReader.ReadBytes 4]).
  - apply ModelFacts.wf_create.
  - repeat constructor; discriminate.
Defined.

(** ** What compaction keeps, and how much the fill loop pulls *)

Module CompactFacts.

Import StreamReader WindowFacts RefinementFacts.

Section WithValueReader.

Context {S : Type} {VR : ValueReader S}.

Lemma trimBuffer_compact (this : t S) :
  wf this ->
  2 * bufferOffset (trimBuffer this) <= len (buffer (trimBuffer this)).
Proof.
  intros Hwf. unfold trimBuffer.
  pose proof (len_nonneg (buffer this)) as Hlen.
  pose proof (DrainFacts.shr_1_le_half _ Hlen) as Hhalf.
  destruct (Z.gtb_spec (bufferOffset this) (JS.shr (len (buffer this)) 1)) as [Hgt|Hle].
  - cbn [buffer bufferOffset]. pose proof (len_nonneg (sliceFrom (buffer this) (bufferOffset this))).
    lia.
  - Z.div_mod_to_equations. lia.
Qed.

Lemma read_compact (this : t S) (n : Z) :
  wf this -> 0 <= n ->
  2 * bufferOffset this <= len (buffer this) ->
  2 * bufferOffset (fst (read this n)) <= len (buffer (fst (read this n))).
Proof.
  intros Hwf Hn Hc.
  destruct (Z_le_gt_dec n (len (unread this))) as [Hle|Hgt].
  - rewrite len_unread in Hle by exact Hwf.
    destruct (ensureLoop_enough (reader this) (buffer this) (bufferOffset this) n Hle)
      as (src' & pulled & Hrun & _ & Hfill & _).
    unfold read, ensureBufferFilledToAtLeast. rewrite Hrun.
    cbn [buffer bufferOffset reader valueReader bytesRead fst].
    apply trimBuffer_compact. unfold wf in *. cbn [buffer bufferOffset]. lia.
  - rewrite read_short by (try assumption; lia).
    cbn [fst buffer bufferOffset]. rewrite len_app.
    pose proof (len_nonneg (concat (reader this))). lia.
Qed.

Lemma perform_compact (this : t S) (r : Request) :
  wf this -> 0 <= requested r ->
  2 * bufferOffset this <= len (buffer this) ->
  2 * bufferOffset (fst (perform this r)) <= len (buffer (fst (perform this r))).
Proof.
  intros Hwf Hr Hc. destruct r as [n | w signed endian]; cbn [requested] in Hr.
  - cbn [perform]. pose proof (read_compact this n Hwf Hr Hc) as H.
    destruct (read this n) as [this1 out]. exact H.
  - cbn [perform]. rewrite readTyped_readThen. unfold readThen.
    pose proof (read_compact this _ Hwf Hr Hc) as H.
    destruct (read this (Z.of_nat (widthBytes w))) as [this1 [buf|e]]; cbn [fst] in *.
    + destruct (readValue w signed (valueReader this1) buf endian) as [s v].
      cbn [fst buffer bufferOffset]. exact H.
    + exact H.
Qed.

Lemma run_compact (rs : list Request) : forall this : t S,
  wf this -> Forall (fun r => 0 <= requested r) rs ->
  2 * bufferOffset this <= len (buffer this) ->
  2 * bufferOffset (fst (run this rs)) <= len (buffer (fst (run this rs))).
Proof.
  induction rs as [|r rs IH]; intros this Hwf Hrs Hc.
  - exact Hc.
  - inversion Hrs as [|? ? Hr Hrs']; subst. cbn [run].
    pose proof (perform_compact this r Hwf Hr Hc) as Hc1.
    destruct (perform_refines this r Hwf Hr) as (_ & _ & Hwf1).
    destruct (perform this r) as [this1 out]. cbn [fst] in *.
    specialize (IH this1 Hwf1 Hrs' Hc1).
    destruct (run this1 rs) as [this2 outs]. exact IH.
Qed.

End WithValueReader.

(** The fill loop stops at the first chunk that makes the window long
    enough. *)
Lemma ensureLoop_minimal (src : list Uint8Array) : forall (buf : Uint8Array) (off n : Z),
  n <= len buf - off + len (concat src) ->
  exists k : nat,
    ensureLoop src buf off n = (skipn k src, buf ++ concat (firstn k src), Ok tt)
    /\ forall j : nat, (j < k)%nat ->
         len buf - off + len (concat (firstn j src)) < n.
Proof.
  induction src as [|value src IH]; intros buf off n Hn.
  - exists 0%nat. cbn [concat] in Hn. change (len (@nil byte)) with 0 in Hn.
    cbn [ensureLoop skipn firstn concat].
    assert ((len buf - off <? n) = false) as -> by lia.
    rewrite app_nil_r. split; [reflexivity | intros j Hj; lia].
  - cbn [ensureLoop]. destruct (Z.ltb_spec (len buf - off) n) as [Hlt|Hge].
    + cbn [concat] in Hn. rewrite len_app in Hn.
      destruct (IH (buf ++ value) off n) as (k & Hrun & Hmin).
      { rewrite len_app. lia. }
      exists (Datatypes.S k). cbn [skipn firstn concat]. rewrite Hrun, <- app_assoc.
      split; [reflexivity|]. intros j Hj. destruct j as [|j].
      * cbn [firstn concat]. change (len (@nil byte)) with 0. lia.
      * cbn [firstn concat]. rewrite len_app.
        specialize (Hmin j). rewrite len_app in Hmin. lia.
    + exists 0%nat. cbn [skipn firstn concat]. rewrite app_nil_r.
      split; [reflexivity | intros j Hj; lia].
Qed.

End CompactFacts.

(** X13.  The bound compaction keeps.  After any sequence of [read(n)] and
    typed reads on a fresh reader, failed ones included, the consumed bytes
    the window still holds are never more than the unread bytes in it: the
    cursor is at most half the window length, so the window is at most twice
    its unread part. *)
Theorem window_is_at_most_twice_its_unread_part
    {S : Type} {VR : ValueReader S}
    (chunks : list Uint8Array) (vr : S) (rs : list StreamReader.Request) :
  Forall (fun r => 0 <= StreamReader.requested r) rs ->
  0 <= StreamReader.bufferOffset (fst (StreamReader.run (StreamReader.create chunks vr) rs))
  /\ 2 * StreamReader.bufferOffset (fst (StreamReader.run (StreamReader.create chunks vr) rs))
     <= len (StreamReader.buffer (fst (StreamReader.run (StreamReader.create chunks vr) rs))).
Proof.
  intros Hrs. split.
  - destruct (RefinementFacts.run_refines rs (StreamReader.create chunks vr)
                (ModelFacts.wf_create chunks vr) Hrs) as (_ & _ & Hwf).
    apply Hwf.
  - apply CompactFacts.run_compact; [apply ModelFacts.wf_create | exact Hrs |].
    cbn. unfold len. cbn. lia.
Qed.

(** X13, at a concrete input: six bytes arriving one by one, read by
    [read(1)], [read(2)], [readUint8()]. *)
Lemma window_is_at_most_twice_its_unread_part_witness :
  let this := fst (StreamReader.run
                     (StreamReader.create [[x01]; [x02]; [x03]; [x04]; [x05]; [x06]] tt)
                     [StreamReader.ReadBytes 1; StreamReader.ReadBytes 2;
                      StreamReader.ReadValue W8 false Big]) in
  0 <= StreamReader.bufferOffset this
  /\ 2 * StreamReader.bufferOffset this <= len (StreamReader.buffer this).
Proof.
  intros this.
  apply (window_is_at_most_twice_its_unread_part (VR := BitOps)).
  repeat constructor; discriminate.
Defined.

(** X14.  [read(n)] pulls no more chunks than it needs.  When enough bytes
    are within reach, the source is left with a suffix of its chunks, and
    with any fewer chunks pulled the window would have been too short; in
    particular a request the window can already serve does not touch the
    source. *)
Theorem read_pulls_no_more_chunks_than_needed
    {S : Type} (this : StreamReader.t S) (n : Z) :
  StreamReader.wf this -> 0 <= n ->
  n <= len (StreamReader.buffer this) - StreamReader.bufferOffset this
       + len (concat (StreamReader.reader this)) ->
  exists k : nat,
    StreamReader.reader (fst (StreamReader.read this n)) = skipn k (StreamReader.reader this)
    /\ (forall j : nat, (j < k)%nat ->
          len (StreamReader.buffer this) - StreamReader.bufferOffset this
            + len (concat (firstn j (StreamReader.reader this))) < n)
    /\ (n <= len (StreamReader.buffer this) - StreamReader.bufferOffset this ->
        StreamReader.reader (fst (StreamReader.read this n)) = StreamReader.reader this).
Proof.
  intros Hwf Hn Hroom.
  destruct (CompactFacts.ensureLoop_minimal (StreamReader.reader this)
              (StreamReader.buffer this) (StreamReader.bufferOffset this) n Hroom)
    as (k & Hrun & Hmin).
  assert (Hreader : StreamReader.reader (fst (StreamReader.read this n))
                    = skipn k (StreamReader.reader this)).
  { unfold StreamReader.read, StreamReader.ensureBufferFilledToAtLeast. rewrite Hrun.
    cbn [fst]. unfold StreamReader.trimBuffer.
    destruct (_ >? _); reflexivity. }
  exists k. split; [exact Hreader|]. split; [exact Hmin|].
  intros Hserved. rewrite Hreader. destruct k as [|k]; [reflexivity|].
  specialize (Hmin 0%nat). cbn [firstn concat] in Hmin.
  change (len (@nil byte)) with 0 in Hmin. lia.
Qed.

(** X14, at a concrete input: [read(3)] over three chunks of two bytes. *)
Lemma read_pulls_no_more_chunks_than_needed_witness :
  let this := StreamReader.create [[x01; x02]; [x03; x04]; [x05; x06]] tt in
  exists k : nat,
    StreamReader.reader (fst (StreamReader.read this 3)) = skipn k (StreamReader.reader this)
    /\ (forall j : nat, (j < k)%nat ->
          len (StreamReader.buffer this) - StreamReader.bufferOffset this
            + len (concat (firstn j (StreamReader.reader this))) < 3)
    /\ (3 <= len (StreamReader.buffer this) - StreamReader.bufferOffset this ->
        StreamReader.reader (fst (StreamReader.read this 3)) = StreamReader.reader this).
Proof.
  intros this.
  apply (read_pulls_no_more_chunks_than_needed this 3).
  - apply ModelFacts.wf_create.
  - lia.
  - vm_compute. discriminate.
Defined.

(** ** The reader of [stream.ts] and the reader of [reader.ts], call by call *)

Module OldReaderFacts.

Import StreamReader Platform DigitFacts ReaderFacts WindowFacts RefinementFacts ModelFacts.

(** The [DataView] getters of [stream.ts] on an array of exactly the width
    they read. *)
Lemma getUint_exact (size : nat) (buffer : Uint8Array) (le : bool) :
  length buffer = size ->
  getUint size buffer 0 le = Ok (leValue (if le then buffer else rev buffer)).
Proof.
  intros Hlen. unfold getUint.
  rewrite ScratchFrontFacts.rawBytes_front by lia.
  rewrite <- Hlen, firstn_all. reflexivity.
Qed.

Lemma getInt_exact (size : nat) (buffer : Uint8Array) (le : bool) :
  length buffer = size ->
  getInt size buffer 0 le = Ok (asSigned size (leValue (if le then buffer else rev buffer))).
Proof.
  intros Hlen. unfold getInt. rewrite getUint_exact by exact Hlen. reflexivity.
Qed.

Lemma Stream_readTyped_ok (w : Width) (signed : bool) (endian : Endian)
    (this this1 : Stream.t) (buffer : Uint8Array) :
  Stream.read this (Z.of_nat (widthBytes w)) = (this1, Ok buffer) ->
  length buffer = widthBytes w ->
  Stream.readTyped w signed this endian
  = (this1, Ok (Num (denoted w signed endian buffer))).
Proof.
  intros Hread Hlen. unfold denoted, widthBits.
  rewrite <- asSigned_twosComplement, base256_leValue.
  destruct w, signed; cbn [Stream.readTyped widthBytes] in *;
    unfold Stream.readInt8, Stream.readUint8, Stream.readInt16, Stream.readUint16,
      Stream.readInt32, Stream.readUint32, Stream.readInt64, Stream.readUint64,
      Stream.readWith, Stream.createDataView;
    cbn [Z.of_nat Pos.of_succ_nat Pos.succ] in Hread; rewrite Hread;
    rewrite ?getInt_exact, ?getUint_exact by exact Hlen;
    cbn [Stream.liftNum]; try reflexivity.
  - destruct endian; cbn [isLittle]; rewrite ?leValue_single_rev by exact Hlen; reflexivity.
  - destruct buffer as [|b [|c buffer]]; try discriminate Hlen.
    destruct endian; cbn [nth_error isLittle rev app leValue];
      rewrite Z.mul_0_r, Z.add_0_r; reflexivity.
Qed.

Lemma Stream_readTyped_throw (w : Width) (signed : bool) (endian : Endian)
    (this this1 : Stream.t) (e : error) :
  Stream.read this (Z.of_nat (widthBytes w)) = (this1, Throw e) ->
  Stream.readTyped w signed this endian = (this1, Throw e).
Proof.
  intros Hread.
  destruct w, signed; cbn [Stream.readTyped widthBytes] in *;
    unfold Stream.readInt8, Stream.readUint8, Stream.readInt16, Stream.readUint16,
      Stream.readInt32, Stream.readUint32, Stream.readInt64, Stream.readUint64,
      Stream.readWith;
    cbn [Z.of_nat Pos.of_succ_nat Pos.succ] in Hread; rewrite Hread; reflexivity.
Qed.

Section OldAndNew.

Context {S : Type} {VR : ValueReader S}.

(** A value reader that is exact on buffers of the width asked for, in the
    states [Inv] describes. *)
Variable Inv : S -> Prop.
Hypothesis Hexact : forall s w signed endian buf,
  Inv s -> length buf = widthBytes w ->
  snd (readValue w signed s buf endian) = Ok (Num (denoted w signed endian buf))
  /\ Inv (fst (readValue w signed s buf endian)).

Lemma Stream_perform_refines (this : Stream.t) (s : S) (r : Request) :
  Stream.wf this -> Inv s -> 0 <= requested r ->
  snd (Stream.perform this r) = snd (Model.perform (Model.ofStream this s) r)
  /\ Model.ofStream (fst (Stream.perform this r))
       (Model.decoder (fst (Model.perform (Model.ofStream this s) r)))
     = fst (Model.perform (Model.ofStream this s) r)
  /\ Stream.wf (fst (Stream.perform this r))
  /\ Inv (Model.decoder (fst (Model.perform (Model.ofStream this s) r))).
Proof.
  intros Hwf Hs Hr. destruct r as [n | w signed endian]; cbn [requested] in Hr.
  - cbn [Stream.perform Model.perform].
    destruct (Stream_read_refines this s n Hwf Hr) as (Hst & Hout & Hwf1).
    assert (Hdec : Model.decoder (fst (Model.read (Model.ofStream this s) n)) = s).
    { unfold Model.read. destruct (_ <=? _); reflexivity. }
    destruct (Stream.read this n) as [this1 out].
    destruct (Model.read (Model.ofStream this s) n) as [m1 out'].
    cbn [fst snd] in *. rewrite Hdec. subst out'.
    repeat split; try assumption; apply Hwf1.
  - cbn [Stream.perform Model.perform].
    destruct (Stream_read_refines this s _ Hwf Hr) as (Hst & Hout & Hwf1).
    pose proof (eq_refl (Model.read (Model.ofStream this s) (Z.of_nat (widthBytes w))))
      as Hshape.
    unfold Model.read at 2 in Hshape.
    destruct (Stream.read this (Z.of_nat (widthBytes w))) as [this1 out] eqn:Hread.
    destruct (Model.read (Model.ofStream this s) (Z.of_nat (widthBytes w)))
      as [m1 out'].
    cbn [fst snd] in Hst, Hout, Hwf1. subst out'.
    destruct (Z.leb_spec (Z.of_nat (widthBytes w))
                (len (Model.remaining (Model.ofStream this s)))) as [Hle|Hgt].
    + injection Hshape as Hm1 Hout.
      cbn [Model.remaining Model.ofStream] in Hle, Hout.
      remember (firstn (Z.to_nat (Z.of_nat (widthBytes w))) (Stream.unread this))
        as buf eqn:Hbuf.
      subst out.
      assert (Hlen : length buf = widthBytes w).
      { rewrite Hbuf, length_firstn. unfold len in Hle. lia. }
      assert (Hdec : Model.decoder m1 = s) by (rewrite Hm1; reflexivity).
      rewrite (Stream_readTyped_ok w signed endian this this1 buf Hread Hlen).
      rewrite Hdec.
      destruct (Hexact s w signed endian buf Hs Hlen) as [Hval Hinv].
      destruct (readValue w signed s buf endian) as [s' v].
      cbn [fst snd Model.decoder] in Hval, Hinv |- *. subst v.
      repeat split; try assumption; try apply Hwf1.
      unfold Model.ofStream. rewrite <- Hst. reflexivity.
    + injection Hshape as Hm1 Hout. subst out.
      rewrite (Stream_readTyped_throw w signed endian this this1 _ Hread).
      cbn [fst snd]. assert (Hdec : Model.decoder m1 = s) by (rewrite Hm1; reflexivity).
      rewrite Hdec. repeat split; try assumption; apply Hwf1.
Qed.

Lemma Stream_run_refines (rs : list Request) : forall (this : Stream.t) (s : S),
  Stream.wf this -> Inv s -> Forall (fun r => 0 <= requested r) rs ->
  snd (Stream.run this rs) = snd (Model.run (Model.ofStream this s) rs).
Proof.
  induction rs as [|r rs IH]; intros this s Hwf Hs Hrs.
  - reflexivity.
  - inversion Hrs as [|? ? Hr Hrs']; subst. cbn [Stream.run Model.run].
    destruct (Stream_perform_refines this s r Hwf Hs Hr) as (Hout & Hst & Hwf1 & Hs1).
    destruct (Stream.perform this r) as [this1 out].
    destruct (Model.perform (Model.ofStream this s) r) as [m1 out'].
    cbn [fst snd] in *. subst out'.
    specialize (IH this1 (Model.decoder m1) Hwf1 Hs1 Hrs'). rewrite Hst in IH.
    destruct (Stream.run this1 rs) as [this2 outs].
    destruct (Model.run m1 rs) as [m2 outs'].
    cbn [fst snd] in *. subst outs'.
    f_equal. f_equal. rewrite <- Hst. reflexivity.
Qed.

Lemma old_and_new_agree (chunks : list Uint8Array) (s : S) (rs : list Request) :
  Inv s -> Forall (fun r => 0 <= requested r) rs ->
  snd (run (create chunks s) rs) = snd (Stream.run (Stream.create chunks) rs).
Proof.
  intros Hs Hrs.
  destruct (run_refines rs (create chunks s) (wf_create chunks s) Hrs) as (_ & Hout & _).
  rewrite Hout. symmetry.
  rewrite (Stream_run_refines rs (Stream.create chunks) s); try assumption.
  - reflexivity.
  - unfold Stream.wf. cbn. unfold len. cbn. lia.
Qed.

End OldAndNew.

End OldReaderFacts.

(** X15.  The two generations of the reader agree call by call.  Over any
    source chunking and for any sequence of [read(n)] and typed reads, the
    reader of [reader.ts] gives, with each of the three value readers, the
    replies and the [bytesRead] values of the reader of [stream.ts], which
    decodes with a [DataView] over the array it has just read. *)
Theorem reader_ts_and_stream_ts_agree_on_every_call
    (chunks : list Uint8Array) (rs : list StreamReader.Request) :
  Forall (fun r => 0 <= StreamReader.requested r) rs ->
  snd (StreamReader.run (VR := BitOps) (StreamReader.create chunks tt) rs)
    = snd (Stream.run (Stream.create chunks) rs)
  /\ snd (StreamReader.run (VR := DataViewVR)
            (StreamReader.create chunks DataViewValueReader.create) rs)
     = snd (Stream.run (Stream.create chunks) rs)
  /\ snd (StreamReader.run (VR := PerformanceVR)
            (StreamReader.create chunks PerformanceValueReader.create) rs)
     = snd (Stream.run (Stream.create chunks) rs).
Proof.
  intros Hrs. split; [|split].
  - apply (OldReaderFacts.old_and_new_agree (fun _ => True)); [|exact I | exact Hrs].
    intros s w signed endian buf _ Hlen.
    rewrite ReaderFacts.BitOps_exact by exact Hlen. split; [reflexivity | exact I].
  - apply (OldReaderFacts.old_and_new_agree
             (fun s => length (DataViewValueReader.scratchBuf s) = 8%nat));
      [| reflexivity | exact Hrs].
    intros s w signed endian buf Hs Hlen. split.
    + rewrite ReaderFacts.DataView_exact by assumption. reflexivity.
    + apply ReaderFacts.DataView_scratch_length. exact Hs.
  - apply (OldReaderFacts.old_and_new_agree
             (fun s => length (DataViewValueReader.scratchBuf (PerformanceValueReader.dv s))
                       = 8%nat));
      [| reflexivity | exact Hrs].
    intros s w signed endian buf Hs Hlen. split.
    + apply ReaderFacts.Performance_exact; assumption.
    + apply ScratchFacts.Performance_scratch_length. exact Hs.
Qed.

(** X15, at a concrete input: four bytes in two chunks, read as a signed
    16-bit number, one raw byte, and a 16-bit read that finds one byte
    only. *)
Lemma reader_ts_and_stream_ts_agree_on_every_call_witness :
  let chunks := [[xff]; [xfe; x03; x04]] in
  let rs := [StreamReader.ReadValue W16 true Big; StreamReader.ReadBytes 1;
             StreamReader.ReadValue W16 false Little] in
  snd (StreamReader.run (VR := PerformanceVR)
         (StreamReader.create chunks PerformanceValueReader.create) rs)
  = snd (Stream.run (Stream.create chunks) rs).
Proof.
  intros chunks rs.
  apply (reader_ts_and_stream_ts_agree_on_every_call chunks rs).
  repeat constructor; discriminate.
Defined.

(** ** [StreamReader.from] *)

(** X16.  [StreamReader.from] on a source whose window is its whole buffer
    (an [ArrayBuffer], a [Uint8Array], or another view that spans its
    buffer): the reader it builds delivers exactly the bytes of the source,
    [read(n)] the first [n] of them, [readUntilEof] all of them with
    [bytesRead] equal to their number.  A value that is neither a buffer nor
    a view is taken for the buffer object its property [buffer] holds:
    [from] throws the [TypeError] of [uint8ArrayFromBufferSource] exactly
    when that property is no [ArrayBuffer], and otherwise builds the reader
    it builds for the [ArrayBuffer] itself. *)
Theorem from_reads_the_bytes_of_the_source
    {S : Type} (src : Buffer.BufferSource) (bs : Uint8Array) (vr : S) :
  Buffer.sourceBytes src = Some bs ->
  match src with
  | Buffer.SrcBuffer b => Buffer.isArrayBuffer b = true
  | Buffer.SrcView v =>
      Buffer.kind v = Buffer.KUint8Array
      \/ (Buffer.isArrayBuffer (Buffer.viewBuffer v) = true
          /\ Buffer.byteOffset v = 0
          /\ Buffer.byteLength v = len (Buffer.bytes (Buffer.viewBuffer v)))
  | Buffer.SrcOther _ => False
  end ->
  exists this,
    StreamReaderStatic.from src vr = Ok this
    /\ StreamReader.wf this
    /\ StreamReader.unread this = bs
    /\ StreamReader.bytesRead this = 0
    /\ snd (StreamReader.readUntilEof this) = Ok bs
    /\ StreamReader.bytesRead (fst (StreamReader.readUntilEof this)) = len bs
    /\ (forall n, 0 <= n <= len bs ->
          snd (StreamReader.read this n) = Ok (firstn (Z.to_nat n) bs))
    /\ (forall other,
          StreamReaderStatic.from (Buffer.SrcOther other) vr = Throw TypeError
          <-> match other with
              | Some b => Buffer.isArrayBuffer b = false
              | None => True
              end)
    /\ (forall b,
          Buffer.isArrayBuffer b = true ->
          exists that,
            StreamReaderStatic.from (Buffer.SrcOther (Some b)) vr = Ok that
            /\ StreamReaderStatic.from (Buffer.SrcBuffer b) vr = Ok that
            /\ StreamReader.unread that = Buffer.bytes b).
Proof.
  intros Hbs Hsrc.
  destruct (BufferFacts.uint8ArrayFromBufferSource_whole src bs Hbs Hsrc)
    as (out & Hconv & Hbytes & _).
  unfold StreamReaderStatic.from at 1. rewrite Hconv, Hbytes.
  exists (StreamReader.create [bs] vr).
  pose proof (ModelFacts.wf_create [bs] vr) as Hwf.
  assert (Hun : StreamReader.unread (StreamReader.create [bs] vr) = bs).
  { unfold StreamReader.unread. cbn. apply app_nil_r. }
  destruct (RunFacts.readUntilEof_result (StreamReader.create [bs] vr) Hwf)
    as (Hres & Hbr & _).
  rewrite Hun in Hres, Hbr.
  split; [reflexivity|]. split; [exact Hwf|]. split; [exact Hun|].
  split; [reflexivity|]. split; [exact Hres|].
  split; [rewrite Hbr; cbn [StreamReader.bytesRead StreamReader.create]; lia|].
  split; [|split].
  - intros n Hn.
    destruct (WindowFacts.read_enough (StreamReader.create [bs] vr) n Hwf)
      as (this' & Hrun & _); [lia | rewrite Hun; lia |].
    rewrite Hrun, Hun. reflexivity.
  - intros [b|]; unfold StreamReaderStatic.from;
      cbn [Buffer.uint8ArrayFromBufferSource].
    + destruct (Buffer.isArrayBuffer b); split; intros H;
        try discriminate; reflexivity.
    + split; intros; [exact I | reflexivity].
  - intros b Hb. unfold StreamReaderStatic.from.
    cbn [Buffer.uint8ArrayFromBufferSource]. rewrite Hb.
    exists (StreamReader.create [Buffer.viewBytes (Buffer.wholeBuffer b)] vr).
    split; [reflexivity|]. split; [reflexivity|].
    unfold StreamReader.unread, Buffer.viewBytes, Buffer.wholeBuffer, len.
    cbn. rewrite Nat2Z.id, firstn_all. apply app_nil_r.
Qed.

(** X16, at a concrete input: a three-byte [ArrayBuffer]. *)
Lemma from_reads_the_bytes_of_the_source_witness :
  let storage := {| Buffer.ident := 0%nat; Buffer.isArrayBuffer := true;
                    Buffer.bytes := [x01; x02; x03] |} in
  exists this,
    StreamReaderStatic.from (Buffer.SrcBuffer storage) tt = Ok this
    /\ snd (StreamReader.readUntilEof this) = Ok [x01; x02; x03]
    /\ StreamReader.bytesRead (fst (StreamReader.readUntilEof this)) = 3.
Proof.
  intros storage.
  destruct (from_reads_the_bytes_of_the_source (Buffer.SrcBuffer storage) [x01; x02; x03] tt)
    as (this & Hfrom & _ & _ & _ & Hres & Hbr & _).
  - reflexivity.
  - reflexivity.
  - exists this. split; [exact Hfrom|]. split; [exact Hres | exact Hbr].
Defined.

(** ** The sink after a sequence of typed writes *)

(** X17.  The scratch array of the writer never leaks into a chunk.  After
    any sequence of typed writes the sink of a fresh writer holds one chunk
    per write, in call order, and each chunk is the [W/8] digits of its own
    value only, whatever wider or narrower writes came before; the bytes
    received add up to the widths written. *)
Theorem sink_holds_one_chunk_per_typed_write (items : list Item) :
  StreamWriter.writer (writeAll StreamWriter.create items) = map encodedItem items
  /\ Forall2 (fun it chunk =>
                length chunk = widthBytes (itemWidth it)
                /\ base256 (itemEndian it) chunk
                   = itemValue it mod 2 ^ widthBits (itemWidth it))
       items (StreamWriter.writer (writeAll StreamWriter.create items))
  /\ len (concat (StreamWriter.writer (writeAll StreamWriter.create items)))
     = fold_right Z.add 0 (map (fun it => Z.of_nat (widthBytes (itemWidth it))) items).
Proof.
  destruct (SequenceFacts.writeAll_sink items StreamWriter.create eq_refl) as [Hsink _].
  cbn [StreamWriter.writer StreamWriter.create app] in Hsink. rewrite Hsink.
  split; [reflexivity|]. split.
  - induction items as [|it items IH]; cbn [map]; constructor.
    + split; [apply EncodedFacts.length_encoded | apply EncodedFacts.base256_encoded].
    + apply IH. destruct (SequenceFacts.writeAll_sink items StreamWriter.create eq_refl)
        as [H _]. exact H.
  - clear Hsink. induction items as [|it items IH]; cbn [map concat fold_right].
    + reflexivity.
    + rewrite len_app, IH. unfold len, encodedItem.
      rewrite EncodedFacts.length_encoded. reflexivity.
Qed.

(** ** A negative byte count *)

Module NegativeFacts.

Import StreamReader WindowFacts.

Lemma ensureLoop_served (src : list Uint8Array) (buf : Uint8Array) (off n : Z) :
  n <= len buf - off -> ensureLoop src buf off n = (src, buf, Ok tt).
Proof.
  intros Hn. destruct src; cbn [ensureLoop];
    assert ((len buf - off <? n) = false) as -> by lia; reflexivity.
Qed.

Lemma slice_backwards {A} (l : list A) (i j : Z) :
  0 <= j -> j <= i -> i <= len l -> slice l i j = [].
Proof.
  intros Hj Hji Hi. unfold slice, clampIndex.
  assert ((i <? 0) = false) as -> by lia.
  assert ((j <? 0) = false) as -> by lia.
  rewrite !Z.min_l by lia.
  replace (Z.to_nat (j - i)) with 0%nat by lia. reflexivity.
Qed.

End NegativeFacts.

(** X18.  [read] does not refuse a negative byte count.  With [n < 0] that
    does not reach before the start of the window, the call succeeds with an
    empty array without touching the source, takes [|n|] off [bytesRead], and
    moves the cursor back: the last [|n|] bytes handed out are unread again
    and the next reads return them a second time. *)
Theorem read_of_a_negative_count_rewinds
    {S : Type} (this : StreamReader.t S) (n : Z) :
  StreamReader.wf this -> n < 0 -> 0 <= StreamReader.bufferOffset this + n ->
  snd (StreamReader.read this n) = Ok []
  /\ StreamReader.reader (fst (StreamReader.read this n)) = StreamReader.reader this
  /\ StreamReader.bytesRead (fst (StreamReader.read this n))
     = StreamReader.bytesRead this + n
  /\ StreamReader.unread (fst (StreamReader.read this n))
     = firstn (Z.to_nat (- n))
         (skipn (Z.to_nat (StreamReader.bufferOffset this + n)) (StreamReader.buffer this))
       ++ StreamReader.unread this
  /\ len (StreamReader.unread (fst (StreamReader.read this n)))
     = len (StreamReader.unread this) - n.
Proof.
  intros Hwf Hneg Hback.
  assert (Hw : 0 <= StreamReader.bufferOffset this <= len (StreamReader.buffer this))
    by exact Hwf.
  unfold StreamReader.read, StreamReader.ensureBufferFilledToAtLeast.
  rewrite NegativeFacts.ensureLoop_served by lia.
  cbn [StreamReader.buffer StreamReader.bufferOffset StreamReader.reader
       StreamReader.valueReader StreamReader.bytesRead fst snd].
  set (this2 := {| StreamReader.reader := StreamReader.reader this;
                   StreamReader.buffer := StreamReader.buffer this;
                   StreamReader.bufferOffset := StreamReader.bufferOffset this + n;
                   StreamReader.valueReader := StreamReader.valueReader this;
                   StreamReader.bytesRead := StreamReader.bytesRead this + n |}).
  assert (Hwf2 : StreamReader.wf this2)
    by (unfold StreamReader.wf, this2; cbn [StreamReader.buffer StreamReader.bufferOffset]; lia).
  destruct (WindowFacts.trimBuffer_view this2 Hwf2) as (_ & Hun & Hrd & _ & Hbr).
  assert (Hview : StreamReader.unread this2
                  = firstn (Z.to_nat (- n))
                      (skipn (Z.to_nat (StreamReader.bufferOffset this + n))
                         (StreamReader.buffer this))
                    ++ StreamReader.unread this).
  { unfold StreamReader.unread, this2.
    cbn [StreamReader.buffer StreamReader.bufferOffset StreamReader.reader].
    rewrite app_assoc. f_equal.
    assert (Hsk : skipn (Z.to_nat (StreamReader.bufferOffset this)) (StreamReader.buffer this)
                  = skipn (Z.to_nat (- n))
                      (skipn (Z.to_nat (StreamReader.bufferOffset this + n))
                         (StreamReader.buffer this))).
    { rewrite <- WindowFacts.skipn_add by lia. f_equal. lia. }
    rewrite Hsk. symmetry. apply firstn_skipn. }
  split; [rewrite NegativeFacts.slice_backwards by lia; reflexivity|].
  split; [exact Hrd|]. split; [exact Hbr|]. split; [rewrite Hun; exact Hview|].
  rewrite Hun, Hview, len_app.
  assert (Hlen : len (firstn (Z.to_nat (- n))
                        (skipn (Z.to_nat (StreamReader.bufferOffset this + n))
                           (StreamReader.buffer this))) = - n).
  { unfold len in *. rewrite length_firstn, length_skipn. lia. }
  lia.
Qed.

(** X18, at a concrete input: after [read(2)] of [01 02 03 04], [read(-1)]
    makes [02] unread again. *)
Lemma read_of_a_negative_count_rewinds_witness :
  let this := {| StreamReader.reader := []; StreamReader.buffer := [x01; x02; x03; x04];
                 StreamReader.bufferOffset := 2; StreamReader.valueReader := tt;
                 StreamReader.bytesRead := 2 |} in
  snd (StreamReader.read this (-1)) = Ok []
  /\ StreamReader.bytesRead (fst (StreamReader.read this (-1))) = 1
  /\ StreamReader.unread (fst (StreamReader.read this (-1))) = [x02; x03; x04].
Proof.
  intros this.
  destruct (read_of_a_negative_count_rewinds this (-1))
    as (Hres & _ & Hbr & Hun & _).
  - split; discriminate.
  - reflexivity.
  - discriminate.
  - split; [exact Hres|]. split; [exact Hbr | exact Hun].
Defined.

(** ** [uint8ArrayFromBufferSource]: what it returns and what it refuses *)

(** X19.  Whenever [uint8ArrayFromBufferSource] returns, the result is a
    [Uint8Array] over the very buffer of the input (nothing is copied), and
    converting the result again returns it unchanged.  The third test of
    the function looks at the property [buffer] of its argument only, so a
    value that is neither a buffer nor a view but holds an [ArrayBuffer] in
    that property is converted as well, to an array over that buffer.  The
    function throws exactly for a [SharedArrayBuffer], for a view other than
    a [Uint8Array] that sits on a [SharedArrayBuffer], and for a value that
    is neither a buffer nor a view and whose property [buffer] is no
    [ArrayBuffer]; a [Uint8Array] on a [SharedArrayBuffer] is accepted. *)
Theorem uint8ArrayFromBufferSource_shares_the_buffer (src : Buffer.BufferSource) :
  (forall out,
     Buffer.uint8ArrayFromBufferSource src = Ok out ->
     Buffer.kind out = Buffer.KUint8Array
     /\ match src with
        | Buffer.SrcBuffer b => Buffer.viewBuffer out = b
        | Buffer.SrcView v => Buffer.viewBuffer out = Buffer.viewBuffer v
        | Buffer.SrcOther other =>
            other = Some (Buffer.viewBuffer out)
            /\ Buffer.isArrayBuffer (Buffer.viewBuffer out) = true
            /\ Buffer.viewBytes out = Buffer.bytes (Buffer.viewBuffer out)
        end
     /\ Buffer.uint8ArrayFromBufferSource (Buffer.SrcView out) = Ok out)
  /\ (Buffer.uint8ArrayFromBufferSource src = Throw TypeError <->
      match src with
      | Buffer.SrcBuffer b => Buffer.isArrayBuffer b = false
      | Buffer.SrcView v =>
          Buffer.kind v = Buffer.KOther
          /\ Buffer.isArrayBuffer (Buffer.viewBuffer v) = false
      | Buffer.SrcOther (Some b) => Buffer.isArrayBuffer b = false
      | Buffer.SrcOther None => True
      end).
Proof.
  split.
  - intros out Hout.
    destruct src as [b | v | [b|]]; cbn [Buffer.uint8ArrayFromBufferSource] in Hout.
    + destruct (Buffer.isArrayBuffer b); [|discriminate].
      injection Hout as <-. repeat split.
    + destruct (Buffer.kind v) eqn:Hk.
      * injection Hout as <-. cbn [Buffer.uint8ArrayFromBufferSource]. rewrite Hk.
        repeat split.
      * destruct (Buffer.isArrayBuffer (Buffer.viewBuffer v)); [|discriminate].
        injection Hout as <-. repeat split.
    + destruct (Buffer.isArrayBuffer b) eqn:Hb; [|discriminate].
      injection Hout as <-.
      split; [reflexivity|]. split.
      * split; [reflexivity|]. split; [exact Hb|].
        unfold Buffer.viewBytes, Buffer.wholeBuffer, len.
        cbn [Buffer.byteOffset Buffer.byteLength Buffer.viewBuffer Z.to_nat skipn].
        rewrite Nat2Z.id. apply firstn_all.
      * reflexivity.
    + discriminate.
  - destruct src as [b | v | [b|]]; cbn [Buffer.uint8ArrayFromBufferSource].
    + destruct (Buffer.isArrayBuffer b); split; intros H; try discriminate; reflexivity.
    + destruct (Buffer.kind v).
      * split; [discriminate | intros [H _]; discriminate].
      * destruct (Buffer.isArrayBuffer (Buffer.viewBuffer v)); split; intros H;
          try discriminate; try (destruct H; discriminate); repeat split.
    + destruct (Buffer.isArrayBuffer b); split; intros H; try discriminate; reflexivity.
    + split; intros; [exact I | reflexivity].
Qed.

(** X19, at a concrete input: the object [{ buffer: new ArrayBuffer(4) }],
    which is neither a buffer nor a view, is converted to an array over the
    four bytes of the buffer it holds. *)
Lemma uint8ArrayFromBufferSource_shares_the_buffer_witness :
  let storage := {| Buffer.ident := 0%nat; Buffer.isArrayBuffer := true;
                    Buffer.bytes := [x01; x02; x03; x04] |} in
  exists out,
    Buffer.uint8ArrayFromBufferSource (Buffer.SrcOther (Some storage)) = Ok out
    /\ Buffer.kind out = Buffer.KUint8Array
    /\ Buffer.viewBuffer out = storage
    /\ Buffer.viewBytes out = [x01; x02; x03; x04].
Proof.
  intros storage.
  destruct (uint8ArrayFromBufferSource_shares_the_buffer
              (Buffer.SrcOther (Some storage))) as [Hok _].
  exists (Buffer.wholeBuffer storage).
  destruct (Hok (Buffer.wholeBuffer storage) eq_refl) as (Hkind & (_ & _ & Hbytes) & _).
  split; [reflexivity|]. split; [exact Hkind|]. split; [reflexivity | exact Hbytes].
Defined.

(** ** BitOpsValueReader: little-endian order past four bytes *)

Module WrapFacts.

Import JS JSFacts BitOpsValueReader.

Lemma shiftCount_wraps (k : Z) : shiftCount (k + 32) = shiftCount k.
Proof.
  unfold shiftCount, ToUint32.
  assert (Hdiv : (32 | 2 ^ 32)) by (exists (2 ^ 27); reflexivity).
  rewrite !Z.mod_mod_divide by exact Hdiv.
  replace (k + 32) with (k + 1 * 32) by lia. apply Z.mod_add. lia.
Qed.

Lemma littleLoop_wraps (rest : Uint8Array) : forall i r : Z,
  littleLoop rest (i + 4) r = littleLoop rest i r.
Proof.
  induction rest as [|b rest IH]; intros i r; cbn [littleLoop].
  - reflexivity.
  - replace (i + 4 + 1) with (i + 1 + 4) by lia. rewrite IH.
    unfold shl. replace ((i + 4) * 8) with (i * 8 + 32) by lia.
    rewrite shiftCount_wraps. reflexivity.
Qed.

Lemma littleLoop_app (a b : Uint8Array) : forall i r : Z,
  littleLoop (a ++ b) i r = littleLoop b (i + len a) (littleLoop a i r).
Proof.
  induction a as [|x a IH]; intros i r.
  - cbn [app littleLoop]. change (len (@nil byte)) with 0. rewrite Z.add_0_r. reflexivity.
  - cbn [app littleLoop]. rewrite IH, len_cons. f_equal. lia.
Qed.

Lemma littleLoop_lor (rest : Uint8Array) : forall i r : Z,
  ToUint32 (littleLoop rest i r)
  = Z.lor (ToUint32 r) (ToUint32 (littleLoop rest i 0)).
Proof.
  induction rest as [|b rest IH]; intros i r; cbn [littleLoop].
  - rewrite (ToUint32_small 0) by (rewrite pow32; lia). rewrite Z.lor_0_r. reflexivity.
  - rewrite IH. rewrite (IH (i + 1) (bor 0 _)). rewrite !ToUint32_bor.
    rewrite (ToUint32_small 0) by (rewrite pow32; lia).
    rewrite Z.lor_0_l, Z.lor_assoc. reflexivity.
Qed.

End WrapFacts.

(** X20.  In little-endian order the shift count of [bufferToUnsignedNumber]
    wraps every four bytes: on a buffer longer than four bytes the bytes
    from the fifth on are OR-ed over the first ones, so the result is the
    bitwise OR of the values of the first four bytes and of the rest (and
    not the low 32 bits of the number, which the big-endian order gives). *)
Theorem bufferToUnsignedNumber_little_folds_every_four_bytes
    (front rest : Uint8Array) :
  length front = 4%nat ->
  BitOpsValueReader.bufferToUnsignedNumber (front ++ rest) Little
  = Z.lor (BitOpsValueReader.bufferToUnsignedNumber front Little)
          (BitOpsValueReader.bufferToUnsignedNumber rest Little).
Proof.
  intros Hlen. unfold BitOpsValueReader.bufferToUnsignedNumber.
  rewrite !JSFacts.shr_0, WrapFacts.littleLoop_app.
  unfold len. rewrite Hlen. change (0 + Z.of_nat 4) with (0 + 4).
  rewrite WrapFacts.littleLoop_wraps. apply WrapFacts.littleLoop_lor.
Qed.

(** X20, at a concrete input: the five bytes [01 00 00 00 02] give [3]. *)
Lemma bufferToUnsignedNumber_little_folds_every_four_bytes_witness :
  BitOpsValueReader.bufferToUnsignedNumber ([x01; x00; x00; x00] ++ [x02]) Little
  = Z.lor (BitOpsValueReader.bufferToUnsignedNumber [x01; x00; x00; x00] Little)
          (BitOpsValueReader.bufferToUnsignedNumber [x02] Little).
Proof.
  apply (bufferToUnsignedNumber_little_folds_every_four_bytes [x01; x00; x00; x00] [x02]).
  reflexivity.
Defined.
